(** * Wasend: the scheduled message delivery queue

    A shallow embedding of the queue worker of [src/services/baileys.js]
    ([processQueue], [isRetryableError], [cleanupOldMediaFiles],
    [checkBirthdays]) and of the schedule part of [src/services/database.js]
    ([getPendingSchedule], [addScheduleItems], [updateScheduleStatus],
    [getDueScheduleItems]).

    Conventions of the embedding:
    - JavaScript strings are byte strings (UTF-8); every test the code makes
      on them ([includes], [startsWith], the regular expressions, [\d]) only
      looks at ASCII characters, where both views agree.
    - Timestamps ([Date], ISO strings, [TIMESTAMPTZ] columns) are integers:
      milliseconds since the epoch.
    - Paths are POSIX paths; [path.join] is embedded with its
      normalisation ([Js.pathJoin]).
    - The outside world (connection state, transport answers, store faults,
      wall clock, identifiers the libraries generate) is an oracle [Env]
      indexed by a logical time [tick] that advances at every [await] of an
      operation of the outside world.
    - The functions of the worker are sequential; [processQueue] itself is
      embedded with the [await]s of the source marked ([Reentrant]), what
      the event loop runs during a wait being a parameter, and the worker
      alone is the case where nothing else runs.
    - Calls of [logger] and the counters [successCount] and [failedCount],
      which only feed log lines, are left out; [io.emit] is kept as a trace. *)

From Stdlib Require Import ZArith String Ascii Bool Lia Sorted.
From stdpp Require Import gmap strings list pretty.

Local Open Scope Z_scope.

(** ** JavaScript string helpers *)

Module Js.

(** [s.includes(pat)] *)
Fixpoint includes (pat s : string) : bool :=
  String.prefix pat s ||
  match s with
  | EmptyString => false
  | String _ rest => includes pat rest
  end.

(** [s.startsWith(pat)] *)
Definition startsWith (pat s : string) : bool := String.prefix pat s.

Definition lower (c : ascii) : ascii :=
  let n := nat_of_ascii c in
  if ((65 <=? n)%nat && (n <=? 90)%nat)%bool then ascii_of_nat (n + 32) else c.

(** [s.toLowerCase()] *)
Fixpoint toLowerCase (s : string) : string :=
  match s with
  | EmptyString => EmptyString
  | String c rest => String (lower c) (toLowerCase rest)
  end.

(** the character class [\d] *)
Definition isDigit (c : ascii) : bool :=
  let n := nat_of_ascii c in ((48 <=? n)%nat && (n <=? 57)%nat)%bool.

(** [s.replace(/[^\d]/g, "")] *)
Fixpoint keepDigits (s : string) : string :=
  match s with
  | EmptyString => EmptyString
  | String c rest => if isDigit c then String c (keepDigits rest) else keepDigits rest
  end.

(** [s.substring(1)] *)
Definition substring1 (s : string) : string :=
  match s with
  | EmptyString => EmptyString
  | String _ rest => rest
  end.

(** [s.replace(/^\//, "")] *)
Definition dropLeadingSlash (s : string) : string :=
  match s with
  | String "/"%char rest => rest
  | _ => s
  end.

(** a case-insensitive pattern without metacharacters, [/pat/i.test(s)];
    [pat] is given in lower case *)
Definition testCI (pat s : string) : bool := includes pat (toLowerCase s).

(** [/^https?:\/\//i.test(s)] *)
Definition isHttpUrl (s : string) : bool :=
  let l := toLowerCase s in
  startsWith "http://" l || startsWith "https://" l.

(** [/^https?:/i.test(s)] *)
Definition isHttpScheme (s : string) : bool :=
  let l := toLowerCase s in
  startsWith "http:" l || startsWith "https:" l.

(** truthiness of a nullable string: [null] and [""] are falsy *)
Definition truthy (o : option string) : bool :=
  match o with
  | Some s => negb (String.eqb s "")
  | None => false
  end.

(** [o || ""] on a nullable string *)
Definition orEmpty (o : option string) : string :=
  match o with Some s => s | None => "" end.

(** [o || null] and [o || undefined] on a nullable string *)
Definition orNull (o : option string) : option string :=
  if truthy o then o else None.

(** the segments of a path between ["/"] separators *)
Fixpoint segments (cur : string) (s : string) : list string :=
  match s with
  | EmptyString => [cur]
  | String c rest =>
      if Ascii.eqb c "/" then cur :: segments "" rest
      else segments (cur +:+ String c "") rest
  end.

(** [path.basename(p)] (POSIX): the last non-empty segment *)
Definition basename (p : string) : string :=
  List.last (List.filter (fun seg => negb (String.eqb seg "")) (segments "" p)) "".

(** [path.join(dir, name)] for a directory and the name of one of its
    entries as [readdir] returns them (one segment, neither ["."] nor
    [".."]), where it concatenates with the separator; [pathJoin] is the
    general case, and agrees with it there (lemma [pathJoin_entry]) *)
Definition join (dir name : string) : string := dir +:+ "/" +:+ name.

(** the last character of a string *)
Fixpoint lastChar (s : string) : option ascii :=
  match s with
  | EmptyString => None
  | String c rest =>
      match rest with
      | EmptyString => Some c
      | String _ _ => lastChar rest
      end
  end.

(** [l.join(sep)] *)
Fixpoint joinWith (sep : string) (l : list string) : string :=
  match l with
  | [] => ""
  | x :: rest =>
      match rest with
      | [] => x
      | _ :: _ => x +:+ sep +:+ joinWith sep rest
      end
  end.

(** [normalizeString] of node's [path] module, segment by segment; [res]
    holds the segments kept so far, last first: empty and ["."] segments
    are dropped, [".."] takes back the last segment kept, and above the
    start of a relative path it is kept *)
Fixpoint normalizeSegments (allowAboveRoot : bool) (res : list string)
    (segs : list string) : list string :=
  match segs with
  | [] => List.rev res
  | seg :: rest =>
      if String.eqb seg "" || String.eqb seg "." then
        normalizeSegments allowAboveRoot res rest
      else if String.eqb seg ".." then
        match res with
        | last :: before =>
            if String.eqb last ".." then
              normalizeSegments allowAboveRoot
                (if allowAboveRoot then ".." :: res else res) rest
            else normalizeSegments allowAboveRoot before rest
        | [] =>
            normalizeSegments allowAboveRoot
              (if allowAboveRoot then [".."] else []) rest
        end
      else normalizeSegments allowAboveRoot (seg :: res) rest
  end.

(** [path.normalize(p)] (POSIX) *)
Definition normalize (p : string) : string :=
  if String.eqb p "" then "."
  else
    let isAbsolute := startsWith "/" p in
    let trailingSeparator :=
      match lastChar p with Some c => Ascii.eqb c "/" | None => false end in
    let path := joinWith "/" (normalizeSegments (negb isAbsolute) [] (segments "" p)) in
    if String.eqb path "" then
      if isAbsolute then "/" else if trailingSeparator then "./" else "."
    else
      let path := if trailingSeparator then path +:+ "/" else path in
      if isAbsolute then "/" +:+ path else path.

(** [path.join(a, b)] (POSIX): the non-empty arguments joined by the
    separator, then normalised *)
Definition pathJoin (a b : string) : string :=
  let joined :=
    if String.eqb a "" then b
    else if String.eqb b "" then a
    else a +:+ "/" +:+ b in
  if String.eqb joined "" then "." else normalize joined.

End Js.

(** ** Data model: the [schedule] and [birthdays] tables *)

Inductive Status := pending | sent | failed.

Global Instance Status_eq_dec : EqDecision Status.
Proof. solve_decision. Defined.

Definition Status_eqb (a b : Status) : bool := bool_decide (a = b).

(** a row of [schedule]; column names as in the table *)
Record Row := mkRow {
  id : string;
  batch_id : option string;
  recipient : string;
  caption : option string;
  media_url : option string;
  media_type : option string;
  send_at : Z;
  status : Status;
  error : option string;
  retry_count : Z;
  sent_at : option Z;
  created_at : Z
}.

(** a row of [birthdays]; the [DATE] column [birthday] is held as the
    instant of that date's midnight in UTC, which is what
    [new Date(b.birthday)] makes of the date string *)
Record Birthday := mkBirthday {
  b_name : string;
  b_phone : string;
  b_birthday : Z;
  b_gender : string;
  b_relationship : string;
  b_custom_message : option string
}.

Record Tables := mkTables {
  schedule : list Row;
  birthdays : list Birthday
}.

(** a regular file: modification time and contents *)
Record File := mkFile {
  mtimeMs : Z;
  bytes : string
}.

(** ** The transport and the observers *)

(** what is handed to [sock.sendMessage] as media: a remote URL or the bytes
    read from the local file *)
Inductive Content :=
  | Url (u : string)
  | Buffer (data : string).

(** the payload objects built in [processQueue] *)
Inductive Payload :=
  | Text (text : string)
  | Image (image : Content) (caption : option string)
  | Video (video : Content) (caption : option string)
  | Audio (audio : Content) (mimetype : option string)
  | Document (document : Content) (caption : option string)
             (mimetype : string) (fileName : string).

(** one call of [sock.sendMessage(jid, payload)]; [for_item] is a ghost field:
    the id of the row the worker was processing *)
Record SendCall := mkSendCall {
  for_item : string;
  to_jid : string;
  payload : Payload
}.

(** [io.emit("queue:item", {id, status, error})], the same with
    [status: 'pending'] and [nextRetryAt], and
    [io.emit("queue:update", {size})] *)
Inductive Event :=
  | QueueItem (item : string) (st : Status) (err : option string)
  | QueueRetry (item : string) (err : string) (nextRetryAt : Z)
  | QueueUpdate (size : nat).

(** ** The environment and the process state *)

Record Env := mkEnv {
  (** [sock && connectionStatus.connected] at a logical time *)
  connectedAt : nat -> bool;
  (** the answer of the transport: [None] resolves, [Some m] rejects with an
      [Error] whose message is [m] *)
  sendOutcome : nat -> string -> Payload -> option string;
  (** [Some m]: the query issued at that time comes back as [{error: m}] *)
  storeError : nat -> option string;
  (** [Date.now()] *)
  nowAt : nat -> Z;
  (** baileys' [jidNormalizedUser] *)
  jidNormalizedUser : string -> string;
  (** [mime.lookup], [false] rendered as [None] *)
  mimeLookup : string -> option string;
  (** the [uuid_generate_v4()] default of the k-th row of an insert *)
  uuidAt : nat -> nat -> string;
  (** [nanoid()] *)
  nanoidAt : nat -> string;
  (** the text the Gemini model returns for a birthday entry and its age
      text, [None] when the request fails *)
  generateContent : nat -> Birthday -> string -> option string;
  (** the offset from UTC, in milliseconds, of the zone the process runs in
      (the [TZ] variable; the Dockerfile sets Asia/Colombo); the zone is
      taken to have no daylight-saving transitions *)
  localOffset : Z
}.

Record World := mkWorld {
  (** logical time: the number of awaited operations so far *)
  tick : nat;
  (** the module variable [sendingInProgress] *)
  sendingInProgress : bool;
  (** the module variable [supabase]: [None] when the client is not configured *)
  supabase : option Tables;
  (** the module variable [genAI], only its being set matters *)
  genAI : bool;
  (** the file system, by absolute path *)
  files : gmap string File;
  (** the calls the transport has received, oldest first *)
  wire : list SendCall;
  (** what was emitted to the observers, oldest first *)
  emitted : list Event
}.

Definition set_tick (n : nat) (w : World) : World :=
  mkWorld n (sendingInProgress w) (supabase w) (genAI w) (files w) (wire w) (emitted w).
Definition set_sendingInProgress (b : bool) (w : World) : World :=
  mkWorld (tick w) b (supabase w) (genAI w) (files w) (wire w) (emitted w).
Definition set_supabase (s : option Tables) (w : World) : World :=
  mkWorld (tick w) (sendingInProgress w) s (genAI w) (files w) (wire w) (emitted w).
Definition set_files (f : gmap string File) (w : World) : World :=
  mkWorld (tick w) (sendingInProgress w) (supabase w) (genAI w) f (wire w) (emitted w).
Definition set_wire (l : list SendCall) (w : World) : World :=
  mkWorld (tick w) (sendingInProgress w) (supabase w) (genAI w) (files w) l (emitted w).
Definition set_emitted (l : list Event) (w : World) : World :=
  mkWorld (tick w) (sendingInProgress w) (supabase w) (genAI w) (files w) (wire w) l.

(** an [await] of an operation of the outside world completes *)
Definition awaited (w : World) : World := set_tick (S (tick w)) w.

(** [db.isSupabaseConfigured]: the client exists exactly when it is truthy *)
Definition isSupabaseConfigured (w : World) : bool :=
  match supabase w with Some _ => true | None => false end.

(** the rows of [schedule], none without a client *)
Definition scheduleOf (w : World) : list Row :=
  match supabase w with Some t => schedule t | None => [] end.

(** ** Computations: state and exceptions *)

Inductive Res (A : Type) :=
  | Ret (a : A)
  | Throw (message : string).
Arguments Ret {A} a.
Arguments Throw {A} message.

Definition M (A : Type) : Type := World -> Res A * World.

Definition ret {A} (a : A) : M A := fun w => (Ret a, w).
Definition throw {A} (m : string) : M A := fun w => (Throw m, w).
Definition bind {A B} (c : M A) (k : A -> M B) : M B := fun w =>
  match c w with
  | (Ret a, w') => k a w'
  | (Throw m, w') => (Throw m, w')
  end.
(** [try { c } catch (e) { h e }] *)
Definition tryCatch {A} (c : M A) (h : string -> M A) : M A := fun w =>
  match c w with
  | (Ret a, w') => (Ret a, w')
  | (Throw m, w') => h m w'
  end.
(** [try { c } finally { f }], with [f] a plain state change *)
Definition tryFinally {A} (c : M A) (f : World -> World) : M A := fun w =>
  let '(r, w') := c w in (r, f w').

Declare Scope js_scope.
Delimit Scope js_scope with js.
Notation "x <- c ;; k" := (bind c (fun x => k))
  (at level 100, c at next level, right associativity) : js_scope.
Notation "c ;;; k" := (bind c (fun _ => k))
  (at level 100, right associativity) : js_scope.

Definition emit (e : Event) : M unit := fun w =>
  (Ret tt, set_emitted (emitted w ++ [e]) w).

(** ** database.js: the schedule queries *)

Section Database.
Variable E : Env.

Definition isPending (r : Row) : bool := Status_eqb (status r) pending.

(** the row filter of [getDueScheduleItems]:
    [.eq('status', 'pending').lte('send_at', now)] *)
Definition isDue (now : Z) (r : Row) : bool := isPending r && (send_at r <=? now).

Definition getDueScheduleItems : M (list Row) := fun w =>
  match supabase w with
  | None => (Ret [], w)
  | Some t =>
      let now := nowAt E (tick w) in
      match storeError E (tick w) with
      | Some _ => (Ret [], awaited w)
      | None => (Ret (List.filter (isDue now) (schedule t)), awaited w)
      end
  end.

(** [.order('send_at', { ascending: true })]: an insertion sort that keeps
    rows of equal send_at in table order (the database leaves the order of
    ties open) *)
Fixpoint insertBySendAt (r : Row) (l : list Row) : list Row :=
  match l with
  | [] => [r]
  | x :: rest => if send_at r <=? send_at x then r :: l else x :: insertBySendAt r rest
  end.
Definition orderBySendAt (l : list Row) : list Row :=
  List.fold_right insertBySendAt [] l.

Definition getPendingSchedule : M (list Row) := fun w =>
  match supabase w with
  | None => (Ret [], w)
  | Some t =>
      match storeError E (tick w) with
      | Some _ => (Ret [], awaited w)
      | None => (Ret (orderBySendAt (List.filter isPending (schedule t))), awaited w)
      end
  end.

(** the [updates] object of [updateScheduleStatus] applied to a row *)
Definition applyUpdates (st : Status) (err : option string) (sentAt : option Z)
    (r : Row) : Row :=
  mkRow (id r) (batch_id r) (recipient r) (caption r) (media_url r) (media_type r)
        (send_at r) st
        (if Js.truthy err then err else error r)
        (retry_count r)
        (match sentAt with Some t => Some t | None => sent_at r end)
        (created_at r).

(** [.update(updates).eq('id', id)] *)
Definition updateWhereId (i : string) (st : Status) (err : option string)
    (sentAt : option Z) (rows : list Row) : list Row :=
  List.map (fun r => if String.eqb (id r) i then applyUpdates st err sentAt r else r) rows.

Definition updateScheduleStatus (i : string) (st : Status) (err : option string)
    (sentAt : option Z) : M bool := fun w =>
  match supabase w with
  | None => (Ret false, w)
  | Some t =>
      match storeError E (tick w) with
      | Some _ => (Ret false, awaited w)
      | None =>
          (Ret true,
           awaited (set_supabase
                      (Some (mkTables (updateWhereId i st err sentAt (schedule t))
                                      (birthdays t))) w))
      end
  end.

End Database.

(** ** baileys.js: the delivery worker *)

(** [PUBLIC_DIR] and [UPLOADS_DIR], with the module in [/app/src/services]
    (the [WORKDIR] of the Dockerfile) *)
Definition PUBLIC_DIR : string := "/app/public".
Definition UPLOADS_DIR : string := Js.join PUBLIC_DIR "uploads".

(** the names [database.js] exports; [db] in [baileys.js] is the namespace
    object of [import * as db from './database.js'] *)
Definition exports : list string :=
  [ "supabase"; "isSupabaseConfigured";
    "getContacts"; "addContact"; "addContacts"; "getContactByPhone";
    "updateContact"; "deleteContact";
    "getBirthdays"; "addBirthday"; "deleteBirthday"; "getBirthdaysByDate";
    "getSchedule"; "getPendingSchedule"; "addScheduleItems";
    "updateScheduleStatus"; "clearFinishedSchedule"; "getDueScheduleItems";
    "addFinanceEntry"; "getFinancesSince" ].

Definition exported (name : string) : bool := existsb (String.eqb name) exports.

(** what the worker expects [db.incrementRetryCount] to resolve to *)
Record RetryResult := mkRetryResult {
  shouldRetry : bool;
  retryCount : Z;
  nextRetryAt : Z
}.

(** [db.incrementRetryCount(id, max)]: [database.js] neither defines nor
    exports such a function (see [exports]), so the property read on the
    namespace object is [undefined] and the call throws a [TypeError] *)
Definition incrementRetryCount (i : string) (max : Z) : M RetryResult :=
  throw "db.incrementRetryCount is not a function".

(** [isRetryableError]: the patterns, in the order of the source *)
Definition retryablePatterns : list (string -> bool) :=
  [ Js.testCI "timeout"; Js.testCI "network"; Js.testCI "connection";
    Js.testCI "etimedout"; Js.testCI "econnreset"; Js.testCI "enotfound";
    Js.testCI "socket hang up"; Js.testCI "rate limit";
    Js.testCI "too many requests";
    Js.includes "503"; Js.includes "502"; Js.includes "500" ].

Definition isRetryableError (errorMessage : string) : bool :=
  existsb (fun pattern => pattern errorMessage) retryablePatterns.

(** the media categories of the dispatch *)
Inductive MediaCategory := image | video | audio | document.

(** the [mediaCategory] chain of [processQueue], on the lower-cased type *)
Definition categorize (mediaType : option string) : MediaCategory :=
  let mt := Js.toLowerCase (Js.orEmpty mediaType) in
  if Js.includes "image" mt then image
  else if Js.includes "video" mt then video
  else if Js.includes "audio" mt then audio
  else document.

(** [localOrHttp] for a row with media *)
Definition localOrHttp (url : string) : string :=
  if Js.isHttpUrl url then url else Js.pathJoin PUBLIC_DIR (Js.dropLeadingSlash url).

(** how one iteration of the [for] loop ends: on to the next item (also by
    [continue]) or out of the loop by [break] *)
Inductive Ctl := Next | Stop.

Section Worker.
Variable E : Env.

(** [fsp.access], [fsp.readFile], [fsp.unlink] *)
Definition access (p : string) : M unit := fun w =>
  match files w !! p with
  | Some _ => (Ret tt, awaited w)
  | None => (Throw ("ENOENT: no such file or directory, access '" +:+ p +:+ "'"), awaited w)
  end.

Definition readFile (p : string) : M string := fun w =>
  match files w !! p with
  | Some f => (Ret (bytes f), awaited w)
  | None => (Throw ("ENOENT: no such file or directory, open '" +:+ p +:+ "'"), awaited w)
  end.

Definition unlink (p : string) : M unit := fun w =>
  match files w !! p with
  | Some _ => (Ret tt, awaited (set_files (delete p (files w)) w))
  | None => (Throw ("ENOENT: no such file or directory, unlink '" +:+ p +:+ "'"), awaited w)
  end.

(** [sock.sendMessage(jid, payload)] while the worker is on row [i] *)
Definition sendMessage (i jid : string) (p : Payload) : M unit := fun w =>
  let w' := awaited (set_wire (wire w ++ [mkSendCall i jid p]) w) in
  match sendOutcome E (tick w) jid p with
  | None => (Ret tt, w')
  | Some m => (Throw m, w')
  end.

(** [new Date().toISOString()] *)
Definition newDate : M Z := fun w => (Ret (nowAt E (tick w)), w).

(** [await new Promise(r => setTimeout(r, 1000))] *)
Definition delay : M unit := fun w => (Ret tt, awaited w).

(** a terminal failure recorded by the worker before [continue] *)
Definition failed_ (item : Row) (stored shown : string) : M Ctl :=
  (updateScheduleStatus E (id item) failed (Some stored) None ;;;
   emit (QueueItem (id item) failed (Some shown)) ;;;
   ret Next)%js.

(** the lines after "Message sent successfully" *)
Definition afterSend (total processedCount : nat) (item : Row)
    (hasMedia : bool) (path : string) : M Ctl :=
  (sentAt <- newDate ;;
   updateScheduleStatus E (id item) sent None (Some sentAt) ;;;
   emit (QueueItem (id item) sent None) ;;;
   (if hasMedia && negb (String.eqb path "") && negb (Js.isHttpScheme path)
    then tryCatch (unlink path) (fun _ => ret tt)
    else ret tt) ;;;
   (if (processedCount <? total)%nat then delay else ret tt) ;;;
   ret Next)%js.

(** the payload object for a row with media, by [mediaCategory] *)
Definition mediaPayload (item : Row) (content : Content) : Payload :=
  let url := Js.orEmpty (media_url item) in
  let path := localOrHttp url in
  let mediaCategory := categorize (media_type item) in
  let messageOptions := Js.orNull (caption item) in
  match mediaCategory with
  | image => Image content messageOptions
  | video => Video content messageOptions
  | audio => Audio content (media_type item)
  | document =>
      Document content messageOptions
        (if Js.truthy (media_type item) then Js.orEmpty (media_type item)
         else if Js.truthy (mimeLookup E url) then Js.orEmpty (mimeLookup E url)
         else "application/octet-stream")
        (Js.basename path)
  end.

(** the media branch: categorise, load, dispatch by category *)
Definition sendMedia (total processedCount : nat) (item : Row) (jid : string) : M Ctl :=
  let url := Js.orEmpty (media_url item) in
  let path := localOrHttp url in
  (content <- (if Js.isHttpScheme path then ret (Some (Url path))
               else tryCatch
                      (access path ;;; buf <- readFile path ;; ret (Some (Buffer buf)))
                      (fun _ => ret None)) ;;
   match content with
   | None => failed_ item "Media file not found" "Media file not found"
   | Some content =>
       sendMessage (id item) jid (mediaPayload item content) ;;;
       afterSend total processedCount item true path
   end)%js.

(** from [const hasMedia] to the end of the [try] block *)
Definition deliver (total processedCount : nat) (item : Row) (jid : string) : M Ctl :=
  if Js.truthy (media_url item) then sendMedia total processedCount item jid
  else if Js.truthy (caption item) then
    (sendMessage (id item) jid (Text (Js.orEmpty (caption item))) ;;;
     afterSend total processedCount item false "")%js
  else failed_ item "No message content" "No message content".

(** the [try] block of one iteration *)
Definition attempt (total processedCount : nat) (item : Row) : M Ctl := fun w =>
  if negb (connectedAt E (tick w)) then (Ret Stop, w)
  else if Js.includes "@g.us" (recipient item) then
    deliver total processedCount item (recipient item) w
  else
    let phone := Js.keepDigits (recipient item) in
    let phone := if Js.startsWith "+" phone then Js.substring1 phone else phone in
    if (String.length phone <? 10)%nat then
      failed_ item "Invalid phone number: too short" "Invalid phone number" w
    else
      deliver total processedCount item
        (jidNormalizedUser E (phone +:+ "@s.whatsapp.net")) w.

(** [e?.message || String(e)] for a thrown [Error] with message [m] *)
Definition errorMessageOf (m : string) : string :=
  if String.eqb m "" then "Error" else m.

(** the [catch (e)] block of one iteration *)
Definition onSendFailure (item : Row) (m : string) : M Ctl :=
  let errorMessage := errorMessageOf m in
  if isRetryableError errorMessage then
    (retryResult <- incrementRetryCount (id item) 3 ;;
     if shouldRetry retryResult then
       emit (QueueRetry (id item)
               ("Retry " +:+ pretty (retryCount retryResult) +:+ "/3: " +:+ errorMessage)
               (nextRetryAt retryResult)) ;;;
       ret Next
     else
       updateScheduleStatus E (id item) failed
         (Some ("Max retries exceeded: " +:+ errorMessage)) None ;;;
       emit (QueueItem (id item) failed (Some ("Max retries exceeded: " +:+ errorMessage))) ;;;
       ret Next)%js
  else
    (updateScheduleStatus E (id item) failed (Some errorMessage) None ;;;
     emit (QueueItem (id item) failed (Some errorMessage)) ;;;
     ret Next)%js.

(** one iteration of [for (const item of dueItems)] *)
Definition iteration (total processedCount : nat) (item : Row) : M Ctl :=
  tryCatch (attempt total processedCount item) (onSendFailure item).

(** the [for] loop; [processedCount] is the count before the iteration; the
    result tells whether the loop ran to its end ([Next]) or was left by
    [break] ([Stop]), which the caller does not look at *)
Fixpoint forOf (total processedCount : nat) (dueItems : list Row) : M Ctl :=
  match dueItems with
  | [] => ret Next
  | item :: rest => fun w =>
      match iteration total (S processedCount) item w with
      | (Ret Next, w') => forOf total (S processedCount) rest w'
      | (Ret Stop, w') => (Ret Stop, w')
      | (Throw m, w') => (Throw m, w')
      end
  end.

(** the outer [try] block of [processQueue] *)
Definition drain : M unit :=
  (dueItems <- getDueScheduleItems E ;;
   match dueItems with
   | [] => ret tt
   | _ =>
       forOf (List.length dueItems) 0 dueItems ;;;
       allPending <- getPendingSchedule E ;;
       emit (QueueUpdate (List.length allPending))
   end)%js.

End Worker.

(** ** baileys.js: [processQueue], among the other callbacks of the process

    An [await] hands control back to the event loop, which runs whatever
    else is ready before the awaited operation completes: among it, further
    invocations of the worker by the 10-second timer of [initBaileys].
    [others] is what runs during one wait; its result, also an exception,
    does not reach the waiting function. The functions are those above, with
    every [await] of the source marked, and [processQueue] around them. *)

Module Reentrant.
Section Waiting.
Variable E : Env.
Variable others : M unit.

(** [await op]: the operation, and what the event loop runs meanwhile *)
Definition await {A} (op : M A) : M A := fun w =>
  let '(r, w1) := op w in (r, snd (others w1)).

Definition failed_ (item : Row) (stored shown : string) : M Ctl :=
  (await (updateScheduleStatus E (id item) failed (Some stored) None) ;;;
   emit (QueueItem (id item) failed (Some shown)) ;;;
   ret Next)%js.

Definition afterSend (total processedCount : nat) (item : Row)
    (hasMedia : bool) (path : string) : M Ctl :=
  (sentAt <- newDate E ;;
   await (updateScheduleStatus E (id item) sent None (Some sentAt)) ;;;
   emit (QueueItem (id item) sent None) ;;;
   (if hasMedia && negb (String.eqb path "") && negb (Js.isHttpScheme path)
    then tryCatch (await (unlink path)) (fun _ => ret tt)
    else ret tt) ;;;
   (if (processedCount <? total)%nat then await delay else ret tt) ;;;
   ret Next)%js.

Definition sendMedia (total processedCount : nat) (item : Row) (jid : string) : M Ctl :=
  let url := Js.orEmpty (media_url item) in
  let path := localOrHttp url in
  (content <- (if Js.isHttpScheme path then ret (Some (Url path))
               else tryCatch
                      (await (access path) ;;;
                       buf <- await (readFile path) ;;
                       ret (Some (Buffer buf)))
                      (fun _ => ret None)) ;;
   match content with
   | None => failed_ item "Media file not found" "Media file not found"
   | Some content =>
       await (sendMessage E (id item) jid (mediaPayload E item content)) ;;;
       afterSend total processedCount item true path
   end)%js.

Definition deliver (total processedCount : nat) (item : Row) (jid : string) : M Ctl :=
  if Js.truthy (media_url item) then sendMedia total processedCount item jid
  else if Js.truthy (caption item) then
    (await (sendMessage E (id item) jid (Text (Js.orEmpty (caption item)))) ;;;
     afterSend total processedCount item false "")%js
  else failed_ item "No message content" "No message content".

Definition attempt (total processedCount : nat) (item : Row) : M Ctl := fun w =>
  if negb (connectedAt E (tick w)) then (Ret Stop, w)
  else if Js.includes "@g.us" (recipient item) then
    deliver total processedCount item (recipient item) w
  else
    let phone := Js.keepDigits (recipient item) in
    let phone := if Js.startsWith "+" phone then Js.substring1 phone else phone in
    if (String.length phone <? 10)%nat then
      failed_ item "Invalid phone number: too short" "Invalid phone number" w
    else
      deliver total processedCount item
        (jidNormalizedUser E (phone +:+ "@s.whatsapp.net")) w.

Definition onSendFailure (item : Row) (m : string) : M Ctl :=
  let errorMessage := errorMessageOf m in
  if isRetryableError errorMessage then
    (* the call of the missing function throws before its [await] is reached *)
    (retryResult <- incrementRetryCount (id item) 3 ;;
     if shouldRetry retryResult then
       emit (QueueRetry (id item)
               ("Retry " +:+ pretty (retryCount retryResult) +:+ "/3: " +:+ errorMessage)
               (nextRetryAt retryResult)) ;;;
       ret Next
     else
       await (updateScheduleStatus E (id item) failed
                (Some ("Max retries exceeded: " +:+ errorMessage)) None) ;;;
       emit (QueueItem (id item) failed (Some ("Max retries exceeded: " +:+ errorMessage))) ;;;
       ret Next)%js
  else
    (await (updateScheduleStatus E (id item) failed (Some errorMessage) None) ;;;
     emit (QueueItem (id item) failed (Some errorMessage)) ;;;
     ret Next)%js.

Definition iteration (total processedCount : nat) (item : Row) : M Ctl :=
  tryCatch (attempt total processedCount item) (onSendFailure item).

Fixpoint forOf (total processedCount : nat) (dueItems : list Row) : M Ctl :=
  match dueItems with
  | [] => ret Next
  | item :: rest => fun w =>
      match iteration total (S processedCount) item w with
      | (Ret Next, w') => forOf total (S processedCount) rest w'
      | (Ret Stop, w') => (Ret Stop, w')
      | (Throw m, w') => (Throw m, w')
      end
  end.

Definition drain : M unit :=
  (dueItems <- await (getDueScheduleItems E) ;;
   match dueItems with
   | [] => ret tt
   | _ =>
       forOf (List.length dueItems) 0 dueItems ;;;
       allPending <- await (getPendingSchedule E) ;;
       emit (QueueUpdate (List.length allPending))
   end)%js.

(** [processQueue(io)]: guards, then [try { ... } catch { log } finally
    { sendingInProgress = false }]; the guards and the raising of the flag
    come before the first [await] *)
Definition processQueue : M unit := fun w =>
  if negb (connectedAt E (tick w)) then (Ret tt, w)
  else if sendingInProgress w then (Ret tt, w)
  else if negb (isSupabaseConfigured w) then (Ret tt, w)
  else
    tryFinally (tryCatch drain (fun _ => ret tt))
               (set_sendingInProgress false)
               (set_sendingInProgress true w).

End Waiting.
End Reentrant.

(** a run of the worker with nothing else running during its waits; lemma
    [processQueue_alone] gives it in terms of the functions above *)
Definition processQueue (E : Env) : M unit := Reentrant.processQueue E (ret tt).

(** ** Calendar arithmetic behind [Date] and [dayjs] *)

Module Cal.

Definition msPerDay : Z := 86400000.

(** Asia/Colombo: UTC+05:30 *)
Definition colombo : Z := 19800000.

(** the day, counted from 1970-01-01, that instant [t] falls on in the zone
    with offset [off] *)
Definition dayNumber (off t : Z) : Z := (t + off) / msPerDay.

Record Civil := mkCivil { year : Z; month : Z; day : Z }.

(** the proleptic Gregorian date of a day number *)
Definition civil (z : Z) : Civil :=
  let z := z + 719468 in
  let era := z / 146097 in
  let doe := z - era * 146097 in
  let yoe := (doe - doe / 1460 + doe / 36524 - doe / 146096) / 365 in
  let doy := doe - (365 * yoe + yoe / 4 - yoe / 100) in
  let mp := (5 * doy + 2) / 153 in
  let d := doy - (153 * mp + 2) / 5 + 1 in
  let m := if mp <? 10 then mp + 3 else mp - 9 in
  mkCivil (yoe + era * 400 + (if m <=? 2 then 1 else 0)) m d.

(** [format('MM-DD')], and the [md] string of [getBirthdaysByDate]: two
    zero-padded fields, compared here as a pair of numbers *)
Definition monthDay (off t : Z) : Z * Z :=
  let c := civil (dayNumber off t) in (month c, day c).

Definition sameMonthDay (a b : Z * Z) : bool :=
  (fst a =? fst b) && (snd a =? snd b).

(** [dayjs(a).isSame(dayjs(b), 'day')] in the zone with offset [off] *)
Definition isSameDay (off a b : Z) : bool := dayNumber off a =? dayNumber off b.

(** [.hour(0).minute(0).second(0)] on a wall clock of the zone with offset
    [off]: the milliseconds are kept *)
Definition atMidnightKeepMs (off t : Z) : Z :=
  dayNumber off t * msPerDay + (t + off) mod 1000 - off.

End Cal.

(** ** database.js: birthdays and inserts *)

(** the object [checkBirthdays] and the HTTP handlers pass to
    [addScheduleItems] *)
Record NewItem := mkNewItem {
  batchId : string;
  n_recipient : string;
  n_caption : option string;
  n_mediaUrl : option string;
  n_mediaType : option string;
  sendAt : Z
}.

Section Inserts.
Variable E : Env.

Definition getBirthdaysByDate (monthDay : Z * Z) : M (list Birthday) := fun w =>
  match supabase w with
  | None => (Ret [], w)
  | Some t =>
      match storeError E (tick w) with
      | Some _ => (Ret [], awaited w)
      | None =>
          (Ret (List.filter
                  (fun b => Cal.sameMonthDay
                              (Cal.monthDay (localOffset E) (b_birthday b)) monthDay)
                  (birthdays t)),
           awaited w)
      end
  end.

(** the k-th inserted row, with the column defaults of the table *)
Definition insertedRow (t : nat) (k : nat) (item : NewItem) : Row :=
  mkRow (uuidAt E t k) (Some (batchId item)) (n_recipient item)
        (Js.orNull (n_caption item)) (Js.orNull (n_mediaUrl item))
        (Js.orNull (n_mediaType item)) (sendAt item) pending None 0 None
        (nowAt E t).

Definition addScheduleItems (items : list NewItem) : M (list Row) := fun w =>
  match supabase w with
  | None => (Ret [], w)
  | Some t =>
      match storeError E (tick w) with
      | Some _ => (Ret [], awaited w)
      | None =>
          let rows := imap (insertedRow (tick w)) items in
          (Ret rows,
           awaited (set_supabase (Some (mkTables (schedule t ++ rows) (birthdays t))) w))
      end
  end.

End Inserts.

(** ** baileys.js: the birthday trigger *)

(** [getOrdinalSuffix]; [%] is the truncating remainder *)
Definition getOrdinalSuffix (num : Z) : string :=
  let j := Z.rem num 10 in
  let k := Z.rem num 100 in
  if (j =? 1) && negb (k =? 11) then pretty num +:+ "st"
  else if (j =? 2) && negb (k =? 12) then pretty num +:+ "nd"
  else if (j =? 3) && negb (k =? 13) then pretty num +:+ "rd"
  else pretty num +:+ "th".

(** the message built without the model, keyed on relationship and gender *)
Definition templateMessage (birthday : Birthday) (ageText : string) : string :=
  let named := "Happy " +:+ ageText +:+ " birthday " +:+ b_name birthday +:+ "! 🎉🎂" in
  if String.eqb (b_relationship birthday) "family" then named
  else if String.eqb (b_relationship birthday) "relative" then named
  else if String.eqb (b_relationship birthday) "friend" then
    if String.eqb (b_gender birthday) "male"
    then "Happy " +:+ ageText +:+ " birthday brother! 🎉🎂"
    else "Happy " +:+ ageText +:+ " birthday sis! 🎉🎂"
  else named.

Section Birthdays.
Variable E : Env.

(** [today.year() - dayjs(birthday.birthday).year()], then the suffix;
    [dayjs] reads the date string of the column as a local date, so the year
    is the year written in it, whatever the zone, while [dayjs()] is the
    local date of now *)
Definition ageText (birthday : Birthday) (now : Z) : string :=
  let today := Cal.civil (Cal.dayNumber (localOffset E) now) in
  let born := Cal.civil (Cal.dayNumber 0 (b_birthday birthday)) in
  getOrdinalSuffix (Cal.year today - Cal.year born).

Definition generateBirthdayMessage (birthday : Birthday) : M string := fun w =>
  if negb (genAI w) then
    (Ret (templateMessage birthday (ageText birthday (nowAt E (tick w)))), w)
  else
    match generateContent E (tick w) birthday (ageText birthday (nowAt E (tick w))) with
    | Some text => (Ret text, awaited w)
    | None =>
        let w' := awaited w in
        (Ret (templateMessage birthday (ageText birthday (nowAt E (tick w')))), w')
    end.

(** the [alreadySent] test of [checkBirthdays] at time [now] *)
Definition alreadySent (now : Z) (pendingSchedule : list Row) (birthday : Birthday) : bool :=
  existsb
    (fun item =>
       String.eqb (recipient item) (b_phone birthday)
       && Js.includes "birthday" (Js.orEmpty (caption item))
       && Cal.isSameDay (localOffset E) (send_at item) (now + Cal.msPerDay))
    pendingSchedule.

(** [dayjs.tz(undefined, "Asia/Colombo").add(1, 'day').hour(0).minute(0).second(0)] *)
Definition messageTime (now : Z) : Z :=
  Cal.atMidnightKeepMs Cal.colombo (now + Cal.msPerDay).

(** the body of [for (const birthday of birthdays)] *)
Definition scheduleBirthday (pendingSchedule : list Row) (birthday : Birthday) : M unit :=
  (now <- newDate E ;;
   if negb (alreadySent now pendingSchedule birthday) then
     birthdayMessage <- (if Js.truthy (b_custom_message birthday)
                         then ret (Js.orEmpty (b_custom_message birthday))
                         else generateBirthdayMessage birthday) ;;
     (fun w =>
        addScheduleItems E
          [ mkNewItem (nanoidAt E (tick w)) (b_phone birthday) (Some birthdayMessage)
                      None None (messageTime now) ] w) ;;;
     ret tt
   else ret tt)%js.

Fixpoint forEachBirthday (pendingSchedule : list Row) (birthdays : list Birthday) : M unit :=
  match birthdays with
  | [] => ret tt
  | birthday :: rest =>
      (scheduleBirthday pendingSchedule birthday ;;;
       forEachBirthday pendingSchedule rest)%js
  end.

Definition checkBirthdays : M unit := fun w =>
  if negb (connectedAt E (tick w)) then (Ret tt, w)
  else if negb (isSupabaseConfigured w) then (Ret tt, w)
  else
    tryCatch
      (now <- newDate E ;;
       birthdays <- getBirthdaysByDate E (Cal.monthDay Cal.colombo (now + Cal.msPerDay)) ;;
       pendingSchedule <- getPendingSchedule E ;;
       forEachBirthday pendingSchedule birthdays ;;;
       allPending <- getPendingSchedule E ;;
       emit (QueueUpdate (List.length allPending)))%js
      (fun _ => ret tt) w.

End Birthdays.

(** ** baileys.js: the media sweep *)

(** [s] without the prefix [pre], if it starts with it *)
Fixpoint stripPrefix (pre s : string) : option string :=
  match pre, s with
  | EmptyString, _ => Some s
  | String a pre', String b s' => if Ascii.eqb a b then stripPrefix pre' s' else None
  | String _ _, EmptyString => None
  end.

(** the name under which path [p] is listed in directory [dir], if it is *)
Definition entryOf (dir p : string) : option string :=
  match stripPrefix (dir +:+ "/") p with
  | Some name =>
      if negb (String.eqb name "") && negb (Js.includes "/" name) then Some name else None
  | None => None
  end.

Definition entries (dir : string) (fs : gmap string File) : list string :=
  omap (entryOf dir) (map fst (map_to_list fs)).

Section Sweep.
Variable E : Env.

(** [fsp.readdir], [fsp.stat] *)
Definition readdir (dir : string) : M (list string) := fun w =>
  (Ret (entries dir (files w)), awaited w).

Definition stat (p : string) : M File := fun w =>
  match files w !! p with
  | Some f => (Ret f, awaited w)
  | None => (Throw ("ENOENT: no such file or directory, stat '" +:+ p +:+ "'"), awaited w)
  end.

(** [activeMediaFiles] *)
Definition activeMediaFiles (pendingSchedule : list Row) : gset string :=
  list_to_set
    (map Js.basename
       (map Js.orEmpty
          (List.filter
             (fun url => Js.truthy url && negb (Js.startsWith "http" (Js.orEmpty url)))
             (map media_url pendingSchedule)))).

(** [for (const file of files)] *)
Fixpoint sweepFiles (oneDayAgo : Z) (active : gset string) (names : list string) : M unit :=
  match names with
  | [] => ret tt
  | file :: rest =>
      if String.eqb file ".gitkeep" then sweepFiles oneDayAgo active rest
      else
        (let filePath := Js.join UPLOADS_DIR file in
         stats <- stat filePath ;;
         (if (mtimeMs stats <? oneDayAgo) && negb (bool_decide (file ∈ active))
          then tryCatch (unlink filePath) (fun _ => ret tt)
          else ret tt) ;;;
         sweepFiles oneDayAgo active rest)%js
  end.

Definition cleanupOldMediaFiles : M unit :=
  tryCatch
    (names <- readdir UPLOADS_DIR ;;
     fun w =>
       if negb (isSupabaseConfigured w) then (Ret tt, w)
       else
         (pendingSchedule <- getPendingSchedule E ;;
          now <- newDate E ;;
          let oneDayAgo := now - 24 * 60 * 60 * 1000 in
          sweepFiles oneDayAgo (activeMediaFiles pendingSchedule) names)%js w)%js
    (fun _ => ret tt).

End Sweep.

(** ** Observations on a world *)

(** the row of [schedule] with a given id *)
Definition rowById (i : string) (w : World) : option Row :=
  List.find (fun r => String.eqb (id r) i) (scheduleOf w).

(** the transport calls made while the worker was on row [i] *)
Definition callsFor (i : string) (w : World) : list SendCall :=
  List.filter (fun c => String.eqb (for_item c) i) (wire w).

(** the category and the caption a payload carries *)
Definition payloadCategory (p : Payload) : option MediaCategory :=
  match p with
  | Text _ => None
  | Image _ _ => Some image
  | Video _ _ => Some video
  | Audio _ _ => Some audio
  | Document _ _ _ _ => Some document
  end.

Definition payloadCaption (p : Payload) : option string :=
  match p with
  | Text _ => None
  | Image _ c => c
  | Video _ c => c
  | Audio _ _ => None
  | Document _ c _ _ => c
  end.

(** the recipient identifier [attempt] hands to the transport, and the test
    that lets it get that far *)
Definition phoneOf (item : Row) : string :=
  let phone := Js.keepDigits (recipient item) in
  if Js.startsWith "+" phone then Js.substring1 phone else phone.

Definition isGroup (item : Row) : bool := Js.includes "@g.us" (recipient item).

Definition jidOf (E : Env) (item : Row) : string :=
  if isGroup item then recipient item
  else jidNormalizedUser E (phoneOf item +:+ "@s.whatsapp.net").

Definition validRecipient (item : Row) : bool :=
  isGroup item || (10 <=? String.length (phoneOf item))%nat.

(** a worker run started in world [w] gets to [item] in world [wk], as
    iteration number [n] of [total]: the guards pass, the store answers the
    read with rows whose ids are unique, and the loop completes the items
    before it with the connection still up *)
Definition reaches (E : Env) (w : World) (item : Row) (total n : nat) (wk : World) : Prop :=
  exists t pre post,
    connectedAt E (tick w) = true
    /\ sendingInProgress w = false
    /\ supabase w = Some t
    /\ storeError E (tick w) = None
    /\ NoDup (map id (schedule t))
    /\ List.filter (isDue (nowAt E (tick w))) (schedule t) = pre ++ item :: post
    /\ total = List.length (pre ++ item :: post)
    /\ n = S (List.length pre)
    /\ forOf E total 0 pre (awaited (set_sendingInProgress true w)) = (Ret Next, wk)
    /\ connectedAt E (tick wk) = true.

(** the single-flight flag and the presence of a store client are as before *)
Definition Held (w w' : World) : Prop :=
  sendingInProgress w' = sendingInProgress w
  /\ isSupabaseConfigured w' = isSupabaseConfigured w.

(** row [i] and the transport calls made for it are as before *)
Definition Untouched (i : string) (w w' : World) : Prop :=
  rowById i w' = rowById i w /\ callsFor i w' = callsFor i w.

(** what [sendMedia] loads for a row in world [w], when the load succeeds: the
    URL itself, or the bytes of the local file *)
Definition mediaContent (w : World) (item : Row) : option Content :=
  let path := localOrHttp (Js.orEmpty (media_url item)) in
  if Js.isHttpScheme path then Some (Url path)
  else option_map (fun f => Buffer (bytes f)) (files w !! path).

(** the test under which the sweep unlinks the directory entry [name] whose
    file is [f] *)
Definition swept (oneDayAgo : Z) (active : gset string) (name : string) (f : File) : bool :=
  negb (String.eqb name ".gitkeep")
  && ((mtimeMs f <? oneDayAgo) && negb (bool_decide (name ∈ active))).

(** row [r] is pending and its media_url, not beginning with "http", has
    the base name [name] *)
Definition keepsAlive (name : string) (r : Row) : Prop :=
  status r = pending
  /\ Js.truthy (media_url r) = true
  /\ Js.startsWith "http" (Js.orEmpty (media_url r)) = false
  /\ Js.basename (Js.orEmpty (media_url r)) = name.

(** the entries [checkBirthdays] picks at time [now]: those whose month and
    day, read in the zone of the process, are those of the next day in
    Colombo *)
Definition birthdaysTomorrow (E : Env) (now : Z) (bs : list Birthday) : list Birthday :=
  List.filter
    (fun b => Cal.sameMonthDay (Cal.monthDay (localOffset E) (b_birthday b))
                               (Cal.monthDay Cal.colombo (now + Cal.msPerDay)))
    bs.

(** the later world has the transport calls of the earlier one *)
Definition SameWire (w w' : World) : Prop := wire w' = wire w.

(** the later world has the transport calls of the earlier one and then
    some more, all made for [item] and addressed to its identifier *)
Definition CallsAdded (E : Env) (item : Row) (w w' : World) : Prop :=
  exists calls,
    wire w' = wire w ++ calls
    /\ Forall (fun c => for_item c = id item /\ to_jid c = jidOf E item) calls.

(** [n] worker runs one after the other *)
Fixpoint runs (E : Env) (n : nat) (w : World) : World :=
  match n with
  | O => w
  | S k => runs E k (snd (processQueue E w))
  end.

(** * More of the code: the rest of the schedule queries, the HTTP handler
    that fills the queue, and small helpers of [baileys.js] *)

Section MoreDatabase.
Variable E : Env.

(** [getSchedule]: every row, by send_at *)
Definition getSchedule : M (list Row) := fun w =>
  match supabase w with
  | None => (Ret [], w)
  | Some t =>
      match storeError E (tick w) with
      | Some _ => (Ret [], awaited w)
      | None => (Ret (orderBySendAt (schedule t)), awaited w)
      end
  end.

(** the row filter of [clearFinishedSchedule]:
    [.or('status.eq.sent,status.eq.failed')] *)
Definition isFinished (r : Row) : bool :=
  Status_eqb (status r) sent || Status_eqb (status r) failed.

(** [clearFinishedSchedule]: deletes the finished rows and returns how many
    the delete gave back ([data?.length || 0]) *)
Definition clearFinishedSchedule : M nat := fun w =>
  match supabase w with
  | None => (Ret O, w)
  | Some t =>
      match storeError E (tick w) with
      | Some _ => (Ret O, awaited w)
      | None =>
          (Ret (List.length (List.filter isFinished (schedule t))),
           awaited (set_supabase
                      (Some (mkTables
                               (List.filter (fun r => negb (isFinished r)) (schedule t))
                               (birthdays t))) w))
      end
  end.

End MoreDatabase.

(** ** server.js: [POST /api/schedule] *)

(** [s.split(sep)] for a separator of one character *)
Fixpoint splitChar (sep : ascii) (cur : string) (s : string) : list string :=
  match s with
  | EmptyString => [cur]
  | String c rest =>
      if Ascii.eqb c sep then cur :: splitChar sep "" rest
      else splitChar sep (cur +:+ String c "") rest
  end.

(** the parts of the request the handler reads: the form fields [recipients]
    and [caption], the field [sendAt] ([None] when absent or empty,
    [Some None] when [dayjs] cannot parse it, so that [toISOString] throws),
    and the uploaded file as multer stored it, by file name and MIME type *)
Record ScheduleRequest := mkScheduleRequest {
  q_recipients : option string;
  q_caption : option string;
  q_sendAt : option (option Z);
  q_file : option (string * string)
}.

(** what the handler answers: a 400 with an error text, the 500 of its catch
    block, or the success body with [batchId] and [created] *)
Inductive ScheduleResponse :=
  | BadRequest (error : string)
  | ServerError (error : string)
  | Scheduled (batchId : string) (created : nat).

Section ScheduleApi.
Variable E : Env.
(** [String.prototype.trim] *)
Variable trim : string -> string.

(** [recipients.split(",").map(r => r.trim()).filter(r => r)] *)
Definition recipientList (recipients : string) : list string :=
  List.filter (fun r => negb (String.eqb r ""))
    (List.map trim (splitChar "," "" recipients)).

(** the items the handler builds for one request *)
Definition requestItems (batch : string) (q : ScheduleRequest) (sendAtDate : Z)
    (recipients : list string) : list NewItem :=
  List.map
    (fun recipient =>
       mkNewItem batch recipient (Js.orNull (q_caption q))
                 (match q_file q with
                  | Some (filename, _) => Some ("/uploads/" +:+ filename)
                  | None => None
                  end)
                 (match q_file q with
                  | Some (_, mimetype) => Some mimetype
                  | None => None
                  end)
                 sendAtDate)
    recipients.

(** the handler; the second component is what it emits as
    ["queue:scheduled"], if it gets that far *)
Definition postSchedule (q : ScheduleRequest) : M (ScheduleResponse * option (list Row)) :=
  fun w =>
    if negb (Js.truthy (q_recipients q)) then
      (Ret (BadRequest "Recipients are required", None), w)
    else
      let recipients := recipientList (Js.orEmpty (q_recipients q)) in
      match recipients with
      | [] => (Ret (BadRequest "Invalid recipients list", None), w)
      | _ =>
          let batch := nanoidAt E (tick w) in
          match q_sendAt q with
          | Some None => (Ret (ServerError "Failed to schedule message", None), w)
          | parsed =>
              let sendAtDate :=
                match parsed with
                | Some (Some t) => t
                | _ => nowAt E (tick w) + 2000
                end in
              let '(r, w') :=
                addScheduleItems E (requestItems batch q sendAtDate recipients) w in
              match r with
              | Ret newRows =>
                  (Ret (Scheduled batch (List.length recipients), Some newRows), w')
              | Throw _ => (Ret (ServerError "Failed to schedule message", None), w')
              end
          end
      end.

End ScheduleApi.

(** ** baileys.js: uptime, the daily timer, the status cache *)

(** the three numbers of [getUptime], for an uptime in milliseconds;
    [Math.floor] of a quotient and the remainder [%] *)
Definition uptimeParts (uptime : Z) : Z * Z * Z :=
  (uptime / (1000 * 60 * 60 * 24),
   Z.rem uptime (1000 * 60 * 60 * 24) / (1000 * 60 * 60),
   Z.rem uptime (1000 * 60 * 60) / (1000 * 60)).

(** [getUptime], with the module variable [startTime] and [Date.now()] *)
Definition getUptime (startTime now : Z) : string :=
  if startTime =? 0 then "Unknown"
  else
    let '(days, hours, minutes) := uptimeParts (now - startTime) in
    pretty days +:+ "d " +:+ pretty hours +:+ "h " +:+ pretty minutes +:+ "m".

(** [.hour(h).minute(m).second(s)] on a wall clock of the zone with offset
    [off]: the day and the milliseconds are kept *)
Definition atTimeKeepMs (off h m s t : Z) : Z :=
  Cal.dayNumber off t * Cal.msPerDay + ((h * 60 + m) * 60 + s) * 1000
  + (t + off) mod 1000 - off.

(** [nextCheck] and [msUntilNextCheck] of [scheduleDailyBirthdayCheck] at
    time [now] *)
Definition nextCheck (now : Z) : Z :=
  let today := atTimeKeepMs Cal.colombo 23 55 0 now in
  if today <? now then today + Cal.msPerDay else today.

Definition msUntilNextCheck (now : Z) : Z := nextCheck now - now.

(** [while (statuses.length > 100) statuses.pop()]: one [pop] per element in
    excess *)
Definition popDownTo {A} (limit : nat) (l : list A) : list A :=
  Nat.iter (List.length l - limit) (@List.removelast A) l.

(** [statuses.unshift(item); while (statuses.length > 100) statuses.pop()] of
    the [messages.upsert] handler *)
Definition cacheStatus {A} (item : A) (statuses : list A) : list A :=
  popDownTo 100 (item :: statuses).

(** ** Observations on rows and runs *)

(** the columns of a row that [updateScheduleStatus] does not write *)
Definition frozenColumns (r : Row) :=
  (id r, batch_id r, recipient r, caption r, media_url r, media_type r,
   send_at r, retry_count r, created_at r).

(** the rows of [birthdays], none without a client *)
Definition birthdaysOf (w : World) : list Birthday :=
  match supabase w with Some t => birthdays t | None => [] end.

(** the later world has the rows of the earlier one in the same places, each
    with its frozen columns, and identical when its id is not in [touched];
    the birthdays are as before; the transport calls of the earlier world are
    followed by calls made for ids in [touched]; no file was created or
    changed, and what was emitted was added at the end *)
Definition Evolved (touched : string -> Prop) (w w' : World) : Prop :=
  Forall2 (fun r r' => frozenColumns r' = frozenColumns r
                       /\ (~ touched (id r) -> r' = r))
          (scheduleOf w) (scheduleOf w')
  /\ isSupabaseConfigured w' = isSupabaseConfigured w
  /\ birthdaysOf w' = birthdaysOf w
  /\ (exists calls, wire w' = wire w ++ calls
                    /\ Forall (fun c => touched (for_item c)) calls)
  /\ files w' ⊆ files w
  /\ (exists events, emitted w' = emitted w ++ events).

(** [i] is the id of a row that is due at the time of world [w] *)
Definition dueId (E : Env) (w : World) (i : string) : Prop :=
  exists r, In r (scheduleOf w) /\ isDue (nowAt E (tick w)) r = true /\ id r = i.

(** the world in which the worker dispatches a row it took up in world [w]:
    for local media, [access] and [readFile] have been awaited *)
Definition afterLoad (item : Row) (w : World) : World :=
  if Js.truthy (media_url item)
     && negb (Js.isHttpScheme (localOrHttp (Js.orEmpty (media_url item))))
  then awaited (awaited w) else w.

(** the payload the worker hands to the transport for a row it took up in
    world [w], if it gets that far: none for local media without a file and
    for a row with neither media nor caption *)
Definition dispatched (E : Env) (w : World) (item : Row) : option Payload :=
  if Js.truthy (media_url item) then
    option_map (mediaPayload E item) (mediaContent w item)
  else if Js.truthy (caption item) then Some (Text (Js.orEmpty (caption item)))
  else None.

(** the arguments [hasMedia] and [localOrHttp] of the lines after a dispatch *)
Definition mediaPath (item : Row) : string :=
  if Js.truthy (media_url item) then localOrHttp (Js.orEmpty (media_url item)) else "".

(** the later world has the rows of the earlier one followed by new rows,
    each pending, without media, error or sent_at, with a retry counter of 0
    and a recipient among [phones]; birthdays, transport and files are as
    before *)
Definition Appended (phones : list string) (w w' : World) : Prop :=
  (exists added,
      scheduleOf w' = scheduleOf w ++ added
      /\ Forall (fun r => status r = pending /\ error r = None /\ sent_at r = None
                          /\ retry_count r = 0 /\ media_url r = None
                          /\ media_type r = None /\ In (recipient r) phones) added)
  /\ isSupabaseConfigured w' = isSupabaseConfigured w
  /\ birthdaysOf w' = birthdaysOf w
  /\ wire w' = wire w
  /\ files w' = files w.

(** in the words of the specification: the decimal digits, and a recipient
    with every character that is not one of them stripped *)
Definition isDecimalDigit (c : ascii) : bool :=
  existsb (Ascii.eqb c) (list_ascii_of_string "0123456789").

Definition digitsOf (s : string) : string :=
  string_of_list_ascii (List.filter isDecimalDigit (list_ascii_of_string s)).

(** a pending item for [phone] with the word "birthday" in its caption, due
    on the Colombo day after day number [day]: what the duplicate test of
    [checkBirthdays] looks for *)
Definition wishPending (day : Z) (rows : list Row) (phone : string) : Prop :=
  exists r,
    In r rows /\ status r = pending /\ recipient r = phone
    /\ Js.includes "birthday" (Js.orEmpty (caption r)) = true
    /\ Cal.dayNumber Cal.colombo (send_at r) = day + 1.

(** [row] is the item the birthday check enqueues for entry [b] on Colombo
    day number [day], the text model being set or not ([ai]) *)
Definition birthdayItem (day : Z) (ai : bool) (b : Birthday) (row : Row) : Prop :=
  recipient row = b_phone b
  /\ status row = pending
  /\ Cal.dayNumber Cal.colombo (send_at row) = day + 1
  /\ 0 <= (send_at row + Cal.colombo) mod Cal.msPerDay < 1000
  /\ (Js.truthy (b_custom_message b) = true -> caption row = b_custom_message b)
  /\ (Js.truthy (b_custom_message b) = false -> ai = false ->
      Js.includes "birthday" (Js.orEmpty (caption row)) = true).

(** * Sample worlds *)

Module Sample.

(** an environment where the transport is up and accepts everything, the
    store answers, and the clock starts on 2023-11-14T22:13:20Z *)
Definition calm : Env :=
  mkEnv (fun _ => true) (fun _ _ _ => None) (fun _ => None)
        (fun t => 1700000000000 + Z.of_nat t)
        (fun jid => jid) (fun _ => None)
        (fun t k => "row-" +:+ pretty t +:+ "-" +:+ pretty k)
        (fun t => "batch-" +:+ pretty t)
        (fun _ _ _ => None) Cal.colombo.

(** the same, with a transport that rejects every call with a timeout *)
Definition timingOut : Env :=
  mkEnv (fun _ => true) (fun _ _ _ => Some "Request timeout") (fun _ => None)
        (fun t => 1700000000000 + Z.of_nat t)
        (fun jid => jid) (fun _ => None)
        (fun t k => "row-" +:+ pretty t +:+ "-" +:+ pretty k)
        (fun t => "batch-" +:+ pretty t)
        (fun _ _ _ => None) Cal.colombo.

(** the same, with a transport that times out until logical time 5 and
    accepts every call from then on *)
Definition flaky : Env :=
  mkEnv (fun _ => true)
        (fun t _ _ => if (t <? 5)%nat then Some "Request timeout" else None)
        (fun _ => None)
        (fun t => 1700000000000 + Z.of_nat t)
        (fun jid => jid) (fun _ => None)
        (fun t k => "row-" +:+ pretty t +:+ "-" +:+ pretty k)
        (fun t => "batch-" +:+ pretty t)
        (fun _ _ _ => None) Cal.colombo.

(** the calm environment with the clock stopped at 2023-11-15T03:43:20+05:30 *)
Definition frozen : Env :=
  mkEnv (fun _ => true) (fun _ _ _ => None) (fun _ => None)
        (fun _ => 1700000000000)
        (fun jid => jid) (fun _ => None)
        (fun t k => "row-" +:+ pretty t +:+ "-" +:+ pretty k)
        (fun t => "batch-" +:+ pretty t)
        (fun _ _ _ => None) Cal.colombo.

(** two birthday entries for 16 November (2000-11-16T00:00:00Z): one with a
    custom message that lacks the word "birthday", one without a custom
    message *)
Definition amal : Birthday :=
  mkBirthday "Amal" "94771111111" 974332800000 "male" "friend"
             (Some "Many happy returns!").
Definition nimal : Birthday :=
  mkBirthday "Nimal" "94772222222" 974332800000 "male" "friend" None.

Definition calendar (bs : list Birthday) : World :=
  mkWorld 0 false (Some (mkTables [] bs)) false ∅ [] [].

Definition textRow (i to text : string) (st : Status) (err : option string) : Row :=
  mkRow i None to (Some text) None None 1699999999000 st err 0 None 0.

Definition mediaRow (i to text url type : string) : Row :=
  mkRow i None to (Some text) (Some url) (Some type) 1699999999000 pending None 0 None 0.

Definition world (rows : list Row) (fs : gmap string File) : World :=
  mkWorld 0 false (Some (mkTables rows [])) false fs [] [].

(** the scenario row of the specification *)
Definition hi : Row := textRow "a" "94770000000@s.whatsapp.net" "hi" pending None.

(** a row that is due, one that is not yet, one already sent *)
Definition later : Row :=
  mkRow "b" None "94770000001" (Some "soon") None None 1800000000000 pending None 0 None 0.
Definition done_ : Row := textRow "c" "94770000002" "old" sent None.

(** a voice note with a caption, and the uploaded file it points to *)
Definition voice : Row :=
  mediaRow "v" "94770000000" "listen" "/uploads/note.ogg" "audio/ogg".
Definition voiceFiles : gmap string File :=
  <[ "/app/public/uploads/note.ogg" := mkFile 1699999990000 "OggS" ]> ∅.

(** a pending row with remote media, and an uploads directory that holds an
    old file of the same base name, an old file a pending row points to, an
    old orphan, a fresh orphan and the sentinel *)
Definition remote : Row :=
  mediaRow "r" "94770000000" "look" "https://cdn.example.com/a.jpg" "image/jpeg".
Definition local : Row :=
  mediaRow "l" "94770000000" "look" "/uploads/kept.jpg" "image/jpeg".
Definition uploads : gmap string File :=
  <[ "/app/public/uploads/a.jpg" := mkFile 1600000000000 "JFIF" ]>
  (<[ "/app/public/uploads/kept.jpg" := mkFile 1600000000000 "JFIF" ]>
  (<[ "/app/public/uploads/orphan.bin" := mkFile 1600000000000 "0000" ]>
  (<[ "/app/public/uploads/fresh.bin" := mkFile 1699999999000 "0000" ]>
  (<[ "/app/public/uploads/.gitkeep" := mkFile 1500000000000 "" ]> ∅)))).

End Sample.

(** * Properties *)

(** ** The status update and the due-item selector *)

Lemma applyUpdates_id st err sentAt r : id (applyUpdates st err sentAt r) = id r.
Proof. reflexivity. Qed.

Lemma applyUpdates_error_falsy st err sentAt r :
  Js.truthy err = false -> error (applyUpdates st err sentAt r) = error r.
Proof. intros H. unfold applyUpdates. simpl. now rewrite H. Qed.

Lemma updateWhereId_errors i st err sentAt rows :
  Js.truthy err = false ->
  map error (updateWhereId i st err sentAt rows) = map error rows.
Proof.
  intros H. unfold updateWhereId. induction rows as [|r rows IH]; simpl; [reflexivity|].
  rewrite IH. f_equal. destruct (String.eqb (id r) i); [|reflexivity].
  now apply applyUpdates_error_falsy.
Qed.

Lemma find_updateWhereId_same i st err sentAt rows :
  List.find (fun r => String.eqb (id r) i) (updateWhereId i st err sentAt rows)
  = option_map (applyUpdates st err sentAt)
      (List.find (fun r => String.eqb (id r) i) rows).
Proof.
  unfold updateWhereId. induction rows as [|r rows IH]; simpl; [reflexivity|].
  destruct (String.eqb (id r) i) eqn:Hi; simpl.
  - now rewrite Hi.
  - now rewrite Hi, IH.
Qed.

Lemma find_updateWhereId_other i j st err sentAt rows :
  i <> j ->
  List.find (fun r => String.eqb (id r) j) (updateWhereId i st err sentAt rows)
  = List.find (fun r => String.eqb (id r) j) rows.
Proof.
  intros Hne. unfold updateWhereId. induction rows as [|r rows IH]; simpl; [reflexivity|].
  destruct (String.eqb (id r) i) eqn:Hi; simpl.
  - apply String.eqb_eq in Hi. subst i.
    destruct (String.eqb (id r) j) eqn:Hj; [apply String.eqb_eq in Hj; contradiction|].
    exact IH.
  - destruct (String.eqb (id r) j); [reflexivity|exact IH].
Qed.

Lemma isDue_spec now r :
  isDue now r = true <-> status r = pending /\ send_at r <= now.
Proof.
  unfold isDue, isPending, Status_eqb.
  rewrite andb_true_iff, bool_decide_eq_true, Z.leb_le. reflexivity.
Qed.

(** C3. The due-item selector writes nothing (the world moves on by the
    awaited read at most: store, files, transport log, events and flag are as
    before) and returns only rows of the table with status pending and
    send_at <= now; when the store is configured and answers the read, it
    returns exactly those rows: every such row, in table order, and no
    other. *)
Theorem getDueScheduleItems_exact (E : Env) (w : World) :
  let now := nowAt E (tick w) in
  exists items w',
    getDueScheduleItems E w = (Ret items, w')
    /\ (supabase w' = supabase w
        /\ files w' = files w
        /\ wire w' = wire w
        /\ emitted w' = emitted w
        /\ sendingInProgress w' = sendingInProgress w)
    /\ (forall r, In r items ->
                  In r (scheduleOf w) /\ status r = pending /\ send_at r <= now)
    /\ (isSupabaseConfigured w = true ->
        storeError E (tick w) = None ->
        items = List.filter (isDue now) (scheduleOf w)
        /\ forall r, In r (scheduleOf w) -> status r = pending -> send_at r <= now ->
                     In r items).
Proof.
  intros now. unfold getDueScheduleItems, isSupabaseConfigured, scheduleOf.
  destruct (supabase w) as [t|] eqn:Ht.
  - destruct (storeError E (tick w)) as [m|] eqn:Hok.
    + exists [], (awaited w). split; [reflexivity|]. split; [simpl; auto|].
      split; [intros r []|]. intros _ Hnone. discriminate Hnone.
    + exists (List.filter (isDue now) (schedule t)), (awaited w).
      split; [reflexivity|]. split; [simpl; auto|]. split.
      * intros r Hr. apply filter_In in Hr. destruct Hr as [Hin Hdue].
        apply isDue_spec in Hdue. tauto.
      * intros _ _. split; [reflexivity|]. intros r Hin Hst Hle.
        apply filter_In. split; [exact Hin|]. now apply isDue_spec.
  - exists [], w. split; [reflexivity|]. split; [auto|].
    split; [intros r []|]. intros Hc. discriminate Hc.
Qed.

Lemma getDueScheduleItems_exact_witness :
  exists items,
    fst (getDueScheduleItems Sample.calm
           (Sample.world [Sample.hi; Sample.later; Sample.done_] ∅))
    = Ret items
    /\ In Sample.hi items /\ ~ In Sample.later items /\ ~ In Sample.done_ items.
Proof.
  destruct (getDueScheduleItems_exact Sample.calm
              (Sample.world [Sample.hi; Sample.later; Sample.done_] ∅))
    as (items & w' & Hrun & _ & Hsound & Hexact).
  destruct (Hexact eq_refl eq_refl) as [_ Hall].
  exists items. split; [now rewrite Hrun|]. split; [|split].
  - apply Hall; [left; reflexivity | reflexivity | vm_compute; discriminate].
  - intros Hin. apply Hsound in Hin. destruct Hin as (_ & _ & Hle).
    vm_compute in Hle. now apply Hle.
  - intros Hin. apply Hsound in Hin. destruct Hin as (_ & Hst & _). discriminate Hst.
Defined.

Lemma updateScheduleStatus_errors (E : Env) i st err sentAt w :
  Js.truthy err = false ->
  map error (scheduleOf (snd (updateScheduleStatus E i st err sentAt w)))
  = map error (scheduleOf w).
Proof.
  intros H. unfold updateScheduleStatus, scheduleOf.
  destruct (supabase w) as [t|] eqn:Ht; simpl; [|now rewrite Ht].
  destruct (storeError E (tick w)); simpl; [now rewrite Ht|].
  now apply updateWhereId_errors.
Qed.

Lemma updateScheduleStatus_row (E : Env) i st err sentAt w :
  isSupabaseConfigured w = true ->
  storeError E (tick w) = None ->
  rowById i (snd (updateScheduleStatus E i st err sentAt w))
  = option_map (applyUpdates st err sentAt) (rowById i w).
Proof.
  unfold isSupabaseConfigured, updateScheduleStatus, rowById, scheduleOf.
  destruct (supabase w) as [t|]; [|discriminate]. intros _ ->. simpl.
  apply find_updateWhereId_same.
Qed.

(** C10. The status update never clears the stored error: with a null (or
    empty) error argument every row keeps the error text it had, also the
    row that is updated, which takes the new status; and a worker run that
    marks a row sent leaves a stale error next to status sent. *)
Theorem updateScheduleStatus_keeps_error (E : Env) (w : World) (i : string)
    (st : Status) (err : option string) (sentAt : option Z) :
  Js.truthy err = false ->
  let w' := snd (updateScheduleStatus E i st err sentAt w) in
  map error (scheduleOf w') = map error (scheduleOf w)
  /\ (isSupabaseConfigured w = true -> storeError E (tick w) = None ->
      forall r, rowById i w = Some r ->
        exists r', rowById i w' = Some r' /\ status r' = st /\ error r' = error r)
  /\ (exists r'',
        rowById "a"
          (snd (processQueue Sample.calm
                  (Sample.world
                     [Sample.textRow "a" "94770000000" "hi" pending
                        (Some "Retry 1/3: Request timeout")] ∅)))
        = Some r''
        /\ status r'' = sent
        /\ error r'' = Some "Retry 1/3: Request timeout").
Proof.
  intros H w'. split; [|split].
  - now apply updateScheduleStatus_errors.
  - intros Hc Hok r Hr. exists (applyUpdates st err sentAt r).
    subst w'. rewrite updateScheduleStatus_row, Hr by assumption.
    split; [reflexivity|]. split; [reflexivity|].
    now apply applyUpdates_error_falsy.
  - eexists. split; [vm_compute; reflexivity|]. split; reflexivity.
Qed.

Lemma updateScheduleStatus_keeps_error_witness :
  map error
    (scheduleOf
       (snd (updateScheduleStatus Sample.calm "a" sent None (Some 1700000000000)
               (Sample.world [Sample.textRow "a" "94770000000" "hi" failed (Some "boom")] ∅))))
  = [Some "boom"].
Proof.
  exact (proj1 (updateScheduleStatus_keeps_error Sample.calm
                  (Sample.world [Sample.textRow "a" "94770000000" "hi" failed (Some "boom")] ∅)
                  "a" sent None (Some 1700000000000) eq_refl)).
Defined.

(** ** Frame reasoning: what a computation leaves alone

    [R] relates a world to a later one; a computation preserves [R] when its
    final world is always related to its initial one, whether it returns or
    throws. *)

Section Frames.
Variable R : World -> World -> Prop.
Hypothesis R_refl : forall w, R w w.
Hypothesis R_trans : forall a b c, R a b -> R b c -> R a c.

Definition Preserves {A} (c : M A) : Prop := forall w, R w (snd (c w)).

Lemma Preserves_ret {A} (a : A) : Preserves (ret a).
Proof. intros w. apply R_refl. Qed.

Lemma Preserves_throw {A} m : Preserves (@throw A m).
Proof. intros w. apply R_refl. Qed.

Lemma Preserves_bind {A B} (c : M A) (k : A -> M B) :
  Preserves c -> (forall a, Preserves (k a)) -> Preserves (bind c k).
Proof.
  intros Hc Hk w. unfold bind. specialize (Hc w).
  destruct (c w) as [[a|m] w1]; simpl in *; [|exact Hc].
  eapply R_trans; [exact Hc | apply Hk].
Qed.

Lemma Preserves_tryCatch {A} (c : M A) (h : string -> M A) :
  Preserves c -> (forall m, Preserves (h m)) -> Preserves (tryCatch c h).
Proof.
  intros Hc Hh w. unfold tryCatch. specialize (Hc w).
  destruct (c w) as [[a|m] w1]; simpl in *; [exact Hc|].
  eapply R_trans; [exact Hc | apply Hh].
Qed.

Lemma Preserves_if {A} (b : bool) (c d : M A) :
  Preserves c -> Preserves d -> Preserves (if b then c else d).
Proof. destruct b; auto. Qed.

(** the effects of the operations the worker is made of *)
Hypothesis R_awaited : forall w, R w (awaited w).
Hypothesis R_files : forall w p, R w (set_files (delete p (files w)) w).
Hypothesis R_emitted : forall w e, R w (set_emitted (emitted w ++ [e]) w).

Variable E : Env.

Lemma Preserves_emit e : Preserves (emit e).
Proof. intros w. apply R_emitted. Qed.

Lemma Preserves_newDate : Preserves (newDate E).
Proof. intros w. apply R_refl. Qed.

Lemma Preserves_delay : Preserves delay.
Proof. intros w. apply R_awaited. Qed.

Lemma Preserves_access p : Preserves (access p).
Proof. intros w. unfold access. destruct (files w !! p); apply R_awaited. Qed.

Lemma Preserves_readFile p : Preserves (readFile p).
Proof. intros w. unfold readFile. destruct (files w !! p); apply R_awaited. Qed.

Lemma Preserves_stat p : Preserves (stat p).
Proof. intros w. unfold stat. destruct (files w !! p); apply R_awaited. Qed.

Lemma Preserves_unlink p : Preserves (unlink p).
Proof.
  intros w. unfold unlink. destruct (files w !! p); simpl; [|apply R_awaited].
  eapply R_trans; [apply R_files | apply R_awaited].
Qed.

Lemma Preserves_getDueScheduleItems : Preserves (getDueScheduleItems E).
Proof.
  intros w. unfold getDueScheduleItems.
  destruct (supabase w); [|apply R_refl].
  destruct (storeError E (tick w)); apply R_awaited.
Qed.

Lemma Preserves_getPendingSchedule : Preserves (getPendingSchedule E).
Proof.
  intros w. unfold getPendingSchedule.
  destruct (supabase w); [|apply R_refl].
  destruct (storeError E (tick w)); apply R_awaited.
Qed.

(** the two effects that are tied to the row being processed *)
Variable item : Row.
Variable sendsTo : string -> Prop.
Hypothesis R_wire : forall w jid p,
  sendsTo jid -> R w (set_wire (wire w ++ [mkSendCall (id item) jid p]) w).
Hypothesis R_update : forall w t st err sentAt,
  supabase w = Some t ->
  R w (set_supabase
         (Some (mkTables (updateWhereId (id item) st err sentAt (schedule t))
                         (birthdays t))) w).

Lemma Preserves_sendMessage jid p :
  sendsTo jid -> Preserves (sendMessage E (id item) jid p).
Proof.
  intros Hjid w. unfold sendMessage.
  assert (R w (awaited (set_wire (wire w ++ [mkSendCall (id item) jid p]) w)))
    by (eapply R_trans; [apply R_wire; exact Hjid | apply R_awaited]).
  destruct (sendOutcome E (tick w) jid p); assumption.
Qed.

Lemma Preserves_updateScheduleStatus st err sentAt :
  Preserves (updateScheduleStatus E (id item) st err sentAt).
Proof.
  intros w. unfold updateScheduleStatus.
  destruct (supabase w) as [t|] eqn:Ht; [|apply R_refl].
  destruct (storeError E (tick w)); simpl; [apply R_awaited|].
  eapply R_trans; [apply R_update; exact Ht | apply R_awaited].
Qed.

Lemma Preserves_failed_ stored shown : Preserves (failed_ E item stored shown).
Proof.
  unfold failed_.
  repeat first [ apply Preserves_bind; [|intros ?]
               | apply Preserves_updateScheduleStatus
               | apply Preserves_emit
               | apply Preserves_ret ].
Qed.

Lemma Preserves_afterSend total n hasMedia path :
  Preserves (afterSend E total n item hasMedia path).
Proof.
  unfold afterSend.
  repeat first [ apply Preserves_bind; [|intros ?]
               | apply Preserves_if
               | apply Preserves_tryCatch; [|intros ?]
               | apply Preserves_updateScheduleStatus
               | apply Preserves_newDate
               | apply Preserves_unlink
               | apply Preserves_delay
               | apply Preserves_emit
               | apply Preserves_ret ].
Qed.

Lemma Preserves_sendMedia total n jid :
  sendsTo jid -> Preserves (sendMedia E total n item jid).
Proof.
  intros Hjid. unfold sendMedia.
  apply Preserves_bind.
  - apply Preserves_if; [apply Preserves_ret|].
    apply Preserves_tryCatch; [|intros ?; apply Preserves_ret].
    apply Preserves_bind; [apply Preserves_access|intros _].
    apply Preserves_bind; [apply Preserves_readFile|intros ?; apply Preserves_ret].
  - intros [content|]; [|apply Preserves_failed_].
    apply Preserves_bind; [apply Preserves_sendMessage; exact Hjid|intros _].
    apply Preserves_afterSend.
Qed.

Lemma Preserves_deliver total n jid :
  sendsTo jid -> Preserves (deliver E total n item jid).
Proof.
  intros Hjid. unfold deliver.
  apply Preserves_if; [apply Preserves_sendMedia; exact Hjid|].
  apply Preserves_if; [|apply Preserves_failed_].
  apply Preserves_bind; [apply Preserves_sendMessage; exact Hjid|intros _].
  apply Preserves_afterSend.
Qed.

Lemma Preserves_attempt total n :
  sendsTo (jidOf E item) -> Preserves (attempt E total n item).
Proof.
  intros Hjid w. unfold attempt. unfold jidOf, isGroup, phoneOf in Hjid.
  destruct (negb (connectedAt E (tick w))); [apply R_refl|].
  destruct (Js.includes "@g.us" (recipient item));
    [apply Preserves_deliver; exact Hjid|].
  destruct (String.length _ <? 10)%nat;
    [apply Preserves_failed_ | apply Preserves_deliver; exact Hjid].
Qed.

Lemma Preserves_onSendFailure m : Preserves (onSendFailure E item m).
Proof.
  unfold onSendFailure.
  apply Preserves_if.
  - apply Preserves_bind; [apply Preserves_throw|intros r].
    apply Preserves_if;
      repeat first [ apply Preserves_bind; [|intros ?]
                   | apply Preserves_updateScheduleStatus
                   | apply Preserves_emit
                   | apply Preserves_ret ].
  - repeat first [ apply Preserves_bind; [|intros ?]
                 | apply Preserves_updateScheduleStatus
                 | apply Preserves_emit
                 | apply Preserves_ret ].
Qed.

Lemma Preserves_iteration total n :
  sendsTo (jidOf E item) -> Preserves (iteration E total n item).
Proof.
  intros Hjid. apply Preserves_tryCatch; [apply Preserves_attempt; exact Hjid|].
  intros m. apply Preserves_onSendFailure.
Qed.

End Frames.

(** ** The loop: frames and splitting *)

Section LoopFrames.
Variable R : World -> World -> Prop.
Hypothesis R_refl : forall w, R w w.
Hypothesis R_trans : forall a b c, R a b -> R b c -> R a c.
Hypothesis R_awaited : forall w, R w (awaited w).
Hypothesis R_files : forall w p, R w (set_files (delete p (files w)) w).
Hypothesis R_emitted : forall w e, R w (set_emitted (emitted w ++ [e]) w).
Variable E : Env.
Variable touched : string -> Prop.
Hypothesis R_wire : forall i w jid p,
  touched i -> R w (set_wire (wire w ++ [mkSendCall i jid p]) w).
Hypothesis R_update : forall i w t st err sentAt,
  touched i -> supabase w = Some t ->
  R w (set_supabase
         (Some (mkTables (updateWhereId i st err sentAt (schedule t)) (birthdays t))) w).

Lemma touched_iteration item total n :
  touched (id item) -> Preserves R (iteration E total n item).
Proof.
  intros Hi. apply Preserves_iteration with (sendsTo := fun _ => True); auto.
Qed.

Lemma touched_forOf items : forall total n,
  Forall (fun item => touched (id item)) items ->
  Preserves R (forOf E total n items).
Proof.
  induction items as [|item rest IH]; intros total n Hall w; simpl.
  - apply R_refl.
  - inversion Hall as [|? ? Hitem Hrest]; subst.
    pose proof (touched_iteration item total (S n) Hitem w) as Hstep.
    destruct (iteration E total (S n) item w) as [[[|]|m] w1]; simpl in *; try exact Hstep.
    eapply R_trans; [exact Hstep | apply IH; exact Hrest].
Qed.

End LoopFrames.

Lemma Held_refl w : Held w w.
Proof. split; reflexivity. Qed.

Lemma Held_trans a b c : Held a b -> Held b c -> Held a c.
Proof. intros [H1 H2] [H3 H4]. split; congruence. Qed.

Lemma Untouched_refl i w : Untouched i w w.
Proof. split; reflexivity. Qed.

Lemma Untouched_trans i a b c : Untouched i a b -> Untouched i b c -> Untouched i a c.
Proof. intros [H1 H2] [H3 H4]. split; congruence. Qed.

Lemma Held_forOf E items total n : Preserves Held (forOf E total n items).
Proof.
  apply touched_forOf with (touched := fun _ => True);
    try (intros; split; reflexivity).
  - exact Held_trans.
  - intros i w t st err sentAt _ Ht. split; [reflexivity|].
    unfold isSupabaseConfigured. simpl. now rewrite Ht.
  - apply Forall_forall. auto.
Qed.

Lemma Held_iteration E item total n : Preserves Held (iteration E total n item).
Proof.
  apply touched_iteration with (touched := fun _ => True);
    try (intros; split; reflexivity); auto.
  - exact Held_trans.
  - intros i w t st err sentAt _ Ht. split; [reflexivity|].
    unfold isSupabaseConfigured. simpl. now rewrite Ht.
Qed.

Lemma callsFor_other i j w jid p :
  j <> i ->
  callsFor i (set_wire (wire w ++ [mkSendCall j jid p]) w) = callsFor i w.
Proof.
  intros Hne. unfold callsFor. simpl. rewrite List.filter_app. simpl.
  destruct (String.eqb j i) eqn:Hji; [apply String.eqb_eq in Hji; contradiction|].
  apply app_nil_r.
Qed.

Lemma rowById_other i j w t st err sentAt :
  j <> i -> supabase w = Some t ->
  rowById i (set_supabase
               (Some (mkTables (updateWhereId j st err sentAt (schedule t)) (birthdays t))) w)
  = rowById i w.
Proof.
  intros Hne Ht. unfold rowById, scheduleOf. simpl. rewrite Ht.
  now apply find_updateWhereId_other.
Qed.

Lemma Untouched_forOf E i items total n :
  Forall (fun item => id item <> i) items ->
  Preserves (Untouched i) (forOf E total n items).
Proof.
  apply touched_forOf with (touched := fun j => j <> i);
    try (intros; split; reflexivity).
  - exact (Untouched_trans i).
  - intros j w jid p Hne. split; [reflexivity|]. now apply callsFor_other.
  - intros j w t st err sentAt Hne Ht. split; [|reflexivity]. now apply rowById_other.
Qed.

(** the loop over [pre ++ post] is the loop over [pre], then, if that ran to
    its end, the loop over [post] *)
Lemma forOf_app E total pre : forall post n w,
  forOf E total n (pre ++ post) w
  = match forOf E total n pre w with
    | (Ret Next, w1) => forOf E total (n + List.length pre) post w1
    | other => other
    end.
Proof.
  induction pre as [|item pre IH]; intros post n w; simpl.
  - now rewrite Nat.add_0_r.
  - destruct (iteration E total (S n) item w) as [[[|]|m] w1]; try reflexivity.
    rewrite IH. now rewrite Nat.add_succ_r.
Qed.

(** ** Invocations during a run

    [P] holds of the worlds in which what else runs, [others], changes
    nothing; where the worker keeps [P], the worker among [others] is the
    worker alone. *)

Section Quiet.
Variable E : Env.
Variable others : M unit.
Variable P : World -> Prop.
Hypothesis others_quiet : forall w, P w -> snd (others w) = w.
Hypothesis P_awaited : forall w, P w -> P (awaited w).
Hypothesis P_files : forall w fs, P w -> P (set_files fs w).
Hypothesis P_emitted : forall w l, P w -> P (set_emitted l w).
Hypothesis P_wire : forall w l, P w -> P (set_wire l w).
Hypothesis P_supabase : forall w t, P w -> P (set_supabase t w).

Definition Keeps {A} (c : M A) : Prop := forall w, P w -> P (snd (c w)).

Definition Agree {A} (c' c : M A) : Prop :=
  forall w, P w -> c' w = c w /\ P (snd (c w)).

Lemma Agree_same {A} (c : M A) : Keeps c -> Agree c c.
Proof. intros Hc w Hw. split; [reflexivity | now apply Hc]. Qed.

Lemma Agree_await {A} (op : M A) : Keeps op -> Agree (Reentrant.await others op) op.
Proof.
  intros Hop w Hw. specialize (Hop w Hw). unfold Reentrant.await.
  destruct (op w) as [r w1]. simpl in *. now rewrite others_quiet.
Qed.

Lemma Agree_ret {A} (a : A) : Agree (ret a) (ret a).
Proof. intros w Hw. split; [reflexivity | exact Hw]. Qed.

Lemma Agree_bind {A B} (c' c : M A) (k' k : A -> M B) :
  Agree c' c -> (forall a, Agree (k' a) (k a)) -> Agree (bind c' k') (bind c k).
Proof.
  intros Hc Hk w Hw. destruct (Hc w Hw) as [Heq Hp]. unfold bind. rewrite Heq.
  destruct (c w) as [[a|m] w1]; simpl in *; [now apply Hk | now split].
Qed.

Lemma Agree_tryCatch {A} (c' c : M A) (h' h : string -> M A) :
  Agree c' c -> (forall m, Agree (h' m) (h m)) -> Agree (tryCatch c' h') (tryCatch c h).
Proof.
  intros Hc Hh w Hw. destruct (Hc w Hw) as [Heq Hp]. unfold tryCatch. rewrite Heq.
  destruct (c w) as [[a|m] w1]; simpl in *; [now split | now apply Hh].
Qed.

Lemma Agree_if {A} (b : bool) (c' c d' d : M A) :
  Agree c' c -> Agree d' d -> Agree (if b then c' else d') (if b then c else d).
Proof. destruct b; auto. Qed.

Lemma Keeps_emit e : Keeps (emit e).
Proof. intros w Hw. now apply P_emitted. Qed.

Lemma Keeps_updateScheduleStatus i st err sentAt :
  Keeps (updateScheduleStatus E i st err sentAt).
Proof.
  intros w Hw. unfold updateScheduleStatus.
  destruct (supabase w); [|exact Hw].
  destruct (storeError E (tick w)); simpl; [now apply P_awaited|].
  now apply P_awaited, P_supabase.
Qed.

Lemma Keeps_read (q : M (list Row)) :
  q = getDueScheduleItems E \/ q = getPendingSchedule E -> Keeps q.
Proof.
  intros [-> | ->] w Hw; [unfold getDueScheduleItems | unfold getPendingSchedule];
    (destruct (supabase w); [|exact Hw]);
    destruct (storeError E (tick w)); now apply P_awaited.
Qed.

Lemma Keeps_sendMessage i jid p : Keeps (sendMessage E i jid p).
Proof.
  intros w Hw. unfold sendMessage.
  assert (P (awaited (set_wire (wire w ++ [mkSendCall i jid p]) w)))
    by now apply P_awaited, P_wire.
  destruct (sendOutcome E (tick w) jid p); assumption.
Qed.

Lemma Keeps_access path : Keeps (access path).
Proof. intros w Hw. unfold access. destruct (files w !! path); now apply P_awaited. Qed.

Lemma Keeps_readFile path : Keeps (readFile path).
Proof. intros w Hw. unfold readFile. destruct (files w !! path); now apply P_awaited. Qed.

Lemma Keeps_unlink path : Keeps (unlink path).
Proof.
  intros w Hw. unfold unlink. destruct (files w !! path); simpl; [|now apply P_awaited].
  now apply P_awaited, P_files.
Qed.

Lemma Keeps_delay : Keeps delay.
Proof. intros w Hw. now apply P_awaited. Qed.

Ltac agree :=
  repeat first
    [ apply Agree_bind; [|intros ?]
    | apply Agree_tryCatch; [|intros ?]
    | apply Agree_if
    | apply Agree_ret
    | apply Agree_await
    | apply Keeps_updateScheduleStatus
    | apply Keeps_sendMessage
    | apply Keeps_access
    | apply Keeps_readFile
    | apply Keeps_unlink
    | apply Keeps_delay
    | apply Agree_same; first [ apply Keeps_emit | intros w0 Hw0; exact Hw0 ] ].

Lemma Agree_failed_ item stored shown :
  Agree (Reentrant.failed_ E others item stored shown) (failed_ E item stored shown).
Proof. unfold Reentrant.failed_, failed_. agree. Qed.

Lemma Agree_afterSend total n item hasMedia path :
  Agree (Reentrant.afterSend E others total n item hasMedia path)
        (afterSend E total n item hasMedia path).
Proof. unfold Reentrant.afterSend, afterSend. agree. Qed.

Lemma Agree_sendMedia total n item jid :
  Agree (Reentrant.sendMedia E others total n item jid) (sendMedia E total n item jid).
Proof.
  unfold Reentrant.sendMedia, sendMedia.
  apply Agree_bind; [agree|].
  intros [content|]; [|apply Agree_failed_].
  apply Agree_bind; [agree | intros _; apply Agree_afterSend].
Qed.

Lemma Agree_deliver total n item jid :
  Agree (Reentrant.deliver E others total n item jid) (deliver E total n item jid).
Proof.
  unfold Reentrant.deliver, deliver.
  apply Agree_if; [apply Agree_sendMedia|].
  apply Agree_if; [|apply Agree_failed_].
  apply Agree_bind; [agree | intros _; apply Agree_afterSend].
Qed.

Lemma Agree_attempt total n item :
  Agree (Reentrant.attempt E others total n item) (attempt E total n item).
Proof.
  intros w Hw. unfold Reentrant.attempt, attempt.
  destruct (negb (connectedAt E (tick w))); [now split|].
  destruct (Js.includes "@g.us" (recipient item)); [now apply Agree_deliver|].
  destruct (String.length _ <? 10)%nat; [now apply Agree_failed_ | now apply Agree_deliver].
Qed.

Lemma Agree_onSendFailure item m :
  Agree (Reentrant.onSendFailure E others item m) (onSendFailure E item m).
Proof.
  unfold Reentrant.onSendFailure, onSendFailure.
  apply Agree_if; [|agree].
  apply Agree_bind; [apply Agree_same; intros w Hw; exact Hw|].
  intros r. apply Agree_if; agree.
Qed.

Lemma Agree_iteration total n item :
  Agree (Reentrant.iteration E others total n item) (iteration E total n item).
Proof.
  apply Agree_tryCatch; [apply Agree_attempt | intros m; apply Agree_onSendFailure].
Qed.

Lemma Agree_forOf items : forall total n,
  Agree (Reentrant.forOf E others total n items) (forOf E total n items).
Proof.
  induction items as [|item rest IH]; intros total n w Hw; simpl; [now split|].
  destruct (Agree_iteration total (S n) item w Hw) as [Heq Hp]. rewrite Heq.
  destruct (iteration E total (S n) item w) as [[[|]|m] w1]; simpl in *;
    [now apply IH | now split | now split].
Qed.

Lemma Agree_drain : Agree (Reentrant.drain E others) (drain E).
Proof.
  unfold Reentrant.drain, drain.
  apply Agree_bind; [apply Agree_await, Keeps_read; now left|].
  intros [|item rest]; [apply Agree_ret|].
  apply Agree_bind; [apply Agree_forOf | intros _].
  apply Agree_bind; [apply Agree_await, Keeps_read; now right|].
  intros allPending. apply Agree_same, Keeps_emit.
Qed.

(** the flag is raised before the first [await]: with [P] holding of the
    world in which the flag has just been raised, the run among [others] is
    the guards and the loop of the worker alone *)
Lemma processQueue_among_others :
  (forall w, P (set_sendingInProgress true w)) ->
  forall w,
    Reentrant.processQueue E others w
    = (if negb (connectedAt E (tick w)) then (Ret tt, w)
       else if sendingInProgress w then (Ret tt, w)
       else if negb (isSupabaseConfigured w) then (Ret tt, w)
       else tryFinally (tryCatch (drain E) (fun _ => ret tt))
                       (set_sendingInProgress false)
                       (set_sendingInProgress true w)).
Proof.
  intros Hraised w. unfold Reentrant.processQueue.
  destruct (negb (connectedAt E (tick w))); [reflexivity|].
  destruct (sendingInProgress w); [reflexivity|].
  destruct (negb (isSupabaseConfigured w)); [reflexivity|].
  unfold tryFinally, tryCatch.
  destruct (Agree_drain (set_sendingInProgress true w) (Hraised w)) as [Heq _].
  now rewrite Heq.
Qed.

End Quiet.

(** the run alone: guards, the flag, the loop of [drain], the finally block *)
Lemma processQueue_alone E w :
  processQueue E w
  = (if negb (connectedAt E (tick w)) then (Ret tt, w)
     else if sendingInProgress w then (Ret tt, w)
     else if negb (isSupabaseConfigured w) then (Ret tt, w)
     else tryFinally (tryCatch (drain E) (fun _ => ret tt))
                     (set_sendingInProgress false)
                     (set_sendingInProgress true w)).
Proof.
  unfold processQueue.
  apply (processQueue_among_others E (ret tt) (fun _ => True)); auto.
Qed.

(** ** A run that gets to an item *)

Lemma find_by_unique_id (rows : list Row) (r : Row) :
  NoDup (map id rows) -> In r rows ->
  List.find (fun x => String.eqb (id x) (id r)) rows = Some r.
Proof.
  induction rows as [|x rows IH]; simpl; intros Hnd Hin; [contradiction|].
  apply NoDup_cons in Hnd. destruct Hnd as [Hnotin Hnd'].
  destruct Hin as [->|Hin].
  - now rewrite String.eqb_refl.
  - destruct (String.eqb (id x) (id r)) eqn:Hx; [|now apply IH].
    apply String.eqb_eq in Hx. exfalso. apply Hnotin. rewrite Hx.
    apply list_elem_of_In. now apply in_map.
Qed.

Lemma NoDup_map_filter {A B} (f : A -> B) (p : A -> bool) (l : list A) :
  NoDup (map f l) -> NoDup (map f (List.filter p l)).
Proof.
  induction l as [|x l IH]; simpl; intros Hnd; [constructor|].
  apply NoDup_cons in Hnd. destruct Hnd as [Hnotin Hnd'].
  destruct (p x); simpl; [|now apply IH].
  apply NoDup_cons. split; [|now apply IH].
  intros Hin. apply Hnotin. apply list_elem_of_In in Hin. apply list_elem_of_In.
  apply in_map_iff in Hin. destruct Hin as (y & Hy & Hin).
  apply in_map_iff. exists y. split; [exact Hy|]. apply filter_In in Hin. tauto.
Qed.

Lemma NoDup_map_split {A B} (f : A -> B) (pre post : list A) (x : A) :
  NoDup (map f (pre ++ x :: post)) ->
  Forall (fun y => f y <> f x) pre /\ Forall (fun y => f y <> f x) post.
Proof.
  rewrite map_app. simpl. intros Hnd.
  apply NoDup_app in Hnd. destruct Hnd as (_ & Hpre & Hpost).
  apply NoDup_cons in Hpost. destruct Hpost as [Hpost _].
  split; apply Forall_forall; intros y Hy Heq.
  - apply (Hpre (f x)).
    + rewrite <- Heq. apply list_elem_of_In. apply in_map. now apply list_elem_of_In.
    + left.
  - apply Hpost. rewrite <- Heq. apply list_elem_of_In. apply in_map.
    now apply list_elem_of_In.
Qed.

Lemma Untouched_set_sendingInProgress i b w : Untouched i w (set_sendingInProgress b w).
Proof. split; reflexivity. Qed.

Lemma Untouched_awaited i w : Untouched i w (awaited w).
Proof. split; reflexivity. Qed.

Lemma Untouched_getPendingSchedule E i : Preserves (Untouched i) (getPendingSchedule E).
Proof.
  apply Preserves_getPendingSchedule; [apply Untouched_refl | apply Untouched_awaited].
Qed.

Lemma Untouched_emit i e : Preserves (Untouched i) (emit e).
Proof. intros w. split; reflexivity. Qed.

(** what the worker does after the loop leaves row [i] alone *)
Lemma Untouched_epilogue E i :
  Preserves (Untouched i)
    (bind (getPendingSchedule E) (fun allPending => emit (QueueUpdate (List.length allPending)))).
Proof.
  apply Preserves_bind.
  - exact (Untouched_trans i).
  - apply Untouched_getPendingSchedule.
  - intros a. apply Untouched_emit.
Qed.

Section Reaching.
Variable E : Env.
Variables (w wk : World) (item : Row) (total n : nat).
Hypothesis Hreach : reaches E w item total n wk.

Lemma reaches_row : rowById (id item) wk = Some item.
Proof.
  destruct Hreach as (t & pre & post & _ & _ & Ht & _ & Hnd & Hdue & _ & _ & Hpre & _).
  pose proof (NoDup_map_filter id (isDue (nowAt E (tick w))) _ Hnd) as Hnd'.
  rewrite Hdue in Hnd'. apply NoDup_map_split in Hnd'. destruct Hnd' as [Hne _].
  pose proof (Untouched_forOf E (id item) pre total 0 Hne
                (awaited (set_sendingInProgress true w))) as [Hrow _].
  rewrite Hpre in Hrow. simpl in Hrow. rewrite Hrow.
  unfold rowById, scheduleOf. simpl. rewrite Ht.
  apply find_by_unique_id; [exact Hnd|].
  assert (Hin : In item (List.filter (isDue (nowAt E (tick w))) (schedule t)))
    by (rewrite Hdue; apply in_or_app; right; left; reflexivity).
  apply filter_In in Hin. tauto.
Qed.

Lemma reaches_calls : callsFor (id item) wk = callsFor (id item) w.
Proof.
  destruct Hreach as (t & pre & post & _ & _ & Ht & _ & Hnd & Hdue & _ & _ & Hpre & _).
  pose proof (NoDup_map_filter id (isDue (nowAt E (tick w))) _ Hnd) as Hnd'.
  rewrite Hdue in Hnd'. apply NoDup_map_split in Hnd'. destruct Hnd' as [Hne _].
  pose proof (Untouched_forOf E (id item) pre total 0 Hne
                (awaited (set_sendingInProgress true w))) as [_ Hcalls].
  rewrite Hpre in Hcalls. exact Hcalls.
Qed.

Lemma reaches_configured : isSupabaseConfigured wk = true.
Proof.
  destruct Hreach as (t & pre & post & _ & _ & Ht & _ & _ & _ & _ & _ & Hpre & _).
  pose proof (Held_forOf E pre total 0 (awaited (set_sendingInProgress true w))) as [_ Hc].
  rewrite Hpre in Hc. simpl in Hc. rewrite Hc.
  unfold isSupabaseConfigured. simpl. now rewrite Ht.
Qed.

Lemma reaches_connected : connectedAt E (tick wk) = true.
Proof.
  destruct Hreach as (t & pre & post & _ & _ & _ & _ & _ & _ & _ & _ & _ & Hc). exact Hc.
Qed.

(** after the iteration on [item], nothing in the run touches its row or
    adds a transport call for it: the final world shows what the iteration
    left *)
Lemma run_after_item_ex :
  exists wf,
    processQueue E w = (Ret tt, wf)
    /\ Untouched (id item) (snd (iteration E total n item wk)) wf
    /\ sendingInProgress wf = false.
Proof.
  destruct Hreach as (t & pre & post & Hconn & Hidle & Ht & Hok & Hnd & Hdue & Htot & Hn & Hpre & _).
  pose proof (NoDup_map_filter id (isDue (nowAt E (tick w))) _ Hnd) as Hnd'.
  rewrite Hdue in Hnd'. apply NoDup_map_split in Hnd'. destruct Hnd' as [_ Hpost].
  rewrite processQueue_alone. rewrite Hconn, Hidle. unfold isSupabaseConfigured. rewrite Ht. simpl.
  unfold tryFinally, tryCatch, drain, bind at 1.
  unfold getDueScheduleItems at 1. simpl. rewrite Ht, Hok, Hdue.
  assert (Hcons : exists x l, pre ++ item :: post = x :: l)
    by (destruct pre; simpl; eauto).
  destruct Hcons as (x & l & Hcons). rewrite Hcons. rewrite <- Hcons. clear x l Hcons.
  unfold bind at 1. rewrite <- Htot. rewrite forOf_app, Hpre. simpl forOf.
  rewrite <- Hn.
  pose proof (Untouched_forOf E (id item) post total n Hpost) as Hloop.
  pose proof (Untouched_epilogue E (id item)) as Hepi.
  destruct (iteration E total n item wk) as [[[|]|m] w1]; simpl.
  - specialize (Hloop w1).
    destruct (forOf E total n post w1) as [[c|m] w2]; simpl in *.
    + specialize (Hepi w2). unfold bind in Hepi |- *.
      destruct (getPendingSchedule E w2) as [[a|m] w3]; simpl in *;
        (eexists; split; [reflexivity|]; split; [|reflexivity];
         eapply Untouched_trans; [exact Hloop|];
         eapply Untouched_trans; [exact Hepi|]; apply Untouched_set_sendingInProgress).
    + eexists; split; [reflexivity|]. split; [|reflexivity].
      eapply Untouched_trans; [exact Hloop|]. apply Untouched_set_sendingInProgress.
  - specialize (Hepi w1). unfold bind in Hepi |- *.
    destruct (getPendingSchedule E w1) as [[a|m] w3]; simpl in *;
      (eexists; split; [reflexivity|]; split; [|reflexivity];
       eapply Untouched_trans; [exact Hepi|]; apply Untouched_set_sendingInProgress).
  - eexists; split; [reflexivity|]. split; [|reflexivity].
    apply Untouched_set_sendingInProgress.
Qed.

Lemma run_after_item :
  processQueue E w = (Ret tt, snd (processQueue E w))
  /\ Untouched (id item) (snd (iteration E total n item wk)) (snd (processQueue E w))
  /\ sendingInProgress (snd (processQueue E w)) = false.
Proof.
  destruct run_after_item_ex as (wf & Hrun & Hun & Hflag).
  rewrite Hrun. simpl. auto.
Qed.

End Reaching.

(** ** One iteration, path by path *)

Section Paths.
Variable E : Env.
Variable item : Row.
Variables total n : nat.

Lemma configured_tables w :
  isSupabaseConfigured w = true -> exists t, supabase w = Some t.
Proof. unfold isSupabaseConfigured. destruct (supabase w); [eauto|discriminate]. Qed.

(** a terminal failure, when the store takes the update *)
Lemma failed__stored stored shown w :
  isSupabaseConfigured w = true ->
  storeError E (tick w) = None ->
  exists w',
    failed_ E item stored shown w = (Ret Next, w')
    /\ rowById (id item) w'
       = option_map (applyUpdates failed (Some stored) None) (rowById (id item) w)
    /\ wire w' = wire w
    /\ files w' = files w
    /\ emitted w' = emitted w ++ [QueueItem (id item) failed (Some shown)].
Proof.
  intros Hc Hok. destruct (configured_tables w Hc) as [t Ht].
  unfold failed_, bind, updateScheduleStatus, emit, ret. rewrite Ht, Hok.
  eexists. split; [reflexivity|]. simpl.
  split; [|repeat split].
  unfold rowById, scheduleOf. simpl. rewrite Ht. apply find_updateWhereId_same.
Qed.

(** the lines after a successful dispatch, when the store takes the update *)
Lemma afterSend_stored hasMedia path w :
  isSupabaseConfigured w = true ->
  storeError E (tick w) = None ->
  exists w',
    afterSend E total n item hasMedia path w = (Ret Next, w')
    /\ rowById (id item) w'
       = option_map (applyUpdates sent None (Some (nowAt E (tick w)))) (rowById (id item) w)
    /\ wire w' = wire w
    /\ emitted w' = emitted w ++ [QueueItem (id item) sent None].
Proof.
  intros Hc Hok. destruct (configured_tables w Hc) as [t Ht].
  assert (Hrow : forall w0,
             supabase w0 = Some (mkTables (updateWhereId (id item) sent None
                                             (Some (nowAt E (tick w))) (schedule t))
                                          (birthdays t)) ->
             rowById (id item) w0
             = option_map (applyUpdates sent None (Some (nowAt E (tick w))))
                 (rowById (id item) w)).
  { intros w0 H0. unfold rowById, scheduleOf. rewrite H0, Ht. simpl.
    apply find_updateWhereId_same. }
  unfold afterSend, bind, newDate, updateScheduleStatus, emit, ret, tryCatch, unlink, delay.
  rewrite Ht, Hok. simpl.
  destruct (hasMedia && negb (String.eqb path "") && negb (Js.isHttpScheme path)); simpl.
  - destruct (files w !! path); simpl;
      destruct (n <? total)%nat; simpl;
      (eexists; split; [reflexivity|]; split; [apply Hrow; reflexivity|]; split; reflexivity).
  - destruct (n <? total)%nat; simpl;
      (eexists; split; [reflexivity|]; split; [apply Hrow; reflexivity|]; split; reflexivity).
Qed.

(** the try block of an iteration on a recipient that passes the checks *)
Lemma attempt_valid w :
  connectedAt E (tick w) = true ->
  validRecipient item = true ->
  attempt E total n item w = deliver E total n item (jidOf E item) w.
Proof.
  intros Hconn Hvalid. unfold attempt, validRecipient, jidOf, isGroup, phoneOf in *.
  rewrite Hconn. simpl.
  destruct (Js.includes "@g.us" (recipient item)); [reflexivity|].
  cbn [orb] in Hvalid. apply Nat.leb_le in Hvalid.
  destruct (Nat.ltb_spec
              (String.length
                 (if Js.startsWith "+" (Js.keepDigits (recipient item))
                  then Js.substring1 (Js.keepDigits (recipient item))
                  else Js.keepDigits (recipient item))) 10); [lia|reflexivity].
Qed.

Lemma attempt_too_short w :
  connectedAt E (tick w) = true ->
  isGroup item = false ->
  (String.length (phoneOf item) < 10)%nat ->
  attempt E total n item w
  = failed_ E item "Invalid phone number: too short" "Invalid phone number" w.
Proof.
  intros Hconn Hgroup Hlen. unfold attempt, isGroup, phoneOf in *.
  rewrite Hconn, Hgroup. simpl.
  apply Nat.ltb_lt in Hlen. now rewrite Hlen.
Qed.

(** the digits that are left never begin with a plus sign: the [startsWith]
    test of the source is never taken *)
Lemma keepDigits_no_plus s : Js.startsWith "+" (Js.keepDigits s) = false.
Proof.
  induction s as [|c s IH]; simpl; [reflexivity|].
  destruct (Js.isDigit c) eqn:Hd; [|exact IH].
  destruct c as [[] [] [] [] [] [] [] []]; try discriminate Hd; reflexivity.
Qed.

Lemma phoneOf_digits : phoneOf item = Js.keepDigits (recipient item).
Proof. unfold phoneOf. now rewrite keepDigits_no_plus. Qed.

End Paths.

(** ** Recipients: the calls of an iteration *)

Lemma CallsAdded_refl E item w : CallsAdded E item w w.
Proof. exists []. split; [now rewrite app_nil_r | constructor]. Qed.

Lemma CallsAdded_trans E item a b c :
  CallsAdded E item a b -> CallsAdded E item b c -> CallsAdded E item a c.
Proof.
  intros (l1 & H1 & F1) (l2 & H2 & F2). exists (l1 ++ l2). split.
  - rewrite H2, H1. now rewrite app_assoc.
  - apply Forall_app. split; assumption.
Qed.

Lemma CallsAdded_iteration E item total n :
  Preserves (CallsAdded E item) (iteration E total n item).
Proof.
  apply Preserves_iteration with (sendsTo := fun jid => jid = jidOf E item);
    try (intros; exists []; split; [simpl; now rewrite app_nil_r | constructor]).
  - exact (CallsAdded_trans E item).
  - intros w jid p ->. eexists. split; [reflexivity|].
    constructor; [split; reflexivity | constructor].
  - reflexivity.
Qed.

Lemma CallsAdded_callsFor E item w w' :
  CallsAdded E item w w' ->
  exists calls,
    callsFor (id item) w' = callsFor (id item) w ++ calls
    /\ Forall (fun c => to_jid c = jidOf E item) calls.
Proof.
  intros (calls & Hw & Hall). exists calls. split.
  - unfold callsFor. rewrite Hw, List.filter_app. f_equal.
    clear Hw. induction Hall as [|c l [Hc _] _ IH]; simpl; [reflexivity|].
    rewrite Hc, String.eqb_refl. f_equal. exact IH.
  - eapply Forall_impl; [exact Hall|]. intros c [_ H]. exact H.
Qed.

(** a run whose first due item is [item] gets to it right after the read *)
Lemma reaches_first (E : Env) (w : World) (t : Tables) (item : Row) (post : list Row) :
  connectedAt E (tick w) = true ->
  sendingInProgress w = false ->
  supabase w = Some t ->
  storeError E (tick w) = None ->
  NoDup (map id (schedule t)) ->
  List.filter (isDue (nowAt E (tick w))) (schedule t) = item :: post ->
  connectedAt E (S (tick w)) = true ->
  reaches E w item (S (List.length post)) 1 (awaited (set_sendingInProgress true w)).
Proof.
  intros Hconn Hidle Ht Hok Hnd Hdue Hconn'.
  exists t, [], post. repeat split; auto.
Qed.

(** closes [reaches] for the only row of a sample world *)
Ltac only_due_row :=
  eapply (reaches_first _ _ _ _ []); try reflexivity; apply NoDup_singleton.

(** ** Missing media (C7) *)

Section MediaPaths.
Variable E : Env.
Variable item : Row.
Variables total n : nat.

Lemma deliver_media jid w :
  Js.truthy (media_url item) = true ->
  deliver E total n item jid w = sendMedia E total n item jid w.
Proof. intros H. unfold deliver. now rewrite H. Qed.

Lemma sendMedia_missing jid w :
  Js.isHttpScheme (localOrHttp (Js.orEmpty (media_url item))) = false ->
  files w !! localOrHttp (Js.orEmpty (media_url item)) = None ->
  sendMedia E total n item jid w
  = failed_ E item "Media file not found" "Media file not found" (awaited w).
Proof.
  intros Hlocal Hnone. unfold sendMedia, bind at 1. rewrite Hlocal.
  unfold tryCatch, bind at 1, access. rewrite Hnone. reflexivity.
Qed.

End MediaPaths.

(** the local path of a media_url is resolved as [path.join] does it *)
Lemma localOrHttp_resolves :
  localOrHttp "/uploads/note.ogg" = "/app/public/uploads/note.ogg"
  /\ localOrHttp "./uploads/note.ogg" = "/app/public/uploads/note.ogg"
  /\ localOrHttp "/uploads//note.ogg" = "/app/public/uploads/note.ogg"
  /\ localOrHttp "uploads/old/../note.ogg" = "/app/public/uploads/note.ogg"
  /\ localOrHttp "HTTPS://cdn.example.com/a.jpg" = "HTTPS://cdn.example.com/a.jpg".
Proof. repeat split. Qed.

(** C7. In a worker run that gets to an item whose media_url resolves to a
    local path with no file: the try block of the iteration ends normally (by
    continue), so its catch block, where the retry classifier sits, is not
    entered; the item is marked failed with "Media file not found", its retry
    counter is as before, no transport call is made, and the loop goes on
    with the remaining items. *)
Theorem missing_media_is_terminal (E : Env) (w wk : World) (item : Row) (total n : nat) :
  reaches E w item total n wk ->
  validRecipient item = true ->
  Js.truthy (media_url item) = true ->
  Js.isHttpScheme (localOrHttp (Js.orEmpty (media_url item))) = false ->
  files wk !! localOrHttp (Js.orEmpty (media_url item)) = None ->
  storeError E (S (tick wk)) = None ->
  let w' := snd (processQueue E w) in
  (exists r,
     rowById (id item) w' = Some r
     /\ status r = failed
     /\ error r = Some "Media file not found"
     /\ retry_count r = retry_count item)
  /\ callsFor (id item) w' = callsFor (id item) w
  /\ (exists wk',
        attempt E total n item wk = (Ret Next, wk')
        /\ wire wk' = wire wk
        /\ forall rest,
             forOf E total (Nat.pred n) (item :: rest) wk = forOf E total n rest wk').
Proof.
  intros Hreach Hvalid Hmedia Hlocal Hnone Hok w'.
  pose proof (run_after_item E w wk item total n Hreach) as (_ & [Hrow Hcalls] & _).
  fold w' in Hrow, Hcalls.
  pose proof (reaches_configured E w wk item total n Hreach) as Hc.
  destruct (failed__stored E item "Media file not found" "Media file not found"
              (awaited wk) Hc Hok) as (wk' & Hrun & Hrow' & Hwire & _).
  assert (Hatt : attempt E total n item wk = (Ret Next, wk')).
  { rewrite (attempt_valid E item total n wk
               (reaches_connected E w wk item total n Hreach) Hvalid).
    rewrite deliver_media by exact Hmedia.
    now rewrite sendMedia_missing. }
  assert (Hit : iteration E total n item wk = (Ret Next, wk'))
    by (unfold iteration, tryCatch; now rewrite Hatt).
  rewrite Hit in Hrow, Hcalls. simpl in Hrow, Hcalls.
  split; [|split].
  - exists (applyUpdates failed (Some "Media file not found") None item).
    split; [|repeat split].
    rewrite Hrow, Hrow'.
    change (rowById (id item) (awaited wk)) with (rowById (id item) wk).
    now rewrite (reaches_row E w wk item total n Hreach).
  - rewrite Hcalls. unfold callsFor. rewrite Hwire. simpl.
    exact (reaches_calls E w wk item total n Hreach).
  - exists wk'. split; [exact Hatt|]. split; [exact Hwire|].
    intros rest. destruct Hreach as (t & pre & post & Hr).
    destruct Hr as (_ & _ & _ & _ & _ & _ & _ & Hn & _). subst n. simpl.
    now rewrite Hit.
Qed.

Lemma missing_media_is_terminal_witness :
  exists r,
    rowById "m"
      (snd (processQueue Sample.calm
              (Sample.world
                 [Sample.mediaRow "m" "94770000000" "see" "/uploads/gone.jpg" "image/jpeg"] ∅)))
    = Some r
    /\ status r = failed /\ error r = Some "Media file not found".
Proof.
  assert (Hreach : reaches Sample.calm
            (Sample.world
               [Sample.mediaRow "m" "94770000000" "see" "/uploads/gone.jpg" "image/jpeg"] ∅)
            (Sample.mediaRow "m" "94770000000" "see" "/uploads/gone.jpg" "image/jpeg") 1 1
            (awaited (set_sendingInProgress true
               (Sample.world
                  [Sample.mediaRow "m" "94770000000" "see" "/uploads/gone.jpg" "image/jpeg"] ∅)))).
  { only_due_row. }
  destruct (missing_media_is_terminal Sample.calm _ _ _ 1 1 Hreach
              eq_refl eq_refl eq_refl eq_refl eq_refl)
    as ((r & Hr & Hst & Herr & _) & _).
  exists r. auto.
Defined.

(** ** A plain text item (C9) *)

Section TextPath.
Variable E : Env.
Variable item : Row.
Variables total n : nat.

Lemma deliver_text jid w :
  Js.truthy (media_url item) = false ->
  Js.truthy (caption item) = true ->
  deliver E total n item jid w
  = bind (sendMessage E (id item) jid (Text (Js.orEmpty (caption item))))
         (fun _ => afterSend E total n item false "") w.
Proof. intros Hm Hc. unfold deliver. now rewrite Hm, Hc. Qed.

Lemma sendMessage_resolves jid p w :
  sendOutcome E (tick w) jid p = None ->
  sendMessage E (id item) jid p w
  = (Ret tt, awaited (set_wire (wire w ++ [mkSendCall (id item) jid p]) w)).
Proof. intros H. unfold sendMessage. now rewrite H. Qed.

Lemma sendMessage_rejects jid p w m :
  sendOutcome E (tick w) jid p = Some m ->
  sendMessage E (id item) jid p w
  = (Throw m, awaited (set_wire (wire w ++ [mkSendCall (id item) jid p]) w)).
Proof. intros H. unfold sendMessage. now rewrite H. Qed.

End TextPath.

(** C9. In a worker run that gets, with the connection up, to a due item with
    a phone-like recipient of at least 10 digits, no media and a non-empty
    caption, and whose dispatch the transport accepts: the item ends with
    status sent and sent_at set to the time read right after the dispatch,
    and the transport was called exactly once for it, with the plain-text
    payload of the caption. *)
Theorem text_item_is_sent (E : Env) (w wk : World) (item : Row) (total n : nat)
    (text : string) :
  reaches E w item total n wk ->
  isGroup item = false ->
  (10 <= String.length (Js.keepDigits (recipient item)))%nat ->
  Js.truthy (media_url item) = false ->
  caption item = Some text ->
  text <> "" ->
  sendOutcome E (tick wk) (jidOf E item) (Text text) = None ->
  storeError E (S (tick wk)) = None ->
  let w' := snd (processQueue E w) in
  (exists r,
     rowById (id item) w' = Some r
     /\ status r = sent
     /\ sent_at r = Some (nowAt E (S (tick wk)))
     /\ error r = error item)
  /\ callsFor (id item) w'
     = callsFor (id item) w ++ [mkSendCall (id item) (jidOf E item) (Text text)].
Proof.
  intros Hreach Hgroup Hlen Hmedia Hcap Htext Hsend Hok w'.
  pose proof (run_after_item E w wk item total n Hreach) as (_ & [Hrow Hcalls] & _).
  fold w' in Hrow, Hcalls.
  pose proof (reaches_configured E w wk item total n Hreach) as Hc.
  assert (Hvalid : validRecipient item = true).
  { unfold validRecipient. rewrite Hgroup, phoneOf_digits. cbn [orb].
    now apply Nat.leb_le. }
  assert (Htruthy : Js.truthy (caption item) = true).
  { rewrite Hcap. simpl. destruct (String.eqb_spec text ""); [contradiction|reflexivity]. }
  set (w1 := awaited (set_wire
                        (wire wk ++ [mkSendCall (id item) (jidOf E item) (Text text)]) wk)).
  destruct (afterSend_stored E item total n false "" w1 Hc Hok)
    as (wk' & Hrun & Hrow' & Hwire & _).
  assert (Hit : iteration E total n item wk = (Ret Next, wk')).
  { unfold iteration, tryCatch.
    rewrite (attempt_valid E item total n wk
               (reaches_connected E w wk item total n Hreach) Hvalid).
    rewrite deliver_text by assumption. unfold bind.
    rewrite Hcap. simpl Js.orEmpty.
    rewrite sendMessage_resolves by exact Hsend. fold w1. now rewrite Hrun. }
  rewrite Hit in Hrow, Hcalls. simpl in Hrow, Hcalls.
  split.
  - exists (applyUpdates sent None (Some (nowAt E (S (tick wk)))) item).
    split; [|repeat split].
    rewrite Hrow, Hrow'.
    change (rowById (id item) w1) with (rowById (id item) wk).
    now rewrite (reaches_row E w wk item total n Hreach).
  - rewrite Hcalls. unfold callsFor. rewrite Hwire. simpl.
    rewrite List.filter_app. simpl. rewrite String.eqb_refl.
    fold (callsFor (id item) wk).
    now rewrite (reaches_calls E w wk item total n Hreach).
Qed.

Lemma text_item_is_sent_witness :
  (exists r,
     rowById "a" (snd (processQueue Sample.calm (Sample.world [Sample.hi] ∅))) = Some r
     /\ status r = sent
     /\ sent_at r = Some 1700000000002)
  /\ callsFor "a" (snd (processQueue Sample.calm (Sample.world [Sample.hi] ∅)))
     = [mkSendCall "a" "94770000000@s.whatsapp.net" (Text "hi")].
Proof.
  assert (Hreach : reaches Sample.calm (Sample.world [Sample.hi] ∅) Sample.hi 1 1
            (awaited (set_sendingInProgress true (Sample.world [Sample.hi] ∅)))).
  { only_due_row. }
  destruct (text_item_is_sent Sample.calm _ _ _ 1 1 "hi" Hreach) as ((r & Hr & Hst & Hat & _) & Hcalls);
    try reflexivity; [vm_compute; lia | discriminate |].
  split; [exists r; auto | exact Hcalls].
Defined.

(** ** Payloads (C8) *)

Section Dispatch.
Variable E : Env.
Variable item : Row.
Variables total n : nat.

Lemma SameWire_afterSend hasMedia path :
  Preserves SameWire (afterSend E total n item hasMedia path).
Proof.
  apply Preserves_afterSend; try (intros; reflexivity).
  intros a b c H1 H2. unfold SameWire in *. congruence.
Qed.

Lemma SameWire_onSendFailure m : Preserves SameWire (onSendFailure E item m).
Proof.
  apply Preserves_onSendFailure; try (intros; reflexivity).
  intros a b c H1 H2. unfold SameWire in *. congruence.
Qed.

(** a dispatch puts exactly one call on the wire, whatever the transport
    answers and whatever follows in the iteration *)
Lemma dispatch_calls jid p hasMedia path w0 :
  wire (snd (tryCatch
               (bind (sendMessage E (id item) jid p)
                     (fun _ => afterSend E total n item hasMedia path))
               (onSendFailure E item) w0))
  = wire w0 ++ [mkSendCall (id item) jid p].
Proof.
  unfold tryCatch, bind, sendMessage.
  destruct (sendOutcome E (tick w0) jid p) as [m|].
  - rewrite (SameWire_onSendFailure m). reflexivity.
  - pose proof (SameWire_afterSend hasMedia path
                  (awaited (set_wire (wire w0 ++ [mkSendCall (id item) jid p]) w0))) as H.
    destruct (afterSend E total n item hasMedia path _) as [[c|m] w2]; simpl in *.
    + rewrite H. reflexivity.
    + rewrite (SameWire_onSendFailure m), H. reflexivity.
Qed.

Lemma sendMedia_loaded jid w content :
  mediaContent w item = Some content ->
  exists w0,
    wire w0 = wire w
    /\ sendMedia E total n item jid w
       = bind (sendMessage E (id item) jid (mediaPayload E item content))
              (fun _ => afterSend E total n item true
                          (localOrHttp (Js.orEmpty (media_url item)))) w0.
Proof.
  unfold mediaContent, sendMedia. intros H.
  destruct (Js.isHttpScheme (localOrHttp (Js.orEmpty (media_url item)))).
  - injection H as <-. exists w. split; reflexivity.
  - destruct (files w !! localOrHttp (Js.orEmpty (media_url item))) as [f|] eqn:Hf;
      [|discriminate].
    injection H as <-. exists (awaited (awaited w)). split; [reflexivity|].
    unfold bind at 1, tryCatch, bind at 1, access. rewrite Hf.
    unfold bind at 1, readFile. simpl. rewrite Hf. reflexivity.
Qed.

End Dispatch.

Lemma categorize_cases (mediaType : option string) :
  let mt := Js.toLowerCase (Js.orEmpty mediaType) in
  (Js.includes "image" mt = true -> categorize mediaType = image)
  /\ (Js.includes "image" mt = false -> Js.includes "video" mt = true ->
      categorize mediaType = video)
  /\ (Js.includes "image" mt = false -> Js.includes "video" mt = false ->
      Js.includes "audio" mt = true -> categorize mediaType = audio)
  /\ (Js.includes "image" mt = false -> Js.includes "video" mt = false ->
      Js.includes "audio" mt = false -> categorize mediaType = document).
Proof.
  intros mt. unfold categorize. fold mt.
  repeat split; intros; repeat match goal with H : _ = _ |- _ => rewrite H end; reflexivity.
Qed.

(** C8, as the code has it. In a worker run that gets to an item with a
    valid recipient: if the item has media and the media loads (a remote URL,
    or a local file that exists), the transport is called exactly once for it,
    with the payload of the category of its media_type (image, video, audio
    in that priority by case-insensitive substring, else document); the image,
    video and document payloads carry the caption, the audio payload carries
    the media type and no caption. An item without media and with a non-empty
    caption is dispatched once, as plain text. *)
Theorem dispatch_by_category (E : Env) (w wk : World) (item : Row) (total n : nat) :
  reaches E w item total n wk ->
  validRecipient item = true ->
  let w' := snd (processQueue E w) in
  (forall content,
     Js.truthy (media_url item) = true ->
     mediaContent wk item = Some content ->
     callsFor (id item) w'
     = callsFor (id item) w
       ++ [mkSendCall (id item) (jidOf E item) (mediaPayload E item content)]
     /\ payloadCategory (mediaPayload E item content) = Some (categorize (media_type item))
     /\ (categorize (media_type item) <> audio ->
         payloadCaption (mediaPayload E item content) = Js.orNull (caption item))
     /\ (categorize (media_type item) = audio ->
         mediaPayload E item content = Audio content (media_type item)))
  /\ (Js.truthy (media_url item) = false ->
      Js.truthy (caption item) = true ->
      callsFor (id item) w'
      = callsFor (id item) w
        ++ [mkSendCall (id item) (jidOf E item) (Text (Js.orEmpty (caption item)))])
  /\ (let mt := Js.toLowerCase (Js.orEmpty (media_type item)) in
      (Js.includes "image" mt = true -> categorize (media_type item) = image)
      /\ (Js.includes "image" mt = false -> Js.includes "video" mt = true ->
          categorize (media_type item) = video)
      /\ (Js.includes "image" mt = false -> Js.includes "video" mt = false ->
          Js.includes "audio" mt = true -> categorize (media_type item) = audio)
      /\ (Js.includes "image" mt = false -> Js.includes "video" mt = false ->
          Js.includes "audio" mt = false -> categorize (media_type item) = document)).
Proof.
  intros Hreach Hvalid w'.
  pose proof (run_after_item E w wk item total n Hreach) as (_ & [_ Hcalls] & _).
  fold w' in Hcalls.
  pose proof (attempt_valid E item total n wk
                (reaches_connected E w wk item total n Hreach) Hvalid) as Hatt.
  assert (Hone : forall w0 p hasMedia path,
             wire w0 = wire wk ->
             attempt E total n item wk
             = bind (sendMessage E (id item) (jidOf E item) p)
                    (fun _ => afterSend E total n item hasMedia path) w0 ->
             callsFor (id item) w'
             = callsFor (id item) w ++ [mkSendCall (id item) (jidOf E item) p]).
  { intros w0 p hasMedia path Hw0 Heq.
    rewrite Hcalls. unfold iteration, tryCatch at 1. rewrite Heq.
    pose proof (dispatch_calls E item total n (jidOf E item) p hasMedia path w0) as Hd.
    unfold tryCatch at 1 in Hd. unfold callsFor at 1. rewrite Hd, Hw0.
    rewrite List.filter_app. simpl. rewrite String.eqb_refl.
    fold (callsFor (id item) wk).
    now rewrite (reaches_calls E w wk item total n Hreach). }
  split; [|split].
  - intros content Hmedia Hload.
    destruct (sendMedia_loaded E item total n (jidOf E item) wk content Hload)
      as (w0 & Hw0 & Heq).
    split; [|split; [|split]].
    + eapply Hone; [exact Hw0|]. rewrite Hatt, deliver_media by exact Hmedia. exact Heq.
    + unfold mediaPayload. destruct (categorize (media_type item)); reflexivity.
    + unfold mediaPayload. destruct (categorize (media_type item)); try reflexivity.
      intros H. now contradiction H.
    + unfold mediaPayload. intros ->. reflexivity.
  - intros Hmedia Hcap. eapply (Hone wk); [reflexivity|].
    rewrite Hatt. now apply deliver_text.
  - apply categorize_cases.
Qed.

Lemma dispatch_by_category_witness :
  callsFor "v"
    (snd (processQueue Sample.calm (Sample.world [Sample.voice] Sample.voiceFiles)))
  = [mkSendCall "v" "94770000000@s.whatsapp.net" (Audio (Buffer "OggS") (Some "audio/ogg"))].
Proof.
  assert (Hreach : reaches Sample.calm (Sample.world [Sample.voice] Sample.voiceFiles)
            Sample.voice 1 1
            (awaited (set_sendingInProgress true
               (Sample.world [Sample.voice] Sample.voiceFiles)))).
  { only_due_row. }
  destruct (dispatch_by_category Sample.calm _ _ _ 1 1 Hreach eq_refl) as (Hmedia & _).
  destruct (Hmedia (Buffer "OggS") eq_refl eq_refl) as (Hcalls & _).
  exact Hcalls.
Defined.

(** C8 as stated fails for audio: the voice note is dispatched as an audio
    payload that carries no caption, though the row has the caption "listen". *)
Lemma audio_payload_drops_caption :
  ~ (forall (E : Env) (w : World) (item : Row) (c : SendCall),
       In item (scheduleOf w) ->
       In c (callsFor (id item) (snd (processQueue E w))) ->
       payloadCategory (payload c) <> None ->
       payloadCaption (payload c) = Js.orNull (caption item)).
Proof.
  intros H.
  specialize (H Sample.calm (Sample.world [Sample.voice] Sample.voiceFiles) Sample.voice
                (mkSendCall "v" "94770000000@s.whatsapp.net"
                   (Audio (Buffer "OggS") (Some "audio/ogg")))).
  assert (Hfalse : None = Some "listen"); [|discriminate Hfalse].
  apply H.
  - left. reflexivity.
  - vm_compute. left. reflexivity.
  - discriminate.
Qed.

(** ** Single flight (C2) *)

Lemma Held_getDueScheduleItems E : Preserves Held (getDueScheduleItems E).
Proof.
  apply Preserves_getDueScheduleItems; [apply Held_refl | intros; split; reflexivity].
Qed.

Lemma Held_getPendingSchedule E : Preserves Held (getPendingSchedule E).
Proof.
  apply Preserves_getPendingSchedule; [apply Held_refl | intros; split; reflexivity].
Qed.

Lemma Held_drain E : Preserves Held (drain E).
Proof.
  unfold drain. apply Preserves_bind; [exact Held_trans | apply Held_getDueScheduleItems |].
  intros [|item rest]; [apply Preserves_ret; exact Held_refl|].
  apply Preserves_bind; [exact Held_trans | apply Held_forOf | intros _].
  apply Preserves_bind; [exact Held_trans | apply Held_getPendingSchedule | intros a].
  intros w0. split; reflexivity.
Qed.

Lemma processQueue_returns E w : fst (processQueue E w) = Ret tt.
Proof.
  rewrite processQueue_alone.
  destruct (negb (connectedAt E (tick w))); [reflexivity|].
  destruct (sendingInProgress w); [reflexivity|].
  destruct (negb (isSupabaseConfigured w)); [reflexivity|].
  unfold tryFinally, tryCatch.
  destruct (drain E (set_sendingInProgress true w)) as [[[]|m] w1]; reflexivity.
Qed.

Lemma processQueue_flag E w :
  sendingInProgress (snd (processQueue E w)) = sendingInProgress w.
Proof.
  rewrite processQueue_alone.
  destruct (negb (connectedAt E (tick w))); [reflexivity|].
  destruct (sendingInProgress w) eqn:Hflag; [exact Hflag|].
  destruct (negb (isSupabaseConfigured w)); [exact Hflag|].
  unfold tryFinally, tryCatch.
  destruct (drain E (set_sendingInProgress true w)) as [[[]|m] w1]; reflexivity.
Qed.

(** C2. With the flag up, an invocation of the worker returns the world as it
    found it: nothing fetched, dispatched or written. A run that passes the
    guards raises the flag before its first await and keeps it up until its
    finally block: whatever else runs while the worker waits, if it does
    nothing when it finds the flag up, it does nothing during the run, and a
    run during whose every wait the worker is invoked again ends exactly as
    the run alone. The flag stays up after the read, after any number of
    iterations of the loop, and after the whole try block. Every invocation
    returns, never throws, and one that found the flag down leaves it down,
    also when its try block ended by an exception; such runs exist. *)
Theorem single_flight (E : Env) :
  (forall w, sendingInProgress w = true -> processQueue E w = (Ret tt, w))
  /\ (forall w total k items,
        sendingInProgress w = true ->
        let w1 := snd (forOf E total k items w) in
        sendingInProgress w1 = true /\ processQueue E w1 = (Ret tt, w1))
  /\ (forall w,
        sendingInProgress w = true ->
        let w1 := snd (drain E w) in
        sendingInProgress w1 = true /\ processQueue E w1 = (Ret tt, w1))
  /\ (forall w,
        sendingInProgress w = false ->
        fst (processQueue E w) = Ret tt
        /\ sendingInProgress (snd (processQueue E w)) = false)
  /\ (forall w m w2,
        connectedAt E (tick w) = true ->
        sendingInProgress w = false ->
        isSupabaseConfigured w = true ->
        drain E (set_sendingInProgress true w) = (Throw m, w2) ->
        processQueue E w = (Ret tt, set_sendingInProgress false w2))
  /\ (exists w2,
        drain Sample.timingOut (set_sendingInProgress true (Sample.world [Sample.hi] ∅))
        = (Throw "db.incrementRetryCount is not a function", w2))
  /\ (forall others : M unit,
        (forall w, sendingInProgress w = true -> others w = (Ret tt, w)) ->
        forall w, Reentrant.processQueue E others w = processQueue E w)
  /\ (forall w, Reentrant.processQueue E (processQueue E) w = processQueue E w)
  /\ (forall w, Reentrant.processQueue E (ret tt) w = processQueue E w)
  /\ (forall w,
        connectedAt E (tick w) = true ->
        sendingInProgress w = false ->
        isSupabaseConfigured w = true ->
        exists w0,
          sendingInProgress w0 = true
          /\ (tick w0 = tick w /\ supabase w0 = supabase w /\ files w0 = files w
              /\ wire w0 = wire w /\ emitted w0 = emitted w)
          /\ Reentrant.processQueue E (processQueue E) w
             = tryFinally (tryCatch (Reentrant.drain E (processQueue E)) (fun _ => ret tt))
                          (set_sendingInProgress false) w0).
Proof.
  assert (Hnoop : forall w, sendingInProgress w = true -> processQueue E w = (Ret tt, w)).
  { intros w Hflag. rewrite processQueue_alone. rewrite Hflag.
    destruct (negb (connectedAt E (tick w))); reflexivity. }
  assert (Hamong : forall others : M unit,
             (forall w, sendingInProgress w = true -> others w = (Ret tt, w)) ->
             forall w, Reentrant.processQueue E others w = processQueue E w).
  { intros others Hquiet w. rewrite processQueue_alone.
    apply (processQueue_among_others E others (fun w => sendingInProgress w = true));
      try (intros; assumption); [|reflexivity].
    intros w0 Hw. now rewrite Hquiet. }
  split; [exact Hnoop|]. split; [|split; [|split; [|split; [|split; [|split; [|split; [|split]]]]]]].
  - intros w total k items Hflag w1.
    assert (Hw1 : sendingInProgress w1 = true)
      by (subst w1; rewrite (proj1 (Held_forOf E items total k w)); exact Hflag).
    split; [exact Hw1 | now apply Hnoop].
  - intros w Hflag w1.
    assert (Hw1 : sendingInProgress w1 = true)
      by (subst w1; rewrite (proj1 (Held_drain E w)); exact Hflag).
    split; [exact Hw1 | now apply Hnoop].
  - intros w Hflag. split; [apply processQueue_returns|].
    now rewrite processQueue_flag.
  - intros w m w2 Hconn Hflag Hc Hdrain. rewrite processQueue_alone.
    rewrite Hconn, Hflag, Hc. simpl. unfold tryFinally, tryCatch. now rewrite Hdrain.
  - eexists. vm_compute. reflexivity.
  - exact Hamong.
  - apply Hamong. exact Hnoop.
  - reflexivity.
  - intros w Hconn Hflag Hc. exists (set_sendingInProgress true w).
    split; [reflexivity|]. split; [repeat split|].
    unfold Reentrant.processQueue. now rewrite Hconn, Hflag, Hc.
Qed.

Lemma single_flight_witness :
  processQueue Sample.calm (set_sendingInProgress true (Sample.world [Sample.hi] ∅))
  = (Ret tt, set_sendingInProgress true (Sample.world [Sample.hi] ∅))
  /\ sendingInProgress
       (snd (processQueue Sample.timingOut (Sample.world [Sample.hi] ∅))) = false
  /\ Reentrant.processQueue Sample.calm (processQueue Sample.calm)
       (Sample.world [Sample.hi] ∅)
     = processQueue Sample.calm (Sample.world [Sample.hi] ∅).
Proof.
  split; [|split].
  - exact (proj1 (single_flight Sample.calm)
             (set_sendingInProgress true (Sample.world [Sample.hi] ∅)) eq_refl).
  - exact (proj2 (proj1 (proj2 (proj2 (proj2 (single_flight Sample.timingOut))))
                    (Sample.world [Sample.hi] ∅) eq_refl)).
  - exact (proj1 (proj2 (proj2 (proj2 (proj2 (proj2 (proj2 (proj2
             (single_flight Sample.calm))))))))
             (Sample.world [Sample.hi] ∅)).
Defined.

(** ** Retries (C1) *)

Lemma incrementRetryCount_not_exported : exported "incrementRetryCount" = false.
Proof. reflexivity. Qed.

(** a retryable failure of the try block: the catch block calls the missing
    store operation, and the exception leaves the iteration *)
Lemma retryable_failure_escapes E total n item w m w1 :
  attempt E total n item w = (Throw m, w1) ->
  isRetryableError (errorMessageOf m) = true ->
  iteration E total n item w = (Throw "db.incrementRetryCount is not a function", w1).
Proof.
  intros Hatt Hretry. unfold iteration, tryCatch. rewrite Hatt.
  unfold onSendFailure. rewrite Hretry. reflexivity.
Qed.

Section FailingRuns.
Variable E : Env.
Variables (t : Tables) (item : Row) (post : list Row) (m : string).
Hypothesis Hconn : forall tau, connectedAt E tau = true.
Hypothesis Hstore : forall tau, storeError E tau = None.
Hypothesis Hdue : forall tau,
  List.filter (isDue (nowAt E tau)) (schedule t) = item :: post.
Hypothesis Hvalid : validRecipient item = true.
Hypothesis Hmedia : Js.truthy (media_url item) = false.
Hypothesis Hcaption : Js.truthy (caption item) = true.
Hypothesis Hreject : forall tau,
  sendOutcome E tau (jidOf E item) (Text (Js.orEmpty (caption item))) = Some m.
Hypothesis Hretry : isRetryableError (errorMessageOf m) = true.

(** one run: the dispatch is tried once, the exception of the catch block
    ends the run, the store is as it was *)
Lemma failing_run w :
  sendingInProgress w = false ->
  supabase w = Some t ->
  processQueue E w
  = (Ret tt,
     set_sendingInProgress false
       (awaited
          (set_wire
             (wire w ++ [mkSendCall (id item) (jidOf E item)
                           (Text (Js.orEmpty (caption item)))])
             (awaited (set_sendingInProgress true w))))).
Proof.
  intros Hidle Ht. rewrite processQueue_alone.
  rewrite Hconn, Hidle. unfold isSupabaseConfigured. rewrite Ht. simpl.
  unfold tryFinally, tryCatch, drain, bind at 1, getDueScheduleItems. simpl.
  rewrite Ht, Hstore, Hdue. unfold bind at 1. simpl forOf.
  erewrite retryable_failure_escapes; [reflexivity| |exact Hretry].
  rewrite attempt_valid by (try apply Hconn; exact Hvalid).
  rewrite deliver_text by assumption. unfold bind.
  erewrite sendMessage_rejects by apply Hreject. reflexivity.
Qed.

Lemma failing_runs k : forall w,
  sendingInProgress w = false ->
  supabase w = Some t ->
  supabase (runs E k w) = Some t
  /\ sendingInProgress (runs E k w) = false
  /\ callsFor (id item) (runs E k w)
     = callsFor (id item) w
       ++ List.repeat (mkSendCall (id item) (jidOf E item)
                         (Text (Js.orEmpty (caption item)))) k.
Proof.
  induction k as [|k IH]; intros w Hidle Ht; simpl.
  - now rewrite app_nil_r.
  - rewrite failing_run by assumption. simpl.
    destruct (IH (set_sendingInProgress false
                    (awaited
                       (set_wire
                          (wire w ++ [mkSendCall (id item) (jidOf E item)
                                        (Text (Js.orEmpty (caption item)))])
                          (awaited (set_sendingInProgress true w))))))
      as (Hs & Hf & Hc); [reflexivity | exact Ht |].
    split; [exact Hs|]. split; [exact Hf|].
    rewrite Hc. unfold callsFor at 1. simpl. rewrite List.filter_app. simpl.
    rewrite String.eqb_refl. fold (callsFor (id item) w).
    now rewrite <- app_assoc.
Qed.

End FailingRuns.

(** two retryable failures, then a dispatch that succeeds: the row, left
    pending by the two aborted runs, ends sent in the third *)
Lemma two_timeouts_then_sent :
  option_map status (rowById "a" (runs Sample.flaky 2 (Sample.world [Sample.hi] ∅)))
  = Some pending
  /\ option_map status (rowById "a" (runs Sample.flaky 3 (Sample.world [Sample.hi] ∅)))
     = Some sent
  /\ List.length (callsFor "a" (runs Sample.flaky 3 (Sample.world [Sample.hi] ∅))) = 3%nat.
Proof. repeat split; vm_compute; reflexivity. Qed.

(** C1, on the code. The scenario row of the specification against a
    transport that answers every dispatch with "Request timeout", which the
    classifier takes as retryable: after any number of worker runs, and so
    after max + 1 = 4 of them, the row is exactly as it was, pending, with no
    error and a retry counter of 0, though the transport was called once per
    run; [database.js] exports no [incrementRetryCount], and the run ends by
    the exception of that call. *)
Theorem retry_cap_is_never_reached :
  isRetryableError (errorMessageOf "Request timeout") = true
  /\ exported "incrementRetryCount" = false
  /\ (forall k,
        rowById "a" (runs Sample.timingOut k (Sample.world [Sample.hi] ∅)) = Some Sample.hi
        /\ List.length (callsFor "a" (runs Sample.timingOut k (Sample.world [Sample.hi] ∅))) = k)
  /\ (exists r,
        rowById "a" (runs Sample.timingOut 4 (Sample.world [Sample.hi] ∅)) = Some r
        /\ status r = pending /\ error r = None /\ retry_count r = 0)
  /\ (exists w2,
        drain Sample.timingOut (set_sendingInProgress true (Sample.world [Sample.hi] ∅))
        = (Throw "db.incrementRetryCount is not a function", w2)).
Proof.
  assert (Hruns : forall k,
            rowById "a" (runs Sample.timingOut k (Sample.world [Sample.hi] ∅)) = Some Sample.hi
            /\ List.length (callsFor "a" (runs Sample.timingOut k (Sample.world [Sample.hi] ∅))) = k).
  { intros k.
    destruct (failing_runs Sample.timingOut (mkTables [Sample.hi] []) Sample.hi []
                "Request timeout") with (k := k) (w := Sample.world [Sample.hi] ∅)
      as (Hs & _ & Hc); try reflexivity.
    - intros tau. simpl. unfold isDue. simpl.
      replace (1699999999000 <=? 1700000000000 + Z.of_nat tau) with true; [reflexivity|].
      symmetry. apply Z.leb_le. lia.
    - split.
      + unfold rowById, scheduleOf. now rewrite Hs.
      + change (id Sample.hi) with "a" in Hc. rewrite Hc. simpl.
        apply List.repeat_length. }
  split; [reflexivity|]. split; [reflexivity|]. split; [exact Hruns|]. split.
  - exists Sample.hi. split; [apply Hruns|]. repeat split.
  - eexists. vm_compute. reflexivity.
Qed.

(** ** The media sweep (C5) *)

Lemma stripPrefix_Some pre : forall s r,
  stripPrefix pre s = Some r <-> s = pre +:+ r.
Proof.
  induction pre as [|a pre IH]; intros s r; simpl.
  - split; [intros [= ->]; reflexivity | intros ->; reflexivity].
  - destruct s as [|b s]; [split; discriminate|].
    destruct (Ascii.eqb_spec a b) as [->|Hne].
    + rewrite IH. split; [intros ->; reflexivity | intros [= ->]; reflexivity].
    + split; [discriminate | intros [= Hab _]; congruence].
Qed.

Lemma append_inj_r pre : forall a b, pre +:+ a = pre +:+ b -> a = b.
Proof.
  induction pre as [|c pre IH]; simpl; intros a b H; [exact H|].
  injection H as H. now apply IH.
Qed.

Lemma join_inj dir a b : Js.join dir a = Js.join dir b -> a = b.
Proof.
  unfold Js.join. intros H. apply append_inj_r in H. now apply append_inj_r in H.
Qed.

Lemma join_assoc dir name : Js.join dir name = (dir +:+ "/") +:+ name.
Proof.
  unfold Js.join. induction dir as [|c dir IH]; [reflexivity|].
  change (String c (dir +:+ "/" +:+ name) = String c ((dir +:+ "/") +:+ name)).
  now rewrite IH.
Qed.

Lemma entryOf_Some dir p name :
  entryOf dir p = Some name <->
  p = Js.join dir name /\ name <> "" /\ Js.includes "/" name = false.
Proof.
  unfold entryOf. rewrite join_assoc.
  destruct (stripPrefix (dir +:+ "/") p) as [r|] eqn:Hs.
  - apply stripPrefix_Some in Hs. subst p.
    destruct (String.eqb_spec r ""); simpl.
    + split; [discriminate|]. intros (H & Hne & _). apply append_inj_r in H. congruence.
    + destruct (Js.includes "/" r) eqn:Hi; simpl.
      * split; [discriminate|]. intros (H & _ & Hno). apply append_inj_r in H. congruence.
      * split; [intros [= <-]; auto|]. intros (H & _ & _). apply append_inj_r in H.
        now subst.
  - split; [discriminate|]. intros (H & _ & _).
    assert (Hsome : stripPrefix (dir +:+ "/") p = Some name) by now apply stripPrefix_Some.
    congruence.
Qed.

Lemma elem_of_entries dir (fs : gmap string File) name :
  name ∈ entries dir fs <->
  is_Some (fs !! Js.join dir name) /\ name <> "" /\ Js.includes "/" name = false.
Proof.
  unfold entries. rewrite list_elem_of_omap. split.
  - intros (p & Hp & He). apply entryOf_Some in He. destruct He as (-> & Hne & Hno).
    split; [|auto]. change (map fst (map_to_list fs)) with ((map_to_list fs).*1) in Hp.
    apply list_elem_of_fmap in Hp. destruct Hp as ([p f] & Heq & Hin). simpl in Heq. subst p.
    apply elem_of_map_to_list in Hin. eauto.
  - intros ([f Hf] & Hne & Hno). exists (Js.join dir name). split.
    + change (map fst (map_to_list fs)) with ((map_to_list fs).*1).
      apply list_elem_of_fmap. exists (Js.join dir name, f). split; [reflexivity|].
      now apply elem_of_map_to_list.
    + apply entryOf_Some. auto.
Qed.

Lemma NoDup_omap_inj {A B} (f : A -> option B) (l : list A) :
  (forall x y b, f x = Some b -> f y = Some b -> x = y) ->
  NoDup l -> NoDup (omap f l).
Proof.
  intros Hinj. induction l as [|x l IH]; intros Hnd; simpl; [constructor|].
  apply NoDup_cons in Hnd. destruct Hnd as [Hx Hnd].
  destruct (f x) as [b|] eqn:Hfx; [|now apply IH].
  apply NoDup_cons. split; [|now apply IH].
  intros Hin. apply list_elem_of_omap in Hin. destruct Hin as (y & Hy & Hfy).
  assert (x = y) by (eapply Hinj; eassumption). now subst.
Qed.

Lemma NoDup_entries dir (fs : gmap string File) : NoDup (entries dir fs).
Proof.
  unfold entries. apply NoDup_omap_inj.
  - intros x y b Hx Hy. apply entryOf_Some in Hx. apply entryOf_Some in Hy.
    destruct Hx as (-> & _). destruct Hy as (-> & _). reflexivity.
  - apply NoDup_fst_map_to_list.
Qed.

Lemma sweepFiles_spec (oneDayAgo : Z) (active : gset string) (names : list string) :
  forall w,
  NoDup names ->
  (forall x, x ∈ names -> is_Some (files w !! Js.join UPLOADS_DIR x)) ->
  exists w',
    sweepFiles oneDayAgo active names w = (Ret tt, w')
    /\ (forall x f, x ∈ names -> files w !! Js.join UPLOADS_DIR x = Some f ->
          files w' !! Js.join UPLOADS_DIR x
          = if swept oneDayAgo active x f then None else Some f)
    /\ (forall p, (forall x, x ∈ names -> p <> Js.join UPLOADS_DIR x) ->
          files w' !! p = files w !! p).
Proof.
  induction names as [|name rest IH]; intros w Hnd Hpresent.
  - exists w. split; [reflexivity|]. split; [|reflexivity].
    intros x f Hx. now apply not_elem_of_nil in Hx.
  - apply NoDup_cons in Hnd. destruct Hnd as [Hname Hnd].
    assert (Hdistinct : forall x, x ∈ rest -> Js.join UPLOADS_DIR name <> Js.join UPLOADS_DIR x).
    { intros x Hx Heq. apply join_inj in Heq. now subst. }
    destruct (Hpresent name) as [f0 Hf0]; [left|].
    assert (Hstep : exists w2,
               (forall p, files w2 !! p
                          = if decide (p = Js.join UPLOADS_DIR name)
                            then (if swept oneDayAgo active name f0 then None else Some f0)
                            else files w !! p)
               /\ sweepFiles oneDayAgo active (name :: rest) w
                  = sweepFiles oneDayAgo active rest w2).
    { simpl sweepFiles. unfold swept.
      destruct (String.eqb name ".gitkeep"); simpl.
      - exists w. split; [|reflexivity]. intros p. case_decide; [now subst|reflexivity].
      - unfold bind at 1, stat. rewrite Hf0.
        destruct ((mtimeMs f0 <? oneDayAgo) && negb (bool_decide (name ∈ active))).
        + unfold bind at 1, tryCatch, unlink. simpl. rewrite Hf0.
          eexists. split; [|reflexivity]. intros p. simpl. case_decide.
          * subst p. apply lookup_delete_eq.
          * now apply lookup_delete_ne.
        + unfold bind at 1, ret. eexists. split; [|reflexivity].
          intros p. simpl. case_decide; [now subst|reflexivity]. }
    destruct Hstep as (w2 & Hfiles & Heq). rewrite Heq.
    destruct (IH w2 Hnd) as (w' & Hrun & Hin & Hout).
    { intros x Hx. rewrite Hfiles. case_decide as Hp.
      - exfalso. symmetry in Hp. now apply (Hdistinct x Hx).
      - apply Hpresent. now right. }
    exists w'. split; [exact Hrun|]. split.
    + intros x f Hx Hf. apply elem_of_cons in Hx. destruct Hx as [->|Hx].
      * rewrite Hout by (intros y Hy; now apply Hdistinct).
        rewrite Hfiles. rewrite decide_True by reflexivity.
        assert (f = f0) by congruence. now subst.
      * apply Hin; [exact Hx|]. rewrite Hfiles. rewrite decide_False; [exact Hf|].
        intros Hp. symmetry in Hp. now apply (Hdistinct x Hx).
    + intros p Hp. rewrite Hout by (intros x Hx; apply Hp; now right).
      rewrite Hfiles. rewrite decide_False; [reflexivity|]. apply Hp. left.
Qed.

Lemma In_insertBySendAt r x l : In r (insertBySendAt x l) <-> r = x \/ In r l.
Proof.
  induction l as [|y l IH]; simpl; [intuition congruence|].
  destruct (send_at x <=? send_at y); simpl; [intuition congruence|].
  rewrite IH. intuition congruence.
Qed.

Lemma In_orderBySendAt r l : In r (orderBySendAt l) <-> In r l.
Proof.
  unfold orderBySendAt. induction l as [|x l IH]; simpl; [reflexivity|].
  rewrite In_insertBySendAt, IH. intuition congruence.
Qed.

Lemma In_pending r rows :
  In r (orderBySendAt (List.filter isPending rows)) <-> In r rows /\ status r = pending.
Proof.
  rewrite In_orderBySendAt, filter_In. unfold isPending, Status_eqb.
  now rewrite bool_decide_eq_true.
Qed.

Lemma elem_of_activeMediaFiles name rows :
  name ∈ activeMediaFiles (orderBySendAt (List.filter isPending rows))
  <-> exists r, In r rows /\ keepsAlive name r.
Proof.
  unfold activeMediaFiles, keepsAlive. rewrite elem_of_list_to_set, list_elem_of_In.
  rewrite in_map_iff. split.
  - intros (u & Hbase & Hu). apply in_map_iff in Hu. destruct Hu as (o & <- & Ho).
    apply filter_In in Ho. destruct Ho as [Ho Htest].
    apply in_map_iff in Ho. destruct Ho as (r & <- & Hr).
    apply In_pending in Hr. destruct Hr as [Hr Hst].
    apply andb_true_iff in Htest. destruct Htest as [Ht Hh].
    apply negb_true_iff in Hh. exists r. auto.
  - intros (r & Hr & Hst & Ht & Hh & Hbase).
    exists (Js.orEmpty (media_url r)). split; [exact Hbase|].
    apply in_map_iff. exists (media_url r). split; [reflexivity|].
    apply filter_In. split.
    + apply in_map. now apply In_pending.
    + now rewrite Ht, Hh.
Qed.

(** what the sweep reads as pending: nothing when the read fails *)
Lemma cleanup_sweeps (E : Env) (w : World) (t : Tables) :
  supabase w = Some t ->
  let pendingSchedule :=
    match storeError E (S (tick w)) with
    | Some _ => []
    | None => orderBySendAt (List.filter isPending (schedule t))
    end in
  let oneDayAgo := nowAt E (S (S (tick w))) - 24 * 60 * 60 * 1000 in
  forall name f,
    name <> "" -> Js.includes "/" name = false ->
    files w !! Js.join UPLOADS_DIR name = Some f ->
    files (snd (cleanupOldMediaFiles E w)) !! Js.join UPLOADS_DIR name
    = if swept oneDayAgo (activeMediaFiles pendingSchedule) name f then None else Some f.
Proof.
  intros Ht pendingSchedule oneDayAgo name f Hne Hslash Hf.
  assert (Hin : name ∈ entries UPLOADS_DIR (files w))
    by (apply elem_of_entries; eauto).
  destruct (sweepFiles_spec oneDayAgo (activeMediaFiles pendingSchedule)
              (entries UPLOADS_DIR (files w)) (awaited (awaited w))
              (NoDup_entries _ _)) as (w2 & Hrun & Hspec & _).
  { intros x Hx. apply elem_of_entries in Hx. tauto. }
  assert (Hw' : snd (cleanupOldMediaFiles E w) = w2).
  { unfold cleanupOldMediaFiles, tryCatch, bind at 1, readdir.
    unfold isSupabaseConfigured. simpl. rewrite Ht. simpl.
    unfold bind at 1, getPendingSchedule. simpl. rewrite Ht.
    subst pendingSchedule.
    destruct (storeError E (S (tick w))); unfold bind at 1, newDate; simpl;
      fold oneDayAgo; now rewrite Hrun. }
  rewrite Hw'. now apply Hspec.
Qed.

Lemma cleanup_unconfigured (E : Env) (w : World) :
  supabase w = None -> files (snd (cleanupOldMediaFiles E w)) = files w.
Proof.
  intros Ht. unfold cleanupOldMediaFiles, tryCatch, bind at 1, readdir.
  unfold isSupabaseConfigured. simpl. now rewrite Ht.
Qed.

(** the fate of one file of the uploads directory in a sweep *)
Lemma sweep_file_fate (E : Env) (w : World) (name : string) (f : File) :
  name <> "" -> Js.includes "/" name = false ->
  files w !! Js.join UPLOADS_DIR name = Some f ->
  let w' := snd (cleanupOldMediaFiles E w) in
  let oneDayAgo := nowAt E (S (S (tick w))) - 24 * 60 * 60 * 1000 in
  (name = ".gitkeep" -> files w' !! Js.join UPLOADS_DIR name = Some f)
  /\ (oneDayAgo <= mtimeMs f -> files w' !! Js.join UPLOADS_DIR name = Some f)
  /\ (forall t,
        supabase w = Some t ->
        storeError E (S (tick w)) = None ->
        ((exists r, In r (schedule t) /\ keepsAlive name r) ->
           files w' !! Js.join UPLOADS_DIR name = Some f)
        /\ (name <> ".gitkeep" ->
            ~ (exists r, In r (schedule t) /\ keepsAlive name r) ->
            mtimeMs f < oneDayAgo ->
            files w' !! Js.join UPLOADS_DIR name = None)).
Proof.
  intros Hne Hslash Hf w' oneDayAgo.
  destruct (supabase w) as [t|] eqn:Ht.
  - pose proof (cleanup_sweeps E w t Ht name f Hne Hslash Hf) as Hspec.
    fold w' oneDayAgo in Hspec. rewrite Hspec. unfold swept.
    split; [|split].
    + intros ->. reflexivity.
    + intros Hage. apply Z.ltb_ge in Hage. rewrite Hage. simpl. now rewrite andb_false_r.
    + intros t' [= <-] Hok. rewrite Hok. split.
      * intros Hlive. apply elem_of_activeMediaFiles in Hlive.
        rewrite (bool_decide_eq_true_2 _ Hlive). simpl.
        now rewrite andb_false_r, andb_false_r.
      * intros Hkeep Hdead Hage.
        destruct (String.eqb_spec name ".gitkeep"); [contradiction|].
        apply Z.ltb_lt in Hage. rewrite Hage.
        rewrite bool_decide_eq_false_2; [reflexivity|].
        intros Hlive. apply Hdead. now apply elem_of_activeMediaFiles.
  - subst w'. rewrite (cleanup_unconfigured E w Ht).
    split; [auto|]. split; [auto|]. intros t' Hnone. discriminate Hnone.
Qed.

(** C5, as the code has it. A file of the uploads directory always stays if
    it is the sentinel .gitkeep or if it was modified within the last 24
    hours. When the store is configured and answers the read, it also stays,
    whatever its age, if its name is the base name of the media_url of a
    pending row that does not begin with "http", and every other file of the
    directory is deleted. Without a store client the sweep deletes nothing. *)
Theorem sweep_keeps_active_media (E : Env) (w : World) (name : string) (f : File) :
  name <> "" -> Js.includes "/" name = false ->
  files w !! Js.join UPLOADS_DIR name = Some f ->
  let w' := snd (cleanupOldMediaFiles E w) in
  let oneDayAgo := nowAt E (S (S (tick w))) - 24 * 60 * 60 * 1000 in
  (name = ".gitkeep" -> files w' !! Js.join UPLOADS_DIR name = Some f)
  /\ (oneDayAgo <= mtimeMs f -> files w' !! Js.join UPLOADS_DIR name = Some f)
  /\ (forall t,
        supabase w = Some t ->
        storeError E (S (tick w)) = None ->
        ((exists r, In r (schedule t) /\ keepsAlive name r) ->
           files w' !! Js.join UPLOADS_DIR name = Some f)
        /\ (name <> ".gitkeep" ->
            ~ (exists r, In r (schedule t) /\ keepsAlive name r) ->
            mtimeMs f < oneDayAgo ->
            files w' !! Js.join UPLOADS_DIR name = None))
  /\ (supabase w = None -> files w' = files w).
Proof.
  intros Hne Hslash Hf w' oneDayAgo.
  destruct (sweep_file_fate E w name f Hne Hslash Hf) as (Hkeep & Hfresh & Hstore).
  split; [exact Hkeep|]. split; [exact Hfresh|]. split; [exact Hstore|].
  apply cleanup_unconfigured.
Qed.

Lemma sweep_keeps_active_media_witness :
  files (snd (cleanupOldMediaFiles Sample.calm
                (Sample.world [Sample.remote; Sample.local] Sample.uploads)))
    !! "/app/public/uploads/kept.jpg"
  = Some (mkFile 1600000000000 "JFIF")
  /\ files (snd (cleanupOldMediaFiles Sample.calm
                   (Sample.world [Sample.remote; Sample.local] Sample.uploads)))
       !! "/app/public/uploads/orphan.bin"
     = None.
Proof.
  split.
  - destruct (sweep_keeps_active_media Sample.calm
                (Sample.world [Sample.remote; Sample.local] Sample.uploads)
                "kept.jpg" (mkFile 1600000000000 "JFIF"))
      as (_ & _ & Hstore & _); [discriminate | reflexivity | reflexivity |].
    destruct (Hstore (mkTables [Sample.remote; Sample.local] []) eq_refl eq_refl)
      as [Hkept _].
    apply Hkept. exists Sample.local. split; [right; left; reflexivity|]. repeat split.
  - destruct (sweep_keeps_active_media Sample.calm
                (Sample.world [Sample.remote; Sample.local] Sample.uploads)
                "orphan.bin" (mkFile 1600000000000 "0000"))
      as (_ & _ & Hstore & _); [discriminate | reflexivity | reflexivity |].
    destruct (Hstore (mkTables [Sample.remote; Sample.local] []) eq_refl eq_refl)
      as [_ Hgone].
    apply Hgone.
    + discriminate.
    + intros (r & [<-|[<-|[]]] & Hlive); destruct Hlive as (_ & _ & Hh & Hb);
        vm_compute in Hh, Hb; discriminate.
    + vm_compute. reflexivity.
Defined.

(** C5 as stated fails: a pending row with the remote media_url
    "https://cdn.example.com/a.jpg" refers to the base name "a.jpg", and the
    sweep deletes the old file of that name in the uploads directory. *)
Lemma sweep_deletes_namesake_of_remote_media :
  ~ (forall (E : Env) (w : World) (name : string),
       (exists r, In r (scheduleOf w) /\ status r = pending
                  /\ Js.basename (Js.orEmpty (media_url r)) = name) ->
       files (snd (cleanupOldMediaFiles E w)) !! Js.join UPLOADS_DIR name
       = files w !! Js.join UPLOADS_DIR name).
Proof.
  intros H.
  specialize (H Sample.calm (Sample.world [Sample.remote] Sample.uploads) "a.jpg").
  assert (Hfalse : @None File = Some (mkFile 1600000000000 "JFIF")); [|discriminate Hfalse].
  etransitivity; [|etransitivity; [apply H|]].
  - vm_compute. reflexivity.
  - exists Sample.remote. split; [left; reflexivity|]. split; reflexivity.
  - vm_compute. reflexivity.
Qed.

(** ** The birthday trigger (C4) *)

Lemma dayNumber_next off x :
  Cal.dayNumber off (x + Cal.msPerDay) = Cal.dayNumber off x + 1.
Proof.
  unfold Cal.dayNumber, Cal.msPerDay.
  replace (x + 86400000 + off) with (x + off + 1 * 86400000) by lia.
  rewrite Z.div_add by lia. reflexivity.
Qed.

Lemma dayNumber_atMidnight off x :
  Cal.dayNumber off (Cal.atMidnightKeepMs off x) = Cal.dayNumber off x.
Proof.
  unfold Cal.atMidnightKeepMs, Cal.dayNumber, Cal.msPerDay.
  set (d := (x + off) / 86400000).
  pose proof (Z.mod_pos_bound (x + off) 1000 ltac:(lia)) as Hr.
  replace (d * 86400000 + (x + off) mod 1000 - off + off)
    with ((x + off) mod 1000 + d * 86400000) by lia.
  rewrite Z.div_add by lia. rewrite Z.div_small by lia. lia.
Qed.

(** on the wall clock of its zone the time is within the first second of
    the day: hour, minute and second are zero *)
Lemma atMidnight_time_of_day off x :
  0 <= (Cal.atMidnightKeepMs off x + off) mod Cal.msPerDay < 1000.
Proof.
  unfold Cal.atMidnightKeepMs, Cal.dayNumber, Cal.msPerDay.
  set (d := (x + off) / 86400000).
  pose proof (Z.mod_pos_bound (x + off) 1000 ltac:(lia)) as Hr.
  replace (d * 86400000 + (x + off) mod 1000 - off + off)
    with ((x + off) mod 1000 + d * 86400000) by lia.
  rewrite Z.mod_add by lia. rewrite Z.mod_small by lia. exact Hr.
Qed.

Lemma includes_append_r pat s1 s2 :
  Js.includes pat s2 = true -> Js.includes pat (s1 +:+ s2) = true.
Proof.
  intros H. induction s1 as [|c s1 IH]; [exact H|].
  change (Js.includes pat (String c (s1 +:+ s2)) = true).
  simpl. rewrite IH. apply orb_true_r.
Qed.

(** the message built without the model always has the marker *)
Lemma templateMessage_marker b age :
  Js.includes "birthday" (templateMessage b age) = true.
Proof.
  unfold templateMessage.
  repeat match goal with |- context [if ?c then _ else _] => destruct c end;
    (apply (includes_append_r "birthday" "Happy "), includes_append_r;
     vm_compute; reflexivity).
Qed.

Section BirthdayRuns.
Variable E : Env.

Lemma scheduleBirthday_skips pendingSchedule b w :
  alreadySent E (nowAt E (tick w)) pendingSchedule b = true ->
  scheduleBirthday E pendingSchedule b w = (Ret tt, w).
Proof.
  intros H. unfold scheduleBirthday, bind, newDate. now rewrite H.
Qed.

Lemma scheduleBirthday_adds pendingSchedule b w t :
  supabase w = Some t ->
  (forall tau, storeError E tau = None) ->
  alreadySent E (nowAt E (tick w)) pendingSchedule b = false ->
  exists w' row,
    scheduleBirthday E pendingSchedule b w = (Ret tt, w')
    /\ supabase w' = Some (mkTables (schedule t ++ [row]) (birthdays t))
    /\ recipient row = b_phone b
    /\ status row = pending
    /\ send_at row = messageTime (nowAt E (tick w))
    /\ media_url row = None
    /\ (Js.truthy (b_custom_message b) = true -> caption row = b_custom_message b)
    /\ (Js.truthy (b_custom_message b) = false -> genAI w = false ->
        caption row
        = Some (templateMessage b (ageText E b (nowAt E (tick w))))).
Proof.
  intros Ht Hstore Hfresh.
  unfold scheduleBirthday, bind at 1, newDate. rewrite Hfresh. simpl.
  destruct (Js.truthy (b_custom_message b)) eqn:Hcustom.
  - unfold bind, ret, addScheduleItems. simpl. rewrite Ht, Hstore. simpl.
    eexists _, _. split; [reflexivity|]. simpl. repeat split; try discriminate.
    intros _. destruct (b_custom_message b) as [s|]; [|discriminate].
    unfold insertedRow. cbn [caption n_caption].
    unfold Js.orNull, Js.orEmpty, Js.truthy in *.
    destruct (String.eqb s ""); [discriminate|reflexivity].
  - unfold bind at 1, generateBirthdayMessage.
    destruct (genAI w) eqn:Hg; simpl.
    + destruct (generateContent E (tick w) b (ageText E b (nowAt E (tick w)))) as [text|];
        unfold bind, ret, addScheduleItems; simpl; rewrite Ht, Hstore; simpl;
        (eexists _, _; split; [reflexivity|]; simpl; repeat split; discriminate).
    + unfold bind, ret, addScheduleItems. simpl. rewrite Ht, Hstore. simpl.
      eexists _, _. split; [reflexivity|]. simpl. repeat split; try discriminate.
      intros _ _. unfold insertedRow. cbn [caption n_caption]. unfold Js.orNull.
      assert (Hm : Js.truthy (Some (templateMessage b (ageText E b (nowAt E (tick w))))) = true).
      { simpl. destruct (String.eqb_spec (templateMessage b (ageText E b (nowAt E (tick w)))) "")
          as [Hempty|]; [|reflexivity].
        pose proof (templateMessage_marker b (ageText E b (nowAt E (tick w)))) as Hmark.
        rewrite Hempty in Hmark. discriminate Hmark. }
      now rewrite Hm.
Qed.

End BirthdayRuns.

Section BirthdayCheck.
Variable E : Env.
Hypothesis Hconn : forall tau, connectedAt E tau = true.
Hypothesis Hstore : forall tau, storeError E tau = None.

(** the check up to its loop, and what follows the loop *)
Lemma checkBirthdays_unfold w t :
  supabase w = Some t ->
  checkBirthdays E w
  = tryCatch
      (bind (forEachBirthday E (orderBySendAt (List.filter isPending (schedule t)))
               (birthdaysTomorrow E (nowAt E (tick w)) (birthdays t)))
            (fun _ => bind (getPendingSchedule E)
                        (fun allPending => emit (QueueUpdate (List.length allPending)))))
      (fun _ => ret tt) (awaited (awaited w)).
Proof.
  intros Ht. unfold checkBirthdays. rewrite Hconn.
  unfold isSupabaseConfigured. rewrite Ht. simpl.
  unfold tryCatch, bind at 1, newDate.
  unfold bind at 1, getBirthdaysByDate. rewrite Ht, Hstore.
  unfold bind at 1, getPendingSchedule at 1. simpl. rewrite Ht, Hstore.
  reflexivity.
Qed.

Lemma epilogue_keeps_store w :
  supabase (snd (bind (getPendingSchedule E)
                   (fun allPending => emit (QueueUpdate (List.length allPending))) w))
  = supabase w
  /\ exists u, bind (getPendingSchedule E)
                 (fun allPending => emit (QueueUpdate (List.length allPending))) w
               = (Ret tt, u).
Proof.
  unfold bind, getPendingSchedule, emit.
  destruct (supabase w) eqn:Ht; [rewrite Hstore|]; simpl; rewrite ?Ht; eauto.
Qed.

Hypothesis Hzone : localOffset E = Cal.colombo.
Variable day : Z.
Hypothesis Hday : forall tau, Cal.dayNumber Cal.colombo (nowAt E tau) = day.

(** the duplicate test of the source, in terms of the rows of the table *)
Lemma alreadySent_spec tau rows b :
  alreadySent E (nowAt E tau) (orderBySendAt (List.filter isPending rows)) b = true
  <-> wishPending day rows (b_phone b).
Proof.
  unfold alreadySent, wishPending. rewrite existsb_exists. split.
  - intros (r & Hr & Htest). apply In_pending in Hr. destruct Hr as [Hr Hst].
    apply andb_true_iff in Htest. destruct Htest as [Htest Hsame].
    apply andb_true_iff in Htest. destruct Htest as [Hrec Hmark].
    apply String.eqb_eq in Hrec. unfold Cal.isSameDay in Hsame. apply Z.eqb_eq in Hsame.
    rewrite Hzone, dayNumber_next, Hday in Hsame. exists r. auto.
  - intros (r & Hr & Hst & Hrec & Hmark & Hd). exists r.
    split; [apply In_pending; auto|].
    rewrite Hrec, String.eqb_refl, Hmark. simpl. unfold Cal.isSameDay. apply Z.eqb_eq.
    now rewrite Hzone, dayNumber_next, Hday.
Qed.

Lemma alreadySent_any tau tau' rows b :
  alreadySent E (nowAt E tau) (orderBySendAt (List.filter isPending rows)) b
  = alreadySent E (nowAt E tau') (orderBySendAt (List.filter isPending rows)) b.
Proof.
  pose proof (alreadySent_spec tau rows b) as H1.
  pose proof (alreadySent_spec tau' rows b) as H2.
  destruct (alreadySent E (nowAt E tau) _ b), (alreadySent E (nowAt E tau') _ b);
    try reflexivity.
  - symmetry. apply H2, H1. reflexivity.
  - apply H1, H2. reflexivity.
Qed.

Lemma birthdaysTomorrow_any tau tau' bs :
  birthdaysTomorrow E (nowAt E tau) bs = birthdaysTomorrow E (nowAt E tau') bs.
Proof. unfold birthdaysTomorrow, Cal.monthDay. now rewrite !dayNumber_next, !Hday. Qed.

Lemma scheduleBirthday_genAI pendingSchedule b w :
  genAI (snd (scheduleBirthday E pendingSchedule b w)) = genAI w.
Proof.
  unfold scheduleBirthday, bind at 1, newDate.
  destruct (negb (alreadySent E (nowAt E (tick w)) pendingSchedule b)); [|reflexivity].
  unfold bind, ret, generateBirthdayMessage, addScheduleItems.
  destruct (Js.truthy (b_custom_message b)); simpl.
  - destruct (supabase w); [destruct (storeError E (tick w))|]; reflexivity.
  - destruct (genAI w) eqn:Hg; simpl.
    + destruct (generateContent E (tick w) b _); simpl;
        (destruct (supabase w); [destruct (storeError E (S (tick w)))|]; simpl; exact Hg).
    + destruct (supabase w); [destruct (storeError E (tick w))|]; simpl; exact Hg.
Qed.

(** the loop appends one item for each entry the duplicate test lets through,
    in the order of the entries *)
Lemma forEachBirthday_appends rows bs : forall w t,
  supabase w = Some t ->
  exists added w',
    forEachBirthday E (orderBySendAt (List.filter isPending rows)) bs w = (Ret tt, w')
    /\ supabase w' = Some (mkTables (schedule t ++ added) (birthdays t))
    /\ genAI w' = genAI w
    /\ Forall2 (birthdayItem day (genAI w))
         (List.filter
            (fun b => negb (alreadySent E (nowAt E 0)
                              (orderBySendAt (List.filter isPending rows)) b)) bs)
         added.
Proof.
  induction bs as [|b rest IH]; intros w t Ht.
  - exists [], w. split; [reflexivity|]. rewrite app_nil_r.
    split; [destruct t; exact Ht|]. split; [reflexivity | constructor].
  - simpl forEachBirthday. simpl List.filter.
    rewrite (alreadySent_any 0 (tick w) rows b).
    destruct (alreadySent E (nowAt E (tick w))
                (orderBySendAt (List.filter isPending rows)) b) eqn:Hsent.
    + unfold bind at 1. rewrite (scheduleBirthday_skips E _ b w Hsent). simpl negb.
      cbv iota. apply IH. exact Ht.
    + destruct (scheduleBirthday_adds E _ b w t Ht Hstore Hsent)
        as (w1 & row & Hrun & Hsup & Hrec & Hst & Hat & _ & Hcustom & Htemplate).
      pose proof (scheduleBirthday_genAI (orderBySendAt (List.filter isPending rows)) b w)
        as Hg.
      rewrite Hrun in Hg. simpl in Hg.
      destruct (IH w1 _ Hsup) as (added & w2 & Hloop & Hsup2 & Hg2 & Hall).
      exists (row :: added), w2.
      unfold bind at 1. rewrite Hrun.
      split; [exact Hloop|].
      split; [rewrite Hsup2; simpl; now rewrite <- app_assoc|].
      split; [congruence|].
      simpl negb. cbv iota. constructor; [|now rewrite <- Hg].
      split; [exact Hrec|]. split; [exact Hst|].
      split; [rewrite Hat; unfold messageTime;
              now rewrite dayNumber_atMidnight, dayNumber_next, Hday|].
      split; [rewrite Hat; apply atMidnight_time_of_day|].
      split; [exact Hcustom|].
      intros Hc Hai. rewrite (Htemplate Hc Hai). apply templateMessage_marker.
Qed.

(** one run of the check, for any table *)
Lemma checkBirthdays_appends w t :
  supabase w = Some t ->
  exists added,
    supabase (snd (checkBirthdays E w))
    = Some (mkTables (schedule t ++ added) (birthdays t))
    /\ Forall2 (birthdayItem day (genAI w))
         (List.filter
            (fun b => negb (alreadySent E (nowAt E (tick w))
                              (orderBySendAt (List.filter isPending (schedule t))) b))
            (birthdaysTomorrow E (nowAt E (tick w)) (birthdays t)))
         added.
Proof.
  intros Ht. rewrite (checkBirthdays_unfold w t Ht).
  destruct (forEachBirthday_appends (schedule t)
              (birthdaysTomorrow E (nowAt E (tick w)) (birthdays t))
              (awaited (awaited w)) t Ht)
    as (added & w3 & Hloop & Hsup & _ & Hall).
  exists added. split.
  - unfold tryCatch, bind at 1. rewrite Hloop.
    destruct (epilogue_keeps_store w3) as (Hkeep & u & Hu).
    rewrite Hu in Hkeep |- *. simpl in *. congruence.
  - erewrite List.filter_ext; [exact Hall|].
    intros b. simpl. now rewrite (alreadySent_any (tick w) 0).
Qed.

End BirthdayCheck.

Lemma filter_none {A} (p : A -> bool) (l : list A) :
  (forall x, In x l -> p x = false) -> List.filter p l = [].
Proof.
  induction l as [|x l IH]; simpl; intros H; [reflexivity|].
  rewrite (H x) by now left. apply IH. intros y Hy. apply H. now right.
Qed.

Lemma Forall2_In_l {A B} (P : A -> B -> Prop) l k x :
  Forall2 P l k -> In x l -> exists y, In y k /\ P x y.
Proof.
  induction 1 as [|a b l k Hab _ IH]; simpl; [tauto|].
  intros [->|Hin]; [eauto|]. destruct (IH Hin) as (y & Hy & Hp). eauto.
Qed.

Lemma Forall2_In_r {A B} (P : A -> B -> Prop) l k y :
  Forall2 P l k -> In y k -> exists x, In x l /\ P x y.
Proof.
  induction 1 as [|a b l k Hab _ IH]; simpl; [tauto|].
  intros [->|Hin]; [eauto|]. destruct (IH Hin) as (x & Hx & Hp). eauto.
Qed.

Lemma birthdayItem_count day ai phone fresh added :
  Forall2 (birthdayItem day ai) fresh added ->
  List.length (List.filter (fun r => String.eqb (recipient r) phone) added)
  = List.length (List.filter (fun b => String.eqb (b_phone b) phone) fresh).
Proof.
  induction 1 as [|b row fresh added [Hrec _] _ IH]; simpl; [reflexivity|].
  rewrite Hrec. destruct (String.eqb (b_phone b) phone); simpl; now rewrite IH.
Qed.

(** C4, as the code has it. With the transport up, the store answering, the
    process in the Colombo zone and the clock within one Colombo day, a run
    of the birthday check appends to the schedule one pending item for every
    birthday entry that matches the next day and for whose phone no pending
    item with "birthday" in the caption is due on that day: in the order of
    the entries, one item per entry, so exactly one for a phone that one such
    entry has; each is due on the next day at hour 0, minute 0, second 0
    Colombo time, with the custom message as caption if there is one, else
    (without the model) the template text, which has the word "birthday".
    For a phone that then has a pending item with "birthday" in the caption
    due on that day, a further run, with the store as the first run left it,
    appends nothing; when every appended caption has the word, a further run
    appends nothing at all. *)
Theorem birthday_enqueued_once (E : Env) (w : World) (t : Tables) :
  (forall tau, connectedAt E tau = true) ->
  (forall tau, storeError E tau = None) ->
  localOffset E = Cal.colombo ->
  (forall tau, Cal.dayNumber Cal.colombo (nowAt E tau)
               = Cal.dayNumber Cal.colombo (nowAt E (tick w))) ->
  supabase w = Some t ->
  let day := Cal.dayNumber Cal.colombo (nowAt E (tick w)) in
  let matching := birthdaysTomorrow E (nowAt E (tick w)) (birthdays t) in
  let w1 := snd (checkBirthdays E w) in
  exists fresh added,
    fresh = List.filter
              (fun b => negb (alreadySent E (nowAt E (tick w))
                                (orderBySendAt (List.filter isPending (schedule t))) b))
              matching
    /\ (forall b, In b fresh <->
                  In b matching /\ ~ wishPending day (schedule t) (b_phone b))
    /\ scheduleOf w1 = schedule t ++ added
    /\ Forall2 (birthdayItem day (genAI w)) fresh added
    /\ (forall phone,
          List.length (List.filter (fun r => String.eqb (recipient r) phone) added)
          = List.length (List.filter (fun b => String.eqb (b_phone b) phone) fresh))
    /\ (forall phone w2,
          wishPending day (scheduleOf w1) phone ->
          supabase w2 = supabase w1 ->
          exists added2,
            scheduleOf (snd (checkBirthdays E w2)) = scheduleOf w1 ++ added2
            /\ Forall (fun r => recipient r <> phone) added2)
    /\ (forall row w2,
          In row added ->
          Js.includes "birthday" (Js.orEmpty (caption row)) = true ->
          supabase w2 = supabase w1 ->
          exists added2,
            scheduleOf (snd (checkBirthdays E w2)) = scheduleOf w1 ++ added2
            /\ Forall (fun r => recipient r <> recipient row) added2)
    /\ (Forall (fun r => Js.includes "birthday" (Js.orEmpty (caption r)) = true) added ->
        forall w2, supabase w2 = supabase w1 ->
                   scheduleOf (snd (checkBirthdays E w2)) = scheduleOf w1).
Proof.
  intros Hconn Hstore Hzone Hday Ht day matching w1.
  destruct (checkBirthdays_appends E Hconn Hstore Hzone day Hday w t Ht)
    as (added & Hsup & Hall).
  fold matching in Hall. fold w1 in Hsup.
  assert (Hs1 : scheduleOf w1 = schedule t ++ added)
    by (unfold scheduleOf; now rewrite Hsup).
  assert (Hfresh : forall rows tau b,
             In b (List.filter
                     (fun b => negb (alreadySent E (nowAt E tau)
                                       (orderBySendAt (List.filter isPending rows)) b))
                     matching)
             <-> In b matching /\ ~ wishPending day rows (b_phone b)).
  { intros rows tau b. rewrite filter_In, negb_true_iff.
    rewrite <- (alreadySent_spec E Hzone day Hday tau rows b).
    destruct (alreadySent E (nowAt E tau) _ b); intuition congruence. }
  assert (Hagain : forall w2,
             supabase w2 = supabase w1 ->
             exists added2,
               scheduleOf (snd (checkBirthdays E w2)) = scheduleOf w1 ++ added2
               /\ Forall2 (birthdayItem day (genAI w2))
                    (List.filter
                       (fun b => negb (alreadySent E (nowAt E (tick w2))
                                         (orderBySendAt
                                            (List.filter isPending (schedule t ++ added))) b))
                       matching)
                    added2).
  { intros w2 Hw2. rewrite Hsup in Hw2.
    destruct (checkBirthdays_appends E Hconn Hstore Hzone day Hday w2 _ Hw2)
      as (added2 & Hsup2 & Hall2).
    exists added2. split; [unfold scheduleOf at 1; now rewrite Hsup2, Hs1|].
    simpl in Hall2.
    now rewrite (birthdaysTomorrow_any E day Hday (tick w2) (tick w)) in Hall2. }
  exists (List.filter
            (fun b => negb (alreadySent E (nowAt E (tick w))
                              (orderBySendAt (List.filter isPending (schedule t))) b))
            matching), added.
  split; [reflexivity|]. split; [intros b; apply Hfresh|].
  split; [exact Hs1|]. split; [exact Hall|].
  split; [intros phone; now apply (birthdayItem_count day (genAI w))|].
  assert (Hphones : forall phone w2,
             wishPending day (scheduleOf w1) phone ->
             supabase w2 = supabase w1 ->
             exists added2,
               scheduleOf (snd (checkBirthdays E w2)) = scheduleOf w1 ++ added2
               /\ Forall (fun r => recipient r <> phone) added2).
  { intros phone w2 Hwish Hw2. destruct (Hagain w2 Hw2) as (added2 & Hs2 & Hall2).
    exists added2. split; [exact Hs2|].
    apply Forall_forall. intros r Hr Hphone. apply list_elem_of_In in Hr.
    destruct (Forall2_In_r _ _ _ r Hall2 Hr) as (b' & Hb' & Hitem).
    apply Hfresh in Hb'. destruct Hb' as [_ Hnot]. apply Hnot.
    destruct Hitem as [Hrec _]. rewrite <- Hrec, Hphone. now rewrite <- Hs1. }
  split; [exact Hphones|]. split.
  - intros row w2 Hrow Hmark Hw2. apply Hphones; [|exact Hw2].
    destruct (Forall2_In_r _ _ _ row Hall Hrow) as (b & _ & Hitem).
    destruct Hitem as (_ & Hst & Hd & _).
    exists row. rewrite Hs1. split; [apply in_or_app; now right|]. auto.
  - intros Hmarks w2 Hw2. destruct (Hagain w2 Hw2) as (added2 & Hs2 & Hall2).
    rewrite (filter_none _ matching) in Hall2.
    + apply Forall2_nil_inv_l in Hall2. subst added2. now rewrite Hs2, app_nil_r.
    + intros b Hb. apply negb_false_iff.
      apply (alreadySent_spec E Hzone day Hday).
      destruct (alreadySent E (nowAt E (tick w))
                  (orderBySendAt (List.filter isPending (schedule t))) b) eqn:Hsent.
      * apply (alreadySent_spec E Hzone day Hday) in Hsent.
        destruct Hsent as (r & Hr & Hrest). exists r.
        split; [apply in_or_app; now left | exact Hrest].
      * assert (Hin : In b (List.filter
                              (fun b => negb (alreadySent E (nowAt E (tick w))
                                                (orderBySendAt
                                                   (List.filter isPending (schedule t))) b))
                              matching))
          by (apply filter_In; split; [exact Hb | now rewrite Hsent]).
        destruct (Forall2_In_l _ _ _ b Hall Hin) as (row & Hrow & Hitem).
        destruct Hitem as (Hrec & Hst & Hd & _).
        exists row. split; [apply in_or_app; now right|].
        repeat split; try assumption.
        rewrite Forall_forall in Hmarks. apply Hmarks. now apply list_elem_of_In.
Qed.

Lemma birthday_enqueued_once_witness :
  exists first second,
    map recipient
      (scheduleOf (snd (checkBirthdays Sample.frozen
                          (Sample.calendar [Sample.amal; Sample.nimal]))))
    = first
    /\ List.length first = 2%nat
    /\ scheduleOf (snd (checkBirthdays Sample.frozen
                          (snd (checkBirthdays Sample.frozen
                                  (Sample.calendar [Sample.amal; Sample.nimal])))))
       = scheduleOf (snd (checkBirthdays Sample.frozen
                            (Sample.calendar [Sample.amal; Sample.nimal])))
         ++ second
    /\ Forall (fun r => recipient r <> "94772222222") second.
Proof.
  destruct (birthday_enqueued_once Sample.frozen
              (Sample.calendar [Sample.amal; Sample.nimal])
              (mkTables [] [Sample.amal; Sample.nimal])
              (fun _ => eq_refl) (fun _ => eq_refl) eq_refl (fun _ => eq_refl) eq_refl)
    as (fresh & added & Hfresh & _ & Hs1 & Hall & _ & Hagain & _ & _).
  assert (Hf : fresh = [Sample.amal; Sample.nimal]) by (rewrite Hfresh; reflexivity).
  rewrite Hf in Hall.
  apply Forall2_cons_inv_l in Hall. destruct Hall as (r1 & rest & _ & Hall & ->).
  apply Forall2_cons_inv_l in Hall. destruct Hall as (r2 & rest' & Hitem & Hall & ->).
  apply Forall2_nil_inv_l in Hall. subst rest'.
  destruct Hitem as (Hrec & Hst & Hd & _ & _ & Hmark).
  destruct (Hagain "94772222222"
              (snd (checkBirthdays Sample.frozen
                      (Sample.calendar [Sample.amal; Sample.nimal]))))
    as (second & Hs2 & Hnone); [|reflexivity|].
  { rewrite Hs1. exists r2. split; [right; left; reflexivity|].
    split; [exact Hst|]. split; [exact Hrec|].
    split; [now apply Hmark | exact Hd]. }
  eexists _, second. split; [reflexivity|]. split; [now rewrite Hs1|].
  split; [exact Hs2 | exact Hnone].
Defined.

(** C4 as stated fails: for an entry whose custom message lacks the word
    "birthday", with an empty schedule, the first run of the check enqueues
    one item and the second run, with that item still pending, enqueues one
    more. *)
Lemma birthday_without_marker_enqueued_twice :
  birthdaysTomorrow Sample.frozen 1700000000000 [Sample.amal] = [Sample.amal]
  /\ scheduleOf (Sample.calendar [Sample.amal]) = []
  /\ List.length
       (scheduleOf (snd (checkBirthdays Sample.frozen (Sample.calendar [Sample.amal]))))
     = 1%nat
  /\ List.map status
       (scheduleOf
          (snd (checkBirthdays Sample.frozen
                  (snd (checkBirthdays Sample.frozen (Sample.calendar [Sample.amal]))))))
     = [pending; pending]
  /\ List.map recipient
       (scheduleOf
          (snd (checkBirthdays Sample.frozen
                  (snd (checkBirthdays Sample.frozen (Sample.calendar [Sample.amal]))))))
     = ["94771111111"; "94771111111"].
Proof.
  repeat split; vm_compute; reflexivity.
Qed.

(** * Further properties of the code *)

(** ** The schedule queries *)

Lemma insertBySendAt_perm r l : insertBySendAt r l ≡ₚ r :: l.
Proof.
  induction l as [|x l IH]; simpl; [reflexivity|].
  destruct (send_at r <=? send_at x); [reflexivity|].
  rewrite IH. apply Permutation_swap.
Qed.

Lemma orderBySendAt_perm l : orderBySendAt l ≡ₚ l.
Proof.
  unfold orderBySendAt. induction l as [|x l IH]; simpl; [reflexivity|].
  rewrite insertBySendAt_perm. now rewrite IH.
Qed.

Lemma insertBySendAt_sorted r l :
  StronglySorted (fun a b => send_at a <= send_at b) l ->
  StronglySorted (fun a b => send_at a <= send_at b) (insertBySendAt r l).
Proof.
  induction l as [|x l IH]; simpl; intros Hs.
  - constructor; [constructor|constructor].
  - apply StronglySorted_inv in Hs. destruct Hs as [Hs Hx].
    destruct (Z.leb_spec (send_at r) (send_at x)) as [Hle|Hgt].
    + constructor; [constructor; assumption|].
      constructor; [exact Hle|].
      eapply Forall_impl; [exact Hx|]. intros y Hy. simpl in Hy. lia.
    + constructor; [now apply IH|].
      rewrite insertBySendAt_perm. constructor; [lia|exact Hx].
Qed.

Lemma orderBySendAt_sorted l :
  StronglySorted (fun a b => send_at a <= send_at b) (orderBySendAt l).
Proof.
  unfold orderBySendAt. induction l as [|x l IH]; simpl; [constructor|].
  now apply insertBySendAt_sorted.
Qed.

(** X1. [getPendingSchedule] writes nothing and returns rows in ascending
    order of send_at, all of them pending rows of the table; when the store
    is configured and answers, they are the pending rows, each as often as
    the table has it. Without a client, and when the store reports an error,
    it returns the empty list. *)
Theorem getPendingSchedule_sorted (E : Env) (w : World) :
  exists items w',
    getPendingSchedule E w = (Ret items, w')
    /\ (supabase w' = supabase w /\ files w' = files w /\ wire w' = wire w
        /\ emitted w' = emitted w /\ sendingInProgress w' = sendingInProgress w)
    /\ StronglySorted (fun a b => send_at a <= send_at b) items
    /\ (forall r, In r items -> In r (scheduleOf w) /\ status r = pending)
    /\ (isSupabaseConfigured w = true -> storeError E (tick w) = None ->
        items ≡ₚ List.filter isPending (scheduleOf w))
    /\ (isSupabaseConfigured w = false -> items = [])
    /\ (storeError E (tick w) <> None -> items = []).
Proof.
  unfold getPendingSchedule, isSupabaseConfigured, scheduleOf.
  destruct (supabase w) as [t|] eqn:Ht.
  - destruct (storeError E (tick w)) as [m|].
    + exists [], (awaited w). split; [reflexivity|]. split; [simpl; auto|].
      split; [constructor|]. split; [intros r []|].
      split; [intros _ H; discriminate H|]. auto.
    + exists (orderBySendAt (List.filter isPending (schedule t))), (awaited w).
      split; [reflexivity|]. split; [simpl; auto|].
      split; [apply orderBySendAt_sorted|]. split; [|split; [|split]].
      * intros r Hr. now apply In_pending.
      * intros _ _. apply orderBySendAt_perm.
      * discriminate.
      * intros H. contradiction.
  - exists [], w. split; [reflexivity|]. split; [auto|].
    split; [constructor|]. split; [intros r []|].
    split; [intros H; discriminate H|]. auto.
Qed.

Lemma getPendingSchedule_sorted_witness :
  exists items,
    fst (getPendingSchedule Sample.calm
           (Sample.world [Sample.later; Sample.done_; Sample.hi] ∅)) = Ret items
    /\ items ≡ₚ [Sample.later; Sample.hi].
Proof.
  destruct (getPendingSchedule_sorted Sample.calm
              (Sample.world [Sample.later; Sample.done_; Sample.hi] ∅))
    as (items & w' & Hrun & _ & _ & _ & Hperm & _).
  exists items. split; [now rewrite Hrun|]. exact (Hperm eq_refl eq_refl).
Defined.

Lemma imap_insertedRow_field {B} (g : Row -> B) (h : NewItem -> B) E t items :
  (forall k it, g (insertedRow E t k it) = h it) ->
  map g (imap (insertedRow E t) items) = map h items.
Proof.
  intros Hgh.
  change (g <$> imap (insertedRow E t) items = h <$> items).
  rewrite fmap_imap, <- imap_const. apply imap_ext. intros k it _. simpl. apply Hgh.
Qed.

(** X2. When the store takes the insert, [addScheduleItems] appends one row
    per item after the rows that were there, gives those rows back, and every
    new row is pending with no error, no sent_at and a retry counter of 0,
    with the recipient and due time of its item. From then on, as long as the
    store is as the insert left it, the due-item selector returns a new row
    exactly when its due time has come, and the pending query returns it. *)
Theorem inserted_items_become_due (E : Env) (w : World) (t : Tables) (items : list NewItem) :
  supabase w = Some t ->
  storeError E (tick w) = None ->
  exists rows w1,
    addScheduleItems E items w = (Ret rows, w1)
    /\ scheduleOf w1 = schedule t ++ rows
    /\ map recipient rows = map n_recipient items
    /\ map send_at rows = map sendAt items
    /\ Forall (fun r => status r = pending /\ error r = None
                        /\ retry_count r = 0 /\ sent_at r = None) rows
    /\ (forall w2 r,
          supabase w2 = supabase w1 ->
          storeError E (tick w2) = None ->
          In r rows ->
          (forall due, fst (getDueScheduleItems E w2) = Ret due ->
                       (In r due <-> send_at r <= nowAt E (tick w2)))
          /\ (forall pend, fst (getPendingSchedule E w2) = Ret pend -> In r pend)).
Proof.
  intros Ht Hok. unfold addScheduleItems. rewrite Ht, Hok.
  eexists _, _. split; [reflexivity|].
  assert (Hnew : Forall (fun r => status r = pending /\ error r = None
                                  /\ retry_count r = 0 /\ sent_at r = None)
                   (imap (insertedRow E (tick w)) items)).
  { apply Forall_forall. intros r Hr. apply elem_of_lookup_imap in Hr.
    destruct Hr as (k & it & -> & _). repeat split. }
  split; [reflexivity|].
  split; [now apply imap_insertedRow_field|].
  split; [now apply imap_insertedRow_field|].
  split; [exact Hnew|].
  intros w2 r Hw2 Hok2 Hr. simpl in Hw2.
  assert (Hst : status r = pending).
  { apply list_elem_of_In in Hr. rewrite Forall_forall in Hnew.
    now destruct (Hnew r Hr). }
  assert (Hin : In r (schedule t ++ imap (insertedRow E (tick w)) items))
    by (apply in_or_app; now right).
  split.
  - intros due. unfold getDueScheduleItems. rewrite Hw2, Hok2. simpl. intros [= <-].
    rewrite filter_In, isDue_spec. tauto.
  - intros pend. unfold getPendingSchedule. rewrite Hw2, Hok2. simpl. intros [= <-].
    now apply In_pending.
Qed.

Lemma inserted_items_become_due_witness :
  exists rows w1,
    addScheduleItems Sample.calm
      [mkNewItem "b1" "94770000000" (Some "hi") None None 1700000000005]
      (Sample.world [] ∅) = (Ret rows, w1)
    /\ map recipient rows = ["94770000000"].
Proof.
  destruct (inserted_items_become_due Sample.calm (Sample.world [] ∅) (mkTables [] [])
              [mkNewItem "b1" "94770000000" (Some "hi") None None 1700000000005]
              eq_refl eq_refl) as (rows & w1 & Hrun & _ & Hrec & _).
  exists rows, w1. split; [exact Hrun | exact Hrec].
Defined.

(** ** Clearing and updating *)

Lemma isFinished_pending r : negb (isFinished r) = isPending r.
Proof. unfold isFinished, isPending. destruct (status r); reflexivity. Qed.

Lemma filter_length_split {A} (p : A -> bool) (l : list A) :
  (List.length (List.filter p l)
   + List.length (List.filter (fun x => negb (p x)) l) = List.length l)%nat.
Proof. induction l as [|x l IH]; simpl; [reflexivity|]. destruct (p x); simpl; lia. Qed.

Lemma filter_filter_implied {A} (p q : A -> bool) (l : list A) :
  (forall x, q x = true -> p x = true) ->
  List.filter q (List.filter p l) = List.filter q l.
Proof.
  intros Hqp. induction l as [|x l IH]; simpl; [reflexivity|].
  destruct (p x) eqn:Hp; simpl; [now rewrite IH|].
  destruct (q x) eqn:Hq; [|exact IH]. apply Hqp in Hq. congruence.
Qed.

(** X3. When the store takes the delete, [clearFinishedSchedule] reports the
    number of rows that were sent or failed and leaves exactly the pending
    rows, in their order: the count and the rows left add up to the table,
    the rows due at any time are the same before and after, the birthdays are
    kept, and clearing again right away reports 0 and changes nothing. *)
Theorem clearFinishedSchedule_keeps_pending (E : Env) (w : World) (t : Tables) :
  supabase w = Some t ->
  storeError E (tick w) = None ->
  exists n w1,
    clearFinishedSchedule E w = (Ret n, w1)
    /\ scheduleOf w1 = List.filter isPending (schedule t)
    /\ (n + List.length (scheduleOf w1) = List.length (schedule t))%nat
    /\ (forall now, List.filter (isDue now) (scheduleOf w1)
                    = List.filter (isDue now) (schedule t))
    /\ birthdaysOf w1 = birthdays t
    /\ (files w1 = files w /\ wire w1 = wire w /\ emitted w1 = emitted w)
    /\ (storeError E (tick w1) = None ->
        exists w2, clearFinishedSchedule E w1 = (Ret O, w2)
                   /\ supabase w2 = supabase w1).
Proof.
  intros Ht Hok. unfold clearFinishedSchedule at 1. rewrite Ht, Hok.
  assert (Hleft : List.filter (fun r => negb (isFinished r)) (schedule t)
                  = List.filter isPending (schedule t))
    by (apply List.filter_ext; intros r; apply isFinished_pending).
  eexists _, _. split; [reflexivity|].
  unfold scheduleOf, birthdaysOf. simpl. rewrite Hleft.
  split; [reflexivity|].
  split; [rewrite <- Hleft; apply filter_length_split|].
  split.
  { intros now. apply filter_filter_implied. intros r Hr.
    unfold isDue in Hr. apply andb_true_iff in Hr. tauto. }
  split; [reflexivity|].
  split; [repeat split|].
  intros Hok1. unfold clearFinishedSchedule. simpl. simpl in Hok1. rewrite Hok1.
  assert (Hnone : List.filter isFinished (List.filter isPending (schedule t)) = []).
  { apply filter_none. intros r Hr. apply filter_In in Hr. destruct Hr as [_ Hr].
    rewrite <- isFinished_pending in Hr. now apply negb_true_iff in Hr. }
  assert (Hall : List.filter (fun r => negb (isFinished r))
                   (List.filter isPending (schedule t))
                 = List.filter isPending (schedule t)).
  { rewrite <- Hleft. apply filter_filter_implied. auto. }
  rewrite Hnone, Hall. eexists. split; reflexivity.
Qed.

Lemma clearFinishedSchedule_keeps_pending_witness :
  exists n w1,
    clearFinishedSchedule Sample.calm
      (Sample.world [Sample.hi; Sample.later; Sample.done_] ∅) = (Ret n, w1)
    /\ scheduleOf w1 = [Sample.hi; Sample.later].
Proof.
  destruct (clearFinishedSchedule_keeps_pending Sample.calm
              (Sample.world [Sample.hi; Sample.later; Sample.done_] ∅)
              (mkTables [Sample.hi; Sample.later; Sample.done_] [])
              eq_refl eq_refl) as (n & w1 & Hrun & Hrows & _).
  exists n, w1. split; [exact Hrun | exact Hrows].
Defined.

Lemma updateWhereId_evolves (touched : string -> Prop) i st err sentAt rows :
  touched i ->
  Forall2 (fun r r' => frozenColumns r' = frozenColumns r
                       /\ (~ touched (id r) -> r' = r))
          rows (updateWhereId i st err sentAt rows).
Proof.
  intros Hi. induction rows as [|r rows IH]; simpl; constructor; [|exact IH].
  destruct (String.eqb (id r) i) eqn:Hr.
  - apply String.eqb_eq in Hr. split; [reflexivity|]. intros Hn. subst i. contradiction.
  - split; reflexivity.
Qed.

Lemma updateWhereId_unknown i st err sentAt rows :
  (forall r, In r rows -> id r <> i) -> updateWhereId i st err sentAt rows = rows.
Proof.
  induction rows as [|r rows IH]; simpl; intros H; [reflexivity|].
  destruct (String.eqb (id r) i) eqn:Hr.
  - apply String.eqb_eq in Hr. exfalso. apply (H r); [now left | exact Hr].
  - f_equal. apply IH. intros x Hx. apply H. now right.
Qed.

(** X4. [updateScheduleStatus] never adds, removes or reorders rows: every row
    keeps its id, batch, recipient, caption, media, due time, retry counter
    and creation time, and a row with another id is not changed at all. It
    answers true exactly when the client is configured and the store answers,
    also when no row has the id, in which case the table is as it was. It
    touches neither the files, nor the transport, nor the observers. *)
Theorem updateScheduleStatus_frame (E : Env) (w : World) (i : string)
    (st : Status) (err : option string) (sentAt : option Z) :
  exists ok w',
    updateScheduleStatus E i st err sentAt w = (Ret ok, w')
    /\ Forall2 (fun r r' => frozenColumns r' = frozenColumns r
                            /\ (id r <> i -> r' = r))
               (scheduleOf w) (scheduleOf w')
    /\ (ok = true <-> isSupabaseConfigured w = true /\ storeError E (tick w) = None)
    /\ ((forall r, In r (scheduleOf w) -> id r <> i) -> supabase w' = supabase w)
    /\ birthdaysOf w' = birthdaysOf w
    /\ (files w' = files w /\ wire w' = wire w /\ emitted w' = emitted w
        /\ sendingInProgress w' = sendingInProgress w).
Proof.
  assert (Hsame : forall l : list Row,
             Forall2 (fun r r' => frozenColumns r' = frozenColumns r
                                  /\ (id r <> i -> r' = r)) l l).
  { induction l; constructor; auto. }
  unfold updateScheduleStatus, scheduleOf, birthdaysOf, isSupabaseConfigured.
  destruct (supabase w) as [t|] eqn:Ht.
  - destruct (storeError E (tick w)) as [m|] eqn:Hok.
    + eexists _, _. split; [reflexivity|]. simpl. rewrite Ht.
      split; [apply Hsame|]. split; [split; [discriminate | intros [_ H]; discriminate]|].
      repeat split.
    + eexists _, _. split; [reflexivity|]. simpl.
      split.
      { eapply Forall2_impl; [apply (updateWhereId_evolves (fun j => j = i)); reflexivity|].
        simpl. intros r r' [H1 H2]. split; [exact H1|exact H2]. }
      split; [tauto|].
      split; [intros Hno; now rewrite updateWhereId_unknown; [destruct t|]|].
      repeat split.
  - eexists _, _. split; [reflexivity|]. rewrite Ht.
    split; [constructor|]. split; [split; [discriminate | intros [H _]; discriminate]|].
    repeat split.
Qed.

Lemma updateScheduleStatus_frame_witness :
  exists w',
    updateScheduleStatus Sample.calm "nobody" failed (Some "lost") None
      (Sample.world [Sample.hi; Sample.later] ∅) = (Ret true, w')
    /\ supabase w' = Some (mkTables [Sample.hi; Sample.later] []).
Proof.
  destruct (updateScheduleStatus_frame Sample.calm
              (Sample.world [Sample.hi; Sample.later] ∅) "nobody" failed (Some "lost") None)
    as (ok & w' & Hrun & _ & Hok & Hsame & _).
  exists w'. split.
  - rewrite Hrun. f_equal. f_equal. apply Hok. split; reflexivity.
  - rewrite Hsame; [reflexivity|].
    intros r [<-|[<-|[]]]; discriminate.
Defined.

(** ** What a worker run may change *)

Lemma frozenColumns_id r r' : frozenColumns r' = frozenColumns r -> id r' = id r.
Proof. unfold frozenColumns. intros H. now inversion H. Qed.

Section Evolving.
Variable touched : string -> Prop.

Lemma rows_evolve_refl (l : list Row) :
  Forall2 (fun r r' => frozenColumns r' = frozenColumns r
                       /\ (~ touched (id r) -> r' = r)) l l.
Proof. induction l; constructor; auto. Qed.

(** a change of the state that leaves the store, the transport, the files
    and the observers alone *)
Lemma Evolved_quiet w w' :
  supabase w' = supabase w -> wire w' = wire w -> files w' = files w ->
  emitted w' = emitted w -> Evolved touched w w'.
Proof.
  intros Hs Hw Hf He. unfold Evolved, scheduleOf, isSupabaseConfigured, birthdaysOf.
  rewrite Hs, Hw, Hf, He.
  split; [apply rows_evolve_refl|]. split; [reflexivity|]. split; [reflexivity|].
  split; [exists []; split; [now rewrite app_nil_r | constructor]|].
  split; [reflexivity|]. exists []. now rewrite app_nil_r.
Qed.

Lemma Evolved_refl w : Evolved touched w w.
Proof. now apply Evolved_quiet. Qed.

Lemma Evolved_trans a b c :
  Evolved touched a b -> Evolved touched b c -> Evolved touched a c.
Proof.
  intros (R1 & C1 & B1 & (l1 & W1 & T1) & F1 & (e1 & E1))
         (R2 & C2 & B2 & (l2 & W2 & T2) & F2 & (e2 & E2)).
  split.
  { eapply Forall2_trans; [|exact R1|exact R2].
    simpl. intros x y z [Hxy Hx] [Hyz Hy]. split; [congruence|].
    intros Hn. rewrite Hy; [now apply Hx|].
    rewrite (frozenColumns_id _ _ Hxy). exact Hn. }
  split; [congruence|]. split; [congruence|].
  split.
  { exists (l1 ++ l2). split; [rewrite W2, W1; now rewrite app_assoc|].
    apply Forall_app. split; assumption. }
  split; [etransitivity; eassumption|].
  exists (e1 ++ e2). rewrite E2, E1. now rewrite app_assoc.
Qed.

Lemma Evolved_wire i w jid p :
  touched i -> Evolved touched w (set_wire (wire w ++ [mkSendCall i jid p]) w).
Proof.
  intros Hi.
  split; [apply rows_evolve_refl|]. split; [reflexivity|]. split; [reflexivity|].
  split; [eexists; split; [reflexivity | constructor; [exact Hi | constructor]]|].
  split; [reflexivity|]. exists []. simpl. now rewrite app_nil_r.
Qed.

Lemma Evolved_update i w t st err sentAt :
  touched i -> supabase w = Some t ->
  Evolved touched w
    (set_supabase
       (Some (mkTables (updateWhereId i st err sentAt (schedule t)) (birthdays t))) w).
Proof.
  intros Hi Ht. unfold Evolved, scheduleOf, isSupabaseConfigured, birthdaysOf.
  simpl. rewrite Ht.
  split; [now apply updateWhereId_evolves|]. split; [reflexivity|]. split; [reflexivity|].
  split; [exists []; split; [now rewrite app_nil_r | constructor]|].
  split; [reflexivity|]. exists []. now rewrite app_nil_r.
Qed.

Lemma Evolved_unlink w p : Evolved touched w (set_files (delete p (files w)) w).
Proof.
  split; [apply rows_evolve_refl|]. split; [reflexivity|]. split; [reflexivity|].
  split; [exists []; split; [simpl; now rewrite app_nil_r | constructor]|].
  split; [apply delete_subseteq|]. exists []. simpl. now rewrite app_nil_r.
Qed.

Lemma Evolved_emit w e : Evolved touched w (set_emitted (emitted w ++ [e]) w).
Proof.
  split; [apply rows_evolve_refl|]. split; [reflexivity|]. split; [reflexivity|].
  split; [exists []; split; [simpl; now rewrite app_nil_r | constructor]|].
  split; [reflexivity|]. eexists. reflexivity.
Qed.

Lemma Evolved_forOf E items total n :
  Forall (fun item => touched (id item)) items ->
  Preserves (Evolved touched) (forOf E total n items).
Proof.
  apply touched_forOf with (touched := touched).
  - exact Evolved_refl.
  - exact Evolved_trans.
  - intros w. now apply Evolved_quiet.
  - exact Evolved_unlink.
  - exact Evolved_emit.
  - intros. now apply Evolved_wire.
  - intros. now apply Evolved_update.
Qed.

Lemma Evolved_epilogue E :
  Preserves (Evolved touched)
    (allPending <- getPendingSchedule E ;; emit (QueueUpdate (List.length allPending)))%js.
Proof.
  apply Preserves_bind; [exact Evolved_trans | | intros a w; apply Evolved_emit].
  apply Preserves_getPendingSchedule; [exact Evolved_refl|].
  intros w. now apply Evolved_quiet.
Qed.

End Evolving.

Lemma Evolved_drain E w : Evolved (dueId E w) w (snd (drain E w)).
Proof.
  unfold drain, bind at 1, getDueScheduleItems.
  destruct (supabase w) as [t|] eqn:Ht; [|apply Evolved_refl].
  destruct (storeError E (tick w)); [now apply Evolved_quiet|].
  destruct (List.filter (isDue (nowAt E (tick w))) (schedule t)) as [|x l] eqn:Hdue;
    [now apply Evolved_quiet|].
  assert (Hall : Forall (fun item => dueId E w (id item)) (x :: l)).
  { apply Forall_forall. intros r Hr. apply list_elem_of_In in Hr.
    rewrite <- Hdue in Hr. apply filter_In in Hr. destruct Hr as [Hin Hr].
    exists r. unfold scheduleOf. rewrite Ht. auto. }
  pose proof (Evolved_forOf (dueId E w) E (x :: l) (List.length (x :: l)) 0 Hall (awaited w))
    as Hloop.
  pose proof (Evolved_epilogue (dueId E w) E) as Hepi.
  assert (H0 : Evolved (dueId E w) w (awaited w)) by now apply Evolved_quiet.
  unfold bind at 1.
  destruct (forOf E (List.length (x :: l)) 0 (x :: l) (awaited w)) as [[c|m] w1];
    simpl in Hloop |- *.
  - eapply Evolved_trans; [exact H0|]. eapply Evolved_trans; [exact Hloop|]. apply Hepi.
  - eapply Evolved_trans; [exact H0 | exact Hloop].
Qed.

Lemma Evolved_processQueue E w : Evolved (dueId E w) w (snd (processQueue E w)).
Proof.
  rewrite processQueue_alone.
  destruct (negb (connectedAt E (tick w))); [apply Evolved_refl|].
  destruct (sendingInProgress w); [apply Evolved_refl|].
  destruct (negb (isSupabaseConfigured w)); [apply Evolved_refl|].
  unfold tryFinally, tryCatch.
  pose proof (Evolved_drain E (set_sendingInProgress true w)) as Hd.
  change (dueId E (set_sendingInProgress true w)) with (dueId E w) in Hd.
  assert (H0 : Evolved (dueId E w) w (set_sendingInProgress true w))
    by now apply Evolved_quiet.
  destruct (drain E (set_sendingInProgress true w)) as [[[]|m] w1]; simpl in Hd |- *;
    (eapply Evolved_trans; [exact H0|]; eapply Evolved_trans; [exact Hd|];
     now apply Evolved_quiet).
Qed.

Lemma idle_run E w :
  (forall r, In r (scheduleOf w) -> isDue (nowAt E (tick w)) r = false) ->
  let w' := snd (processQueue E w) in
  supabase w' = supabase w /\ wire w' = wire w /\ files w' = files w
  /\ emitted w' = emitted w.
Proof.
  intros Hnone. rewrite processQueue_alone.
  destruct (negb (connectedAt E (tick w))); [simpl; auto|].
  destruct (sendingInProgress w); [simpl; auto|].
  destruct (negb (isSupabaseConfigured w)); [simpl; auto|].
  unfold tryFinally, tryCatch, drain, bind, getDueScheduleItems. simpl.
  unfold scheduleOf in Hnone.
  destruct (supabase w) as [t|] eqn:Ht; [|simpl; auto].
  destruct (storeError E (tick w)); [simpl; auto|].
  rewrite (filter_none _ _ Hnone). simpl. auto.
Qed.

(** X5. Whatever the transport, the store and the clock do, a worker run
    never adds, removes or reorders rows, and of a row it keeps the id, batch,
    recipient, caption, media, due time, creation time and the retry counter:
    it writes status, error and sent_at only. A row whose id is not the id of
    a row due when the run starts is left exactly as it is, and every
    transport call of the run is made for the id of such a due row. The
    birthdays are left alone, files are at most removed, events are only
    added. When no row is due, the run changes neither store, nor transport,
    nor files, nor events. *)
Theorem run_changes_only_due_rows (E : Env) (w : World) :
  let w' := snd (processQueue E w) in
  Forall2 (fun r r' => frozenColumns r' = frozenColumns r
                       /\ (~ dueId E w (id r) -> r' = r))
          (scheduleOf w) (scheduleOf w')
  /\ birthdaysOf w' = birthdaysOf w
  /\ (exists calls, wire w' = wire w ++ calls
                    /\ Forall (fun c => dueId E w (for_item c)) calls)
  /\ files w' ⊆ files w
  /\ (exists events, emitted w' = emitted w ++ events)
  /\ ((forall r, In r (scheduleOf w) -> isDue (nowAt E (tick w)) r = false) ->
      supabase w' = supabase w /\ wire w' = wire w /\ files w' = files w
      /\ emitted w' = emitted w).
Proof.
  intros w'. destruct (Evolved_processQueue E w) as (Hrows & _ & Hb & Hcalls & Hf & He).
  repeat (split; [assumption|]). apply idle_run.
Qed.

Lemma run_changes_only_due_rows_witness :
  wire (snd (processQueue Sample.calm (Sample.world [Sample.later; Sample.done_] ∅))) = [].
Proof.
  destruct (run_changes_only_due_rows Sample.calm
              (Sample.world [Sample.later; Sample.done_] ∅))
    as (_ & _ & _ & _ & _ & Hidle).
  destruct Hidle as (_ & Hwire & _); [|exact Hwire].
  intros r [<-|[<-|[]]]; reflexivity.
Defined.

Lemma rows_evolve_ids (touched : string -> Prop) (l l' : list Row) :
  Forall2 (fun r r' => frozenColumns r' = frozenColumns r
                       /\ (~ touched (id r) -> r' = r)) l l' ->
  map id l' = map id l.
Proof.
  induction 1 as [|r r' l l' [H _] _ IH]; simpl; [reflexivity|].
  now rewrite IH, (frozenColumns_id _ _ H).
Qed.

Lemma rows_evolve_In (touched : string -> Prop) (l l' : list Row) r :
  Forall2 (fun r r' => frozenColumns r' = frozenColumns r
                       /\ (~ touched (id r) -> r' = r)) l l' ->
  In r l -> ~ touched (id r) -> In r l'.
Proof.
  induction 1 as [|x x' l l' [_ H] _ IH]; simpl; [tauto|].
  intros [->|Hin] Hn; [left; now apply H | right; now apply IH].
Qed.

Lemma same_id_same_row (rows : list Row) a b :
  NoDup (map id rows) -> In a rows -> In b rows -> id a = id b -> a = b.
Proof.
  intros Hnd Ha Hb Hid.
  pose proof (find_by_unique_id rows a Hnd Ha) as H1.
  pose proof (find_by_unique_id rows b Hnd Hb) as H2.
  rewrite Hid in H1. congruence.
Qed.

Lemma run_leaves_row E w r :
  NoDup (map id (scheduleOf w)) ->
  In r (scheduleOf w) ->
  isDue (nowAt E (tick w)) r = false ->
  let w' := snd (processQueue E w) in
  In r (scheduleOf w') /\ NoDup (map id (scheduleOf w'))
  /\ callsFor (id r) w' = callsFor (id r) w.
Proof.
  intros Hnd Hin Hdue w'.
  destruct (Evolved_processQueue E w) as (Hrows & _ & _ & (calls & Hw & Hcalls) & _).
  fold w' in Hrows, Hw.
  assert (Hno : ~ dueId E w (id r)).
  { intros (r2 & Hin2 & Hdue2 & Hid).
    rewrite (same_id_same_row _ _ _ Hnd Hin2 Hin Hid) in Hdue2. congruence. }
  split; [eapply rows_evolve_In; eassumption|].
  split; [now rewrite (rows_evolve_ids _ _ _ Hrows)|].
  unfold callsFor. rewrite Hw, List.filter_app.
  rewrite (filter_none _ calls); [apply app_nil_r|].
  intros c Hc. rewrite Forall_forall in Hcalls.
  destruct (String.eqb (for_item c) (id r)) eqn:Heq; [|reflexivity].
  apply String.eqb_eq in Heq. exfalso. apply Hno. rewrite <- Heq.
  apply Hcalls. now apply list_elem_of_In.
Qed.

Lemma finished_not_due now r : status r <> pending -> isDue now r = false.
Proof. unfold isDue, isPending. destruct (status r); [congruence | reflexivity..]. Qed.

Lemma finished_rows_stay E n : forall w r,
  NoDup (map id (scheduleOf w)) ->
  In r (scheduleOf w) ->
  status r <> pending ->
  In r (scheduleOf (runs E n w)) /\ NoDup (map id (scheduleOf (runs E n w)))
  /\ callsFor (id r) (runs E n w) = callsFor (id r) w.
Proof.
  induction n as [|n IH]; intros w r Hnd Hin Hst; simpl; [auto|].
  destruct (run_leaves_row E w r Hnd Hin (finished_not_due _ r Hst)) as (Hin' & Hnd' & Hc).
  destruct (IH _ r Hnd' Hin' Hst) as (Hin'' & Hnd'' & Hc'').
  split; [exact Hin''|]. split; [exact Hnd''|]. congruence.
Qed.

(** X6. With unique ids in the table: a row that is not due when a worker
    run starts (sent, failed, or pending with a later due time) is in the
    table after the run exactly as it was, and no transport call was made for
    it; a row that is sent or failed stays as it is, with no further
    transport call, through any number of worker runs. *)
Theorem rows_not_due_are_left_alone (E : Env) (w : World) :
  NoDup (map id (scheduleOf w)) ->
  (forall r, In r (scheduleOf w) -> isDue (nowAt E (tick w)) r = false ->
     rowById (id r) (snd (processQueue E w)) = Some r
     /\ callsFor (id r) (snd (processQueue E w)) = callsFor (id r) w)
  /\ (forall n r, In r (scheduleOf w) -> status r <> pending ->
        rowById (id r) (runs E n w) = Some r
        /\ callsFor (id r) (runs E n w) = callsFor (id r) w).
Proof.
  intros Hnd. split.
  - intros r Hin Hdue.
    destruct (run_leaves_row E w r Hnd Hin Hdue) as (Hin' & Hnd' & Hc).
    split; [|exact Hc]. unfold rowById. now apply find_by_unique_id.
  - intros n r Hin Hst.
    destruct (finished_rows_stay E n w r Hnd Hin Hst) as (Hin' & Hnd' & Hc).
    split; [|exact Hc]. unfold rowById. now apply find_by_unique_id.
Qed.

Lemma rows_not_due_are_left_alone_witness :
  rowById "c" (runs Sample.timingOut 3
                 (Sample.world [Sample.hi; Sample.later; Sample.done_] ∅))
  = Some Sample.done_.
Proof.
  assert (Hnd : NoDup (map id (scheduleOf
                   (Sample.world [Sample.hi; Sample.later; Sample.done_] ∅)))).
  { apply (bool_decide_unpack _). vm_compute. exact I. }
  destruct (rows_not_due_are_left_alone Sample.timingOut _ Hnd) as [_ Hfin].
  destruct (Hfin 3%nat Sample.done_) as [Hrow _]; [| |exact Hrow].
  - right. right. left. reflexivity.
  - discriminate.
Defined.

(** ** The dispatch and what follows it *)

Section Dispatching.
Variable E : Env.
Variable item : Row.
Variables total n : nat.

(** up to the dispatch: the checks and the load *)
Lemma deliver_dispatched jid w p :
  dispatched E w item = Some p ->
  deliver E total n item jid w
  = bind (sendMessage E (id item) jid p)
         (fun _ => afterSend E total n item (Js.truthy (media_url item)) (mediaPath item))
         (afterLoad item w).
Proof.
  unfold dispatched, deliver, afterLoad, mediaPath.
  destruct (Js.truthy (media_url item)); simpl.
  - unfold mediaContent, sendMedia.
    destruct (Js.isHttpScheme (localOrHttp (Js.orEmpty (media_url item)))); simpl.
    + intros [= <-]. reflexivity.
    + destruct (files w !! localOrHttp (Js.orEmpty (media_url item))) as [f|] eqn:Hf;
        [|discriminate].
      simpl. intros [= <-].
      unfold bind at 1, tryCatch, bind at 1, access. rewrite Hf.
      unfold bind at 1, readFile. simpl. rewrite Hf. reflexivity.
  - destruct (Js.truthy (caption item)); [|discriminate].
    intros [= <-]. reflexivity.
Qed.

Lemma afterLoad_quiet w :
  supabase (afterLoad item w) = supabase w /\ wire (afterLoad item w) = wire w
  /\ files (afterLoad item w) = files w /\ emitted (afterLoad item w) = emitted w.
Proof. unfold afterLoad. destruct (_ && _); repeat split. Qed.

(** a dispatch the transport rejects with an error that is not retryable *)
Lemma iteration_rejected w p m :
  connectedAt E (tick w) = true ->
  validRecipient item = true ->
  dispatched E w item = Some p ->
  sendOutcome E (tick (afterLoad item w)) (jidOf E item) p = Some m ->
  isRetryableError (errorMessageOf m) = false ->
  iteration E total n item w
  = failed_ E item (errorMessageOf m) (errorMessageOf m)
      (awaited (set_wire (wire (afterLoad item w)
                          ++ [mkSendCall (id item) (jidOf E item) p])
                         (afterLoad item w))).
Proof.
  intros Hconn Hvalid Hp Hsend Hno. unfold iteration, tryCatch.
  rewrite (attempt_valid E item total n w Hconn Hvalid).
  rewrite (deliver_dispatched _ _ _ Hp). unfold bind at 1.
  rewrite (sendMessage_rejects E item _ _ _ _ Hsend).
  unfold onSendFailure. rewrite Hno. reflexivity.
Qed.

(** a dispatch the transport accepts *)
Lemma iteration_accepted w p :
  connectedAt E (tick w) = true ->
  validRecipient item = true ->
  dispatched E w item = Some p ->
  sendOutcome E (tick (afterLoad item w)) (jidOf E item) p = None ->
  iteration E total n item w
  = tryCatch (afterSend E total n item (Js.truthy (media_url item)) (mediaPath item))
             (onSendFailure E item)
      (awaited (set_wire (wire (afterLoad item w)
                          ++ [mkSendCall (id item) (jidOf E item) p])
                         (afterLoad item w))).
Proof.
  intros Hconn Hvalid Hp Hsend. unfold iteration, tryCatch.
  rewrite (attempt_valid E item total n w Hconn Hvalid).
  rewrite (deliver_dispatched _ _ _ Hp). unfold bind at 1.
  rewrite (sendMessage_resolves E item _ _ _ Hsend). reflexivity.
Qed.

(** what the lines after a dispatch do to the files, when the store takes
    the update *)
Lemma afterSend_files hasMedia path w :
  isSupabaseConfigured w = true ->
  storeError E (tick w) = None ->
  files (snd (afterSend E total n item hasMedia path w))
  = if hasMedia && negb (String.eqb path "") && negb (Js.isHttpScheme path)
    then delete path (files w) else files w.
Proof.
  intros Hc Hok. destruct (configured_tables w Hc) as [t Ht].
  unfold afterSend, bind, newDate, updateScheduleStatus, emit, ret, tryCatch, unlink, delay.
  rewrite Ht, Hok. simpl.
  destruct (hasMedia && negb (String.eqb path "") && negb (Js.isHttpScheme path)); simpl.
  - destruct (files w !! path) eqn:Hf; simpl;
      destruct (n <? total)%nat; simpl; try reflexivity;
      symmetry; now apply delete_id.
  - destruct (n <? total)%nat; reflexivity.
Qed.

End Dispatching.

(** ** Recipients (C6) *)

Lemma callsFor_wire_app i w w' calls :
  wire w' = wire w ++ calls ->
  callsFor i w' = callsFor i w ++ List.filter (fun c => String.eqb (for_item c) i) calls.
Proof. intros H. unfold callsFor. now rewrite H, List.filter_app. Qed.

Lemma isDigit_decimal c : Js.isDigit c = isDecimalDigit c.
Proof. destruct c as [[] [] [] [] [] [] [] []]; reflexivity. Qed.

(** the replace of the source strips exactly the characters that are not
    decimal digits *)
Lemma keepDigits_digitsOf s : Js.keepDigits s = digitsOf s.
Proof.
  unfold digitsOf. induction s as [|c s IH]; [reflexivity|].
  simpl. rewrite isDigit_decimal. destruct (isDecimalDigit c); simpl; now rewrite IH.
Qed.

(** C6. In a worker run that gets to an item: the phone-like recipient is
    normalised by stripping every character that is not a decimal digit (the
    "+" is among the characters dropped); with fewer than 10 digits left the
    item is marked failed with "Invalid phone number: too short", the
    iteration ends there and no transport call is made for it; every
    transport call made for an item is addressed to its resolved identifier,
    which for a group recipient is the recipient verbatim and otherwise is
    made of the digits; and an item that is a group or keeps at least 10
    digits, and whose content loads, is handed to the transport exactly once,
    at that identifier. *)
Theorem recipient_resolution (E : Env) (w wk : World) (item : Row) (total n : nat) :
  reaches E w item total n wk ->
  let w' := snd (processQueue E w) in
  phoneOf item = digitsOf (recipient item)
  /\ (isGroup item = false ->
      (String.length (digitsOf (recipient item)) < 10)%nat ->
      storeError E (tick wk) = None ->
      (exists wk', iteration E total n item wk = (Ret Next, wk') /\ wire wk' = wire wk)
      /\ rowById (id item) w'
         = Some (applyUpdates failed (Some "Invalid phone number: too short") None item)
      /\ callsFor (id item) w' = callsFor (id item) w)
  /\ (exists calls,
        callsFor (id item) w' = callsFor (id item) w ++ calls
        /\ Forall (fun c => to_jid c = jidOf E item) calls)
  /\ (forall p,
        isGroup item = true \/ (10 <= String.length (digitsOf (recipient item)))%nat ->
        dispatched E wk item = Some p ->
        callsFor (id item) w'
        = callsFor (id item) w ++ [mkSendCall (id item) (jidOf E item) p])
  /\ (isGroup item = true -> jidOf E item = recipient item)
  /\ (isGroup item = false ->
      jidOf E item
      = jidNormalizedUser E (digitsOf (recipient item) +:+ "@s.whatsapp.net")).
Proof.
  intros Hreach w'.
  pose proof (run_after_item E w wk item total n Hreach) as (_ & [Hrow Hcalls] & _).
  fold w' in Hrow, Hcalls.
  assert (Hphone : phoneOf item = digitsOf (recipient item))
    by (rewrite phoneOf_digits; apply keepDigits_digitsOf).
  split; [exact Hphone|]. split; [|split; [|split; [|split]]].
  - intros Hgroup Hlen Hok.
    assert (Hshort : (String.length (phoneOf item) < 10)%nat) by now rewrite Hphone.
    destruct (failed__stored E item "Invalid phone number: too short"
                "Invalid phone number" wk
                (reaches_configured E w wk item total n Hreach) Hok)
      as (wk' & Hrun & Hrow' & Hwire & _).
    assert (Hit : iteration E total n item wk = (Ret Next, wk')).
    { unfold iteration, tryCatch.
      rewrite (attempt_too_short E item total n wk
                 (reaches_connected E w wk item total n Hreach) Hgroup Hshort).
      now rewrite Hrun. }
    rewrite Hit in Hrow, Hcalls. simpl in Hrow, Hcalls.
    split; [exists wk'; auto|]. split.
    + rewrite Hrow, Hrow', (reaches_row E w wk item total n Hreach). reflexivity.
    + rewrite Hcalls. unfold callsFor. rewrite Hwire.
      exact (reaches_calls E w wk item total n Hreach).
  - destruct (CallsAdded_callsFor E item wk _ (CallsAdded_iteration E item total n wk))
      as (calls & Hc & Hall).
    exists calls. split; [|exact Hall].
    rewrite Hcalls, Hc. now rewrite (reaches_calls E w wk item total n Hreach).
  - intros p Hok Hp.
    assert (Hvalid : validRecipient item = true).
    { unfold validRecipient. destruct Hok as [->|Hlen]; [reflexivity|].
      rewrite Hphone. apply orb_true_iff. right. now apply Nat.leb_le. }
    assert (Hwire : wire (snd (iteration E total n item wk))
                    = wire wk ++ [mkSendCall (id item) (jidOf E item) p]).
    { destruct (afterLoad_quiet item wk) as (_ & Hw0 & _).
      rewrite <- Hw0.
      rewrite <- (dispatch_calls E item total n (jidOf E item) p
                    (Js.truthy (media_url item)) (mediaPath item) (afterLoad item wk)).
      unfold iteration, tryCatch.
      rewrite (attempt_valid E item total n wk
                 (reaches_connected E w wk item total n Hreach) Hvalid).
      now rewrite (deliver_dispatched E item total n (jidOf E item) wk p Hp). }
    rewrite Hcalls, (callsFor_wire_app _ _ _ _ Hwire). simpl.
    rewrite String.eqb_refl.
    now rewrite (reaches_calls E w wk item total n Hreach).
  - intros Hgroup. unfold jidOf. now rewrite Hgroup.
  - intros Hgroup. unfold jidOf. now rewrite Hgroup, Hphone.
Qed.

Lemma recipient_resolution_witness :
  callsFor "p"
    (snd (processQueue Sample.calm
            (Sample.world [Sample.textRow "p" "+94 (77) 000-0000" "hello" pending None] ∅)))
  = [mkSendCall "p" "94770000000@s.whatsapp.net" (Text "hello")]
  /\ rowById "s"
       (snd (processQueue Sample.calm
               (Sample.world [Sample.textRow "s" "+94-77 12" "hello" pending None] ∅)))
     = Some (Sample.textRow "s" "+94-77 12" "hello" failed
               (Some "Invalid phone number: too short")).
Proof.
  split.
  - assert (Hreach : reaches Sample.calm
              (Sample.world [Sample.textRow "p" "+94 (77) 000-0000" "hello" pending None] ∅)
              (Sample.textRow "p" "+94 (77) 000-0000" "hello" pending None) 1 1
              (awaited (set_sendingInProgress true
                 (Sample.world
                    [Sample.textRow "p" "+94 (77) 000-0000" "hello" pending None] ∅)))).
    { only_due_row. }
    destruct (recipient_resolution Sample.calm _ _ _ 1 1 Hreach)
      as (_ & _ & _ & Hcall & _).
    apply (Hcall (Text "hello")); [right; vm_compute; lia | reflexivity].
  - assert (Hreach : reaches Sample.calm
              (Sample.world [Sample.textRow "s" "+94-77 12" "hello" pending None] ∅)
              (Sample.textRow "s" "+94-77 12" "hello" pending None) 1 1
              (awaited (set_sendingInProgress true
                 (Sample.world [Sample.textRow "s" "+94-77 12" "hello" pending None] ∅)))).
    { only_due_row. }
    destruct (recipient_resolution Sample.calm _ _ _ 1 1 Hreach) as (_ & Hshort & _).
    destruct Hshort as (_ & Hrow & _); [reflexivity | vm_compute; lia | reflexivity |].
    exact Hrow.
Defined.

(** X7. In a worker run that gets to an item whose recipient passes the
    checks and whose content loads, and whose dispatch the transport rejects
    with an error the retry classifier does not accept: the item is marked
    failed with the error message ("Error" for an empty one), its sent_at and
    retry counter are as before, exactly one transport call was made for it,
    the observers are told of the failure, no file is removed (a local media
    file stays), and the loop goes on with the next item. *)
Theorem rejected_dispatch_is_terminal (E : Env) (w wk : World) (item : Row)
    (total n : nat) (p : Payload) (m : string) :
  reaches E w item total n wk ->
  validRecipient item = true ->
  dispatched E wk item = Some p ->
  sendOutcome E (tick (afterLoad item wk)) (jidOf E item) p = Some m ->
  isRetryableError (errorMessageOf m) = false ->
  storeError E (S (tick (afterLoad item wk))) = None ->
  let w' := snd (processQueue E w) in
  (exists r,
     rowById (id item) w' = Some r
     /\ status r = failed
     /\ error r = Some (errorMessageOf m)
     /\ sent_at r = sent_at item
     /\ retry_count r = retry_count item)
  /\ callsFor (id item) w'
     = callsFor (id item) w ++ [mkSendCall (id item) (jidOf E item) p]
  /\ (exists wk',
        iteration E total n item wk = (Ret Next, wk')
        /\ files wk' = files wk
        /\ emitted wk'
           = emitted wk ++ [QueueItem (id item) failed (Some (errorMessageOf m))]).
Proof.
  intros Hreach Hvalid Hp Hsend Hno Hok w'.
  pose proof (run_after_item E w wk item total n Hreach) as (_ & [Hrow Hcalls] & _).
  fold w' in Hrow, Hcalls.
  pose proof (reaches_configured E w wk item total n Hreach) as Hc.
  destruct (afterLoad_quiet item wk) as (Hs0 & Hw0 & Hf0 & He0).
  set (w1 := awaited (set_wire (wire (afterLoad item wk)
                                ++ [mkSendCall (id item) (jidOf E item) p])
                               (afterLoad item wk))).
  assert (Hc1 : isSupabaseConfigured w1 = true).
  { unfold isSupabaseConfigured in *. simpl. now rewrite Hs0. }
  destruct (failed__stored E item (errorMessageOf m) (errorMessageOf m) w1 Hc1 Hok)
    as (wk' & Hrun & Hrow' & Hwire & Hfiles & Hemit).
  assert (Hit : iteration E total n item wk = (Ret Next, wk')).
  { rewrite (iteration_rejected E item total n wk p m
               (reaches_connected E w wk item total n Hreach) Hvalid Hp Hsend Hno).
    exact Hrun. }
  rewrite Hit in Hrow, Hcalls. simpl in Hrow, Hcalls.
  assert (Hrow1 : rowById (id item) w1 = Some item).
  { unfold rowById, scheduleOf. simpl. rewrite Hs0.
    exact (reaches_row E w wk item total n Hreach). }
  split; [|split].
  - exists (applyUpdates failed (Some (errorMessageOf m)) None item).
    split; [now rewrite Hrow, Hrow', Hrow1|].
    split; [reflexivity|]. split; [|split; reflexivity].
    simpl. unfold errorMessageOf. destruct (String.eqb_spec m ""); [reflexivity|].
    simpl. destruct (String.eqb_spec m ""); [contradiction|reflexivity].
  - rewrite Hcalls. unfold callsFor. rewrite Hwire. simpl. rewrite Hw0.
    rewrite List.filter_app. simpl. rewrite String.eqb_refl.
    fold (callsFor (id item) wk).
    now rewrite (reaches_calls E w wk item total n Hreach).
  - exists wk'. split; [exact Hit|]. split.
    + rewrite Hfiles. simpl. exact Hf0.
    + rewrite Hemit. simpl. now rewrite He0.
Qed.

Lemma rejected_dispatch_is_terminal_witness :
  exists r,
    rowById "a"
      (snd (processQueue
              (mkEnv (fun _ => true) (fun _ _ _ => Some "not-authorized") (fun _ => None)
                     (fun _ => 1700000000000) (fun jid => jid) (fun _ => None)
                     (fun _ _ => "row") (fun _ => "batch") (fun _ _ _ => None) Cal.colombo)
              (Sample.world [Sample.hi] ∅))) = Some r
    /\ status r = failed
    /\ error r = Some "not-authorized".
Proof.
  set (E := mkEnv (fun _ => true) (fun _ _ _ => Some "not-authorized") (fun _ => None)
                  (fun _ => 1700000000000) (fun jid => jid) (fun _ => None)
                  (fun _ _ => "row") (fun _ => "batch") (fun _ _ _ => None) Cal.colombo).
  assert (Hreach : reaches E (Sample.world [Sample.hi] ∅) Sample.hi 1 1
            (awaited (set_sendingInProgress true (Sample.world [Sample.hi] ∅)))).
  { only_due_row. }
  destruct (rejected_dispatch_is_terminal E _ _ _ 1 1 (Text "hi") "not-authorized" Hreach)
    as ((r & Hr & Hst & Herr & _) & _); try reflexivity.
  exists r. auto.
Defined.

(** X8. In a worker run that gets to an item with neither media nor caption
    (null or empty) and a recipient that passes the checks: the item is
    marked failed with "No message content", nothing is handed to the
    transport, the observers are told, and the loop goes on with the next
    item. *)
Theorem item_without_content_fails (E : Env) (w wk : World) (item : Row) (total n : nat) :
  reaches E w item total n wk ->
  validRecipient item = true ->
  Js.truthy (media_url item) = false ->
  Js.truthy (caption item) = false ->
  storeError E (tick wk) = None ->
  let w' := snd (processQueue E w) in
  (exists r,
     rowById (id item) w' = Some r
     /\ status r = failed
     /\ error r = Some "No message content"
     /\ retry_count r = retry_count item)
  /\ callsFor (id item) w' = callsFor (id item) w
  /\ (exists wk',
        iteration E total n item wk = (Ret Next, wk')
        /\ wire wk' = wire wk
        /\ emitted wk'
           = emitted wk ++ [QueueItem (id item) failed (Some "No message content")]).
Proof.
  intros Hreach Hvalid Hmedia Hcap Hok w'.
  pose proof (run_after_item E w wk item total n Hreach) as (_ & [Hrow Hcalls] & _).
  fold w' in Hrow, Hcalls.
  pose proof (reaches_configured E w wk item total n Hreach) as Hc.
  destruct (failed__stored E item "No message content" "No message content" wk Hc Hok)
    as (wk' & Hrun & Hrow' & Hwire & _ & Hemit).
  assert (Hit : iteration E total n item wk = (Ret Next, wk')).
  { unfold iteration, tryCatch.
    rewrite (attempt_valid E item total n wk
               (reaches_connected E w wk item total n Hreach) Hvalid).
    unfold deliver. rewrite Hmedia, Hcap. now rewrite Hrun. }
  rewrite Hit in Hrow, Hcalls. simpl in Hrow, Hcalls.
  split; [|split].
  - exists (applyUpdates failed (Some "No message content") None item).
    split; [|repeat split].
    now rewrite Hrow, Hrow', (reaches_row E w wk item total n Hreach).
  - rewrite Hcalls. unfold callsFor. rewrite Hwire.
    exact (reaches_calls E w wk item total n Hreach).
  - exists wk'. auto.
Qed.

Lemma item_without_content_fails_witness :
  exists r,
    rowById "e"
      (snd (processQueue Sample.calm
              (Sample.world
                 [mkRow "e" None "94770000000" (Some "") None None 1699999999000
                        pending None 0 None 0] ∅))) = Some r
    /\ status r = failed
    /\ error r = Some "No message content".
Proof.
  assert (Hreach : reaches Sample.calm
            (Sample.world
               [mkRow "e" None "94770000000" (Some "") None None 1699999999000
                      pending None 0 None 0] ∅)
            (mkRow "e" None "94770000000" (Some "") None None 1699999999000
                   pending None 0 None 0) 1 1
            (awaited (set_sendingInProgress true
               (Sample.world
                  [mkRow "e" None "94770000000" (Some "") None None 1699999999000
                         pending None 0 None 0] ∅)))).
  { only_due_row. }
  destruct (item_without_content_fails Sample.calm _ _ _ 1 1 Hreach)
    as ((r & Hr & Hst & Herr & _) & _); try reflexivity.
  exists r. auto.
Defined.

(** ** Uploaded media *)

(** from the iteration on an item to the end of the run, rows keep their
    places and frozen columns, and files are at most removed *)
Lemma run_after_item_evolved E w wk item total n :
  reaches E w item total n wk ->
  Evolved (fun _ => True) (snd (iteration E total n item wk)) (snd (processQueue E w)).
Proof.
  intros (t & pre & post & Hconn & Hidle & Ht & Hok & Hnd & Hdue & Htot & Hn & Hpre & _).
  rewrite processQueue_alone. rewrite Hconn, Hidle. unfold isSupabaseConfigured. rewrite Ht. simpl.
  unfold tryFinally, tryCatch, drain, bind at 1.
  unfold getDueScheduleItems at 1. simpl. rewrite Ht, Hok, Hdue.
  assert (Hcons : exists x l, pre ++ item :: post = x :: l)
    by (destruct pre; simpl; eauto).
  destruct Hcons as (x & l & Hcons). rewrite Hcons. rewrite <- Hcons. clear x l Hcons.
  unfold bind at 1. rewrite <- Htot. rewrite forOf_app, Hpre. simpl forOf.
  rewrite <- Hn.
  assert (Hall : Forall (fun r : Row => True) post) by (apply Forall_forall; auto).
  pose proof (Evolved_forOf (fun _ => True) E post total n Hall) as Hloop.
  pose proof (Evolved_epilogue (fun _ => True) E) as Hepi.
  assert (Hflag : forall w0 b, Evolved (fun _ => True) w0 (set_sendingInProgress b w0))
    by (intros; now apply Evolved_quiet).
  destruct (iteration E total n item wk) as [[[|]|m] w1]; simpl.
  - specialize (Hloop w1).
    destruct (forOf E total n post w1) as [[c|m] w2]; simpl in *.
    + specialize (Hepi w2). unfold bind in Hepi |- *.
      destruct (getPendingSchedule E w2) as [[a|m] w3]; simpl in *;
        (eapply Evolved_trans; [exact Hloop|];
         eapply Evolved_trans; [exact Hepi|]; apply Hflag).
    + eapply Evolved_trans; [exact Hloop|]. apply Hflag.
  - specialize (Hepi w1). unfold bind in Hepi |- *.
    destruct (getPendingSchedule E w1) as [[a|m] w3]; simpl in *;
      (eapply Evolved_trans; [exact Hepi|]; apply Hflag).
  - apply Hflag.
Qed.

Lemma normalize_nonempty p : Js.normalize p <> "".
Proof.
  unfold Js.normalize.
  destruct (String.eqb p ""); [discriminate|].
  destruct (String.eqb_spec
              (Js.joinWith "/"
                 (Js.normalizeSegments (negb (Js.startsWith "/" p)) [] (Js.segments "" p)))
              "") as [_|Hne].
  - destruct (Js.startsWith "/" p); [discriminate|].
    destruct (match Js.lastChar p with Some c => Ascii.eqb c "/" | None => false end);
      discriminate.
  - destruct (Js.joinWith "/" _) as [|c path]; [contradiction|].
    destruct (Js.startsWith "/" p);
      destruct (match Js.lastChar p with Some c => Ascii.eqb c "/" | None => false end);
      discriminate.
Qed.

Lemma pathJoin_nonempty a b : Js.pathJoin a b <> "".
Proof.
  unfold Js.pathJoin. destruct (String.eqb _ ""); [discriminate | apply normalize_nonempty].
Qed.

Lemma mediaPath_local item :
  Js.truthy (media_url item) = true ->
  Js.isHttpScheme (localOrHttp (Js.orEmpty (media_url item))) = false ->
  Js.truthy (media_url item)
  && negb (String.eqb (mediaPath item) "")
  && negb (Js.isHttpScheme (mediaPath item)) = true.
Proof.
  intros Hm Hlocal. unfold mediaPath. rewrite Hm, Hlocal. simpl.
  rewrite andb_true_r. apply negb_true_iff.
  unfold localOrHttp. destruct (Js.isHttpUrl (Js.orEmpty (media_url item))).
  - destruct (media_url item) as [url|]; [|discriminate]. simpl in *.
    now apply negb_true_iff in Hm.
  - apply String.eqb_neq, pathJoin_nonempty.
Qed.

(** X9. In a worker run that gets to an item with local media whose file is
    there, with a recipient that passes the checks, a dispatch the transport
    accepts and a store that takes the update: the item ends sent, the one
    transport call made for it carries the bytes of the file, and the file is
    removed: it is gone when the run ends. *)
Theorem sent_upload_is_deleted (E : Env) (w wk : World) (item : Row) (total n : nat)
    (data : string) :
  reaches E w item total n wk ->
  validRecipient item = true ->
  Js.truthy (media_url item) = true ->
  mediaContent wk item = Some (Buffer data) ->
  sendOutcome E (S (S (tick wk))) (jidOf E item) (mediaPayload E item (Buffer data)) = None ->
  storeError E (S (S (S (tick wk)))) = None ->
  let w' := snd (processQueue E w) in
  let path := localOrHttp (Js.orEmpty (media_url item)) in
  (exists r, rowById (id item) w' = Some r /\ status r = sent)
  /\ callsFor (id item) w'
     = callsFor (id item) w
       ++ [mkSendCall (id item) (jidOf E item) (mediaPayload E item (Buffer data))]
  /\ (exists f, files wk !! path = Some f /\ bytes f = data)
  /\ (exists wk', iteration E total n item wk = (Ret Next, wk')
                  /\ files wk' = delete path (files wk))
  /\ files w' !! path = None.
Proof.
  intros Hreach Hvalid Hmedia Hcontent Hsend Hok w' path.
  pose proof (run_after_item E w wk item total n Hreach) as (_ & [Hrow Hcalls] & _).
  pose proof (run_after_item_evolved E w wk item total n Hreach) as (_ & _ & _ & _ & Hsub & _).
  fold w' in Hrow, Hcalls, Hsub.
  pose proof (reaches_configured E w wk item total n Hreach) as Hc.
  assert (Hlocal : Js.isHttpScheme path = false /\ exists f, files wk !! path = Some f
                                                             /\ bytes f = data).
  { unfold mediaContent in Hcontent. fold path in Hcontent.
    destruct (Js.isHttpScheme path); [discriminate|]. split; [reflexivity|].
    destruct (files wk !! path) as [f|]; [|discriminate].
    exists f. split; [reflexivity|]. simpl in Hcontent. congruence. }
  destruct Hlocal as (Hlocal & f & Hf & Hdata).
  assert (Hp : dispatched E wk item = Some (mediaPayload E item (Buffer data))).
  { unfold dispatched. now rewrite Hmedia, Hcontent. }
  assert (Hload : afterLoad item wk = awaited (awaited wk)).
  { unfold afterLoad. fold path. now rewrite Hmedia, Hlocal. }
  set (w1 := awaited (set_wire
                        (wire (awaited (awaited wk))
                         ++ [mkSendCall (id item) (jidOf E item)
                               (mediaPayload E item (Buffer data))])
                        (awaited (awaited wk)))).
  destruct (afterSend_stored E item total n (Js.truthy (media_url item)) (mediaPath item)
              w1 Hc Hok) as (wk' & Hrun & Hrow' & Hwire & _).
  pose proof (afterSend_files E item total n (Js.truthy (media_url item)) (mediaPath item)
                w1 Hc Hok) as Hfiles.
  rewrite (mediaPath_local item Hmedia Hlocal), Hrun in Hfiles. simpl in Hfiles.
  assert (Hpath : mediaPath item = path) by (unfold mediaPath; now rewrite Hmedia).
  rewrite Hpath in Hfiles.
  assert (Hit : iteration E total n item wk = (Ret Next, wk')).
  { rewrite (iteration_accepted E item total n wk _
               (reaches_connected E w wk item total n Hreach) Hvalid Hp);
      rewrite Hload; [|exact Hsend].
    unfold tryCatch. fold w1. now rewrite Hrun. }
  rewrite Hit in Hrow, Hcalls, Hsub. simpl in Hrow, Hcalls, Hsub.
  split; [|split; [|split; [|split]]].
  - exists (applyUpdates sent None (Some (nowAt E (tick w1))) item).
    split; [|reflexivity].
    rewrite Hrow, Hrow'.
    change (rowById (id item) w1) with (rowById (id item) wk).
    now rewrite (reaches_row E w wk item total n Hreach).
  - rewrite Hcalls. unfold callsFor. rewrite Hwire. simpl.
    rewrite List.filter_app. simpl. rewrite String.eqb_refl.
    fold (callsFor (id item) wk).
    now rewrite (reaches_calls E w wk item total n Hreach).
  - exists f. auto.
  - exists wk'. auto.
  - eapply lookup_weaken_None; [|exact Hsub].
    rewrite Hfiles. apply lookup_delete_eq.
Qed.

Lemma sent_upload_is_deleted_witness :
  files (snd (processQueue Sample.calm (Sample.world [Sample.voice] Sample.voiceFiles)))
    !! "/app/public/uploads/note.ogg" = None.
Proof.
  assert (Hreach : reaches Sample.calm (Sample.world [Sample.voice] Sample.voiceFiles)
            Sample.voice 1 1
            (awaited (set_sendingInProgress true
                        (Sample.world [Sample.voice] Sample.voiceFiles)))).
  { only_due_row. }
  destruct (sent_upload_is_deleted Sample.calm _ _ _ 1 1 "OggS" Hreach
              eq_refl eq_refl eq_refl eq_refl eq_refl)
    as (_ & _ & _ & _ & Hgone).
  exact Hgone.
Defined.

(** one iteration on an item with local media whose file is there, when the
    transport accepts the dispatch and the store takes the update *)
Lemma upload_sent_iteration E wk item total n data :
  connectedAt E (tick wk) = true ->
  isSupabaseConfigured wk = true ->
  validRecipient item = true ->
  Js.truthy (media_url item) = true ->
  mediaContent wk item = Some (Buffer data) ->
  sendOutcome E (S (S (tick wk))) (jidOf E item) (mediaPayload E item (Buffer data)) = None ->
  storeError E (S (S (S (tick wk)))) = None ->
  exists wk',
    iteration E total n item wk = (Ret Next, wk')
    /\ files wk' = delete (localOrHttp (Js.orEmpty (media_url item))) (files wk)
    /\ rowById (id item) wk'
       = option_map (applyUpdates sent None (Some (nowAt E (S (S (S (tick wk)))))))
           (rowById (id item) wk)
    /\ isSupabaseConfigured wk' = true.
Proof.
  intros Hconn Hc Hvalid Hmedia Hcontent Hsend Hok.
  set (path := localOrHttp (Js.orEmpty (media_url item))) in *.
  assert (Hlocal : Js.isHttpScheme path = false).
  { unfold mediaContent in Hcontent. fold path in Hcontent.
    destruct (Js.isHttpScheme path); [discriminate|reflexivity]. }
  assert (Hp : dispatched E wk item = Some (mediaPayload E item (Buffer data))).
  { unfold dispatched. now rewrite Hmedia, Hcontent. }
  assert (Hload : afterLoad item wk = awaited (awaited wk)).
  { unfold afterLoad. fold path. now rewrite Hmedia, Hlocal. }
  set (w1 := awaited (set_wire
                        (wire (awaited (awaited wk))
                         ++ [mkSendCall (id item) (jidOf E item)
                               (mediaPayload E item (Buffer data))])
                        (awaited (awaited wk)))).
  destruct (afterSend_stored E item total n (Js.truthy (media_url item)) (mediaPath item)
              w1 Hc Hok) as (wk' & Hrun & Hrow' & _).
  pose proof (afterSend_files E item total n (Js.truthy (media_url item)) (mediaPath item)
                w1 Hc Hok) as Hfiles.
  pose proof (Held_iteration E item total n wk) as [_ Hheld].
  rewrite (mediaPath_local item Hmedia Hlocal), Hrun in Hfiles. simpl in Hfiles.
  assert (Hpath : mediaPath item = path) by (unfold mediaPath; now rewrite Hmedia).
  rewrite Hpath in Hfiles.
  assert (Hit : iteration E total n item wk = (Ret Next, wk')).
  { rewrite (iteration_accepted E item total n wk _ Hconn Hvalid Hp);
      rewrite Hload; [|exact Hsend].
    unfold tryCatch. fold w1. now rewrite Hrun. }
  rewrite Hit in Hheld. simpl in Hheld.
  exists wk'. split; [exact Hit|]. split; [exact Hfiles|].
  split; [exact Hrow'|]. now rewrite Hheld.
Qed.

(** X10. An upload shared by two items is delivered once. When the first two
    due items of a run point to the same local media file, which is there,
    both have recipients that pass the checks, and the connection stays up,
    the transport accepts every call and the store answers: the first item
    ends sent, and the second ends failed with "Media file not found",
    without a transport call, because the first removed the file. *)
Theorem shared_upload_is_delivered_once (E : Env) (w : World) (t : Tables)
    (a b : Row) (post : list Row) (data : string) :
  (forall k, connectedAt E k = true) ->
  (forall k, storeError E k = None) ->
  (forall k jid p, sendOutcome E k jid p = None) ->
  sendingInProgress w = false ->
  supabase w = Some t ->
  NoDup (map id (schedule t)) ->
  List.filter (isDue (nowAt E (tick w))) (schedule t) = a :: b :: post ->
  validRecipient a = true ->
  validRecipient b = true ->
  media_url b = media_url a ->
  Js.truthy (media_url a) = true ->
  mediaContent w a = Some (Buffer data) ->
  let w' := snd (processQueue E w) in
  (exists r, rowById (id a) w' = Some r /\ status r = sent)
  /\ (exists r, rowById (id b) w' = Some r /\ status r = failed
                /\ error r = Some "Media file not found")
  /\ callsFor (id b) w' = callsFor (id b) w.
Proof.
  intros Hconn Hstore Hsend Hidle Ht Hnd Hdue Hva Hvb Hurl Hmedia Hcontent w'.
  set (total := S (List.length (b :: post))).
  set (w0 := awaited (set_sendingInProgress true w)).
  assert (Hra : reaches E w a total 1 w0).
  { apply (reaches_first E w t a (b :: post)); auto. }
  pose proof (reaches_configured E w w0 a total 1 Hra) as Hc0.
  destruct (upload_sent_iteration E w0 a total 1 data (Hconn _) Hc0 Hva Hmedia Hcontent
              (Hsend _ _ _) (Hstore _)) as (w1 & Hita & Hfiles & Hrowa & Hc1).
  assert (Hrb : reaches E w b total 2 w1).
  { exists t, [a], post. repeat split; auto.
    simpl. fold w0. now rewrite Hita. }
  pose proof (run_after_item E w w0 a total 1 Hra) as (_ & [Hrow_a _] & _).
  pose proof (run_after_item E w w1 b total 2 Hrb) as (_ & [Hrow_b Hcalls_b] & _).
  fold w' in Hrow_a, Hrow_b, Hcalls_b.
  rewrite Hita in Hrow_a. simpl in Hrow_a.
  assert (Hlocal : Js.isHttpScheme (localOrHttp (Js.orEmpty (media_url a))) = false).
  { unfold mediaContent in Hcontent.
    destruct (Js.isHttpScheme (localOrHttp (Js.orEmpty (media_url a))));
      [discriminate|reflexivity]. }
  destruct (failed__stored E b "Media file not found" "Media file not found"
              (awaited w1) Hc1 (Hstore _)) as (w2 & Hrun & Hrow2 & Hwire2 & _).
  assert (Hitb : iteration E total 2 b w1 = (Ret Next, w2)).
  { unfold iteration, tryCatch.
    rewrite (attempt_valid E b total 2 w1 (Hconn _) Hvb).
    rewrite deliver_media by (rewrite Hurl; exact Hmedia).
    rewrite sendMedia_missing; [now rewrite Hrun | now rewrite Hurl |].
    rewrite Hurl, Hfiles. apply lookup_delete_eq. }
  rewrite Hitb in Hrow_b, Hcalls_b. simpl in Hrow_b, Hcalls_b.
  split; [|split].
  - exists (applyUpdates sent None (Some (nowAt E (S (S (S (tick w0)))))) a).
    split; [|reflexivity].
    now rewrite Hrow_a, Hrowa, (reaches_row E w w0 a total 1 Hra).
  - exists (applyUpdates failed (Some "Media file not found") None b).
    split; [|repeat split].
    rewrite Hrow_b, Hrow2.
    change (rowById (id b) (awaited w1)) with (rowById (id b) w1).
    now rewrite (reaches_row E w w1 b total 2 Hrb).
  - rewrite Hcalls_b. unfold callsFor. rewrite Hwire2. simpl.
    exact (reaches_calls E w w1 b total 2 Hrb).
Qed.

Lemma shared_upload_is_delivered_once_witness :
  exists r,
    rowById "v2"
      (snd (processQueue Sample.calm
              (Sample.world
                 [Sample.voice;
                  Sample.mediaRow "v2" "94770000001" "listen" "/uploads/note.ogg" "audio/ogg"]
                 Sample.voiceFiles))) = Some r
    /\ status r = failed
    /\ error r = Some "Media file not found".
Proof.
  assert (Hnd : NoDup (map id
                   [Sample.voice;
                    Sample.mediaRow "v2" "94770000001" "listen" "/uploads/note.ogg"
                      "audio/ogg"])).
  { apply (bool_decide_unpack _). vm_compute. exact I. }
  destruct (shared_upload_is_delivered_once Sample.calm
              (Sample.world
                 [Sample.voice;
                  Sample.mediaRow "v2" "94770000001" "listen" "/uploads/note.ogg" "audio/ogg"]
                 Sample.voiceFiles)
              (mkTables
                 [Sample.voice;
                  Sample.mediaRow "v2" "94770000001" "listen" "/uploads/note.ogg" "audio/ogg"]
                 [])
              Sample.voice
              (Sample.mediaRow "v2" "94770000001" "listen" "/uploads/note.ogg" "audio/ogg")
              [] "OggS"
              (fun _ => eq_refl) (fun _ => eq_refl) (fun _ _ _ => eq_refl)
              eq_refl eq_refl Hnd eq_refl eq_refl eq_refl eq_refl eq_refl eq_refl)
    as (_ & Hb & _).
  exact Hb.
Defined.

(** ** One transport call for a row in a run *)

Section OneCall.
Variable E : Env.
Variable item : Row.
Variables total n : nat.

Lemma SameWire_trans a b c : SameWire a b -> SameWire b c -> SameWire a c.
Proof. unfold SameWire. congruence. Qed.

Lemma SameWire_failed_ stored shown : Preserves SameWire (failed_ E item stored shown).
Proof.
  apply Preserves_failed_; try (intros; reflexivity). exact SameWire_trans.
Qed.

(** a row whose content does not load is not handed to the transport *)
Lemma deliver_nothing jid w :
  dispatched E w item = None ->
  wire (snd (tryCatch (deliver E total n item jid) (onSendFailure E item) w)) = wire w.
Proof.
  intros Hnone.
  assert (Hfail : forall stored shown w0,
             wire w0 = wire w ->
             wire (snd (tryCatch (failed_ E item stored shown) (onSendFailure E item) w0))
             = wire w).
  { intros stored shown w0 <-.
    apply (Preserves_tryCatch SameWire SameWire_trans); [apply SameWire_failed_|].
    intros m. apply SameWire_onSendFailure. }
  unfold dispatched in Hnone. unfold deliver.
  destruct (Js.truthy (media_url item)) eqn:Hmedia.
  - unfold mediaContent in Hnone.
    destruct (Js.isHttpScheme (localOrHttp (Js.orEmpty (media_url item)))) eqn:Hlocal;
      [discriminate|].
    destruct (files w !! localOrHttp (Js.orEmpty (media_url item))) eqn:Hf; [discriminate|].
    unfold tryCatch at 1. rewrite (sendMedia_missing E item total n jid w Hlocal Hf).
    now apply (Hfail _ _ (awaited w)).
  - destruct (Js.truthy (caption item)); [discriminate|]. now apply Hfail.
Qed.

(** one iteration hands at most one payload to the transport, for its row *)
Lemma iteration_one_call w :
  exists calls,
    wire (snd (iteration E total n item w)) = wire w ++ calls
    /\ (List.length calls <= 1)%nat
    /\ Forall (fun c => for_item c = id item) calls.
Proof.
  assert (Hdeliver : forall jid,
             exists calls,
               wire (snd (tryCatch (deliver E total n item jid) (onSendFailure E item) w))
               = wire w ++ calls
               /\ (List.length calls <= 1)%nat
               /\ Forall (fun c => for_item c = id item) calls).
  { intros jid. destruct (dispatched E w item) as [p|] eqn:Hp.
    - exists [mkSendCall (id item) jid p].
      split; [|split; [simpl; lia | constructor; [reflexivity | constructor]]].
      destruct (afterLoad_quiet item w) as (_ & Hw & _).
      rewrite <- Hw.
      rewrite <- (dispatch_calls E item total n jid p (Js.truthy (media_url item))
                    (mediaPath item) (afterLoad item w)).
      unfold tryCatch. now rewrite (deliver_dispatched E item total n jid w p Hp).
    - exists []. rewrite app_nil_r.
      split; [now apply deliver_nothing | split; [simpl; lia | constructor]]. }
  unfold iteration.
  assert (Hsplit : forall c : M Ctl,
             attempt E total n item w = c w ->
             tryCatch (attempt E total n item) (onSendFailure E item) w
             = tryCatch c (onSendFailure E item) w).
  { intros c Hc. unfold tryCatch. now rewrite Hc. }
  unfold attempt at 1 in Hsplit.
  destruct (negb (connectedAt E (tick w))) eqn:Hconn.
  - exists []. rewrite app_nil_r. split; [|split; [simpl; lia | constructor]].
    unfold tryCatch, attempt. now rewrite Hconn.
  - destruct (Js.includes "@g.us" (recipient item)).
    + rewrite (Hsplit (deliver E total n item (recipient item)) eq_refl). apply Hdeliver.
    + destruct (String.length _ <? 10)%nat.
      * rewrite (Hsplit (failed_ E item "Invalid phone number: too short"
                           "Invalid phone number") eq_refl).
        exists []. rewrite app_nil_r. split; [|split; [simpl; lia | constructor]].
        apply (Preserves_tryCatch SameWire SameWire_trans); [apply SameWire_failed_|].
        intros m. apply SameWire_onSendFailure.
      * rewrite (Hsplit (deliver E total n item _) eq_refl). apply Hdeliver.
Qed.

End OneCall.

Lemma filter_length_le {A} (p : A -> bool) (l : list A) :
  (List.length (List.filter p l) <= List.length l)%nat.
Proof. induction l as [|x l IH]; simpl; [lia|]. destruct (p x); simpl; lia. Qed.

Lemma forOf_one_call E i items : forall total n w,
  NoDup (map id items) ->
  exists calls,
    callsFor i (snd (forOf E total n items w)) = callsFor i w ++ calls
    /\ (List.length calls <= 1)%nat.
Proof.
  induction items as [|item rest IH]; intros total n w Hnd; simpl.
  - exists []. split; [now rewrite app_nil_r | simpl; lia].
  - apply NoDup_cons in Hnd. destruct Hnd as [Hnotin Hnd].
    destruct (iteration_one_call E item total (S n) w) as (cs & Hw & Hlen & Hfor).
    pose proof (callsFor_wire_app i _ _ _ Hw) as Hc.
    assert (Hhere : exists calls,
               callsFor i (snd (iteration E total (S n) item w)) = callsFor i w ++ calls
               /\ (List.length calls <= 1)%nat).
    { eexists. split; [exact Hc|]. etransitivity; [apply filter_length_le | exact Hlen]. }
    destruct (iteration E total (S n) item w) as [[[|]|m] w1] eqn:Hit; simpl in *;
      try exact Hhere.
    destruct (String.eqb_spec (id item) i) as [Heq|Hne].
    + assert (Hrest : Forall (fun r => id r <> i) rest).
      { apply Forall_forall. intros r Hr Hid. apply Hnotin. rewrite Heq, <- Hid.
        apply list_elem_of_In. apply in_map. now apply list_elem_of_In. }
      destruct (Untouched_forOf E i rest total (S n) Hrest w1) as [_ Hsame].
      rewrite Hsame. exact Hhere.
    + destruct (IH total (S n) w1 Hnd) as (calls & Hcalls & Hle).
      exists calls. split; [|exact Hle]. rewrite Hcalls, Hc.
      rewrite (filter_none _ cs); [now rewrite app_nil_r|].
      intros c Hin. rewrite Forall_forall in Hfor.
      rewrite (Hfor c) by now apply list_elem_of_In.
      now apply String.eqb_neq.
Qed.

(** X11. With unique ids in the table, a worker run hands at most one payload
    to the transport for any row, whatever the transport, the store and the
    connection do during the run. *)
Theorem at_most_one_call_per_row (E : Env) (w : World) (i : string) :
  NoDup (map id (scheduleOf w)) ->
  exists calls,
    callsFor i (snd (processQueue E w)) = callsFor i w ++ calls
    /\ (List.length calls <= 1)%nat.
Proof.
  intros Hnd.
  assert (Hnil : exists calls : list SendCall,
             callsFor i w = callsFor i w ++ calls /\ (List.length calls <= 1)%nat)
    by (exists []; split; [now rewrite app_nil_r | simpl; lia]).
  rewrite processQueue_alone.
  destruct (negb (connectedAt E (tick w))); [exact Hnil|].
  destruct (sendingInProgress w); [exact Hnil|].
  destruct (negb (isSupabaseConfigured w)); [exact Hnil|].
  unfold tryFinally, tryCatch, drain, bind at 1, getDueScheduleItems. simpl.
  unfold scheduleOf in Hnd.
  destruct (supabase w) as [t|] eqn:Ht; [|exact Hnil].
  destruct (storeError E (tick w)); [exact Hnil|].
  pose proof (NoDup_map_filter id (isDue (nowAt E (tick w))) _ Hnd) as Hnd'.
  destruct (List.filter (isDue (nowAt E (tick w))) (schedule t)) as [|x l]; [exact Hnil|].
  destruct (forOf_one_call E i (x :: l) (List.length (x :: l)) 0
              (awaited (set_sendingInProgress true w)) Hnd') as (calls & Hcalls & Hle).
  exists calls. split; [|exact Hle].
  change (callsFor i w) with (callsFor i (awaited (set_sendingInProgress true w))).
  rewrite <- Hcalls. unfold bind at 1.
  destruct (forOf E (List.length (x :: l)) 0 (x :: l) (awaited (set_sendingInProgress true w)))
    as [[c|m] w1]; simpl; [|reflexivity].
  destruct (Untouched_epilogue E i w1) as [_ Hepi].
  unfold bind in Hepi |- *.
  destruct (getPendingSchedule E w1) as [[a|m] w2]; simpl in *; exact Hepi.
Qed.

Lemma at_most_one_call_per_row_witness :
  exists calls,
    callsFor "a" (snd (processQueue Sample.timingOut
                         (Sample.world [Sample.hi; Sample.later] ∅))) = calls
    /\ (List.length calls <= 1)%nat.
Proof.
  assert (Hnd : NoDup (map id (scheduleOf (Sample.world [Sample.hi; Sample.later] ∅)))).
  { apply (bool_decide_unpack _). vm_compute. exact I. }
  destruct (at_most_one_call_per_row Sample.timingOut _ "a" Hnd) as (calls & Hc & Hle).
  exists calls. split; [exact Hc | exact Hle].
Defined.

(** ** A connection that goes down during the run *)

(** X12. When the connection is found down at the start of an iteration, the
    loop is left: neither the item at hand nor any item after it is changed
    or handed to the transport, store, transport and files stay as the
    earlier iterations left them, the observers get the queue size, and the
    flag is lowered. *)
Theorem connection_lost_stops_the_run (E : Env) (w wk : World) (t : Tables)
    (pre rest : list Row) :
  connectedAt E (tick w) = true ->
  sendingInProgress w = false ->
  supabase w = Some t ->
  storeError E (tick w) = None ->
  NoDup (map id (schedule t)) ->
  List.filter (isDue (nowAt E (tick w))) (schedule t) = pre ++ rest ->
  rest <> [] ->
  forOf E (List.length (pre ++ rest)) 0 pre (awaited (set_sendingInProgress true w))
  = (Ret Next, wk) ->
  connectedAt E (tick wk) = false ->
  let w' := snd (processQueue E w) in
  (forall r, In r rest ->
     rowById (id r) w' = Some r /\ callsFor (id r) w' = callsFor (id r) w)
  /\ supabase w' = supabase wk
  /\ wire w' = wire wk
  /\ files w' = files wk
  /\ (exists size, emitted w' = emitted wk ++ [QueueUpdate size])
  /\ sendingInProgress w' = false.
Proof.
  intros Hconn Hidle Ht Hok Hnd Hdue Hrest Hpre Hdown w'.
  set (w0 := awaited (set_sendingInProgress true w)) in *.
  assert (Hc : isSupabaseConfigured wk = true).
  { pose proof (Held_forOf E pre (List.length (pre ++ rest)) 0 w0) as [_ Hh].
    rewrite Hpre in Hh. simpl in Hh. rewrite Hh.
    unfold isSupabaseConfigured. simpl. now rewrite Ht. }
  destruct (configured_tables wk Hc) as [tk Htk].
  assert (Hloop : forOf E (List.length (pre ++ rest)) 0 (pre ++ rest) w0 = (Ret Stop, wk)).
  { rewrite forOf_app, Hpre. destruct rest as [|item post]; [contradiction|].
    simpl. unfold iteration, tryCatch, attempt. now rewrite Hdown. }
  assert (Hrun : exists size,
             processQueue E w
             = (Ret tt, set_sendingInProgress false
                          (set_emitted (emitted wk ++ [QueueUpdate size]) (awaited wk)))).
  { rewrite processQueue_alone. rewrite Hconn, Hidle. unfold isSupabaseConfigured. rewrite Ht. simpl.
    unfold tryFinally, tryCatch, drain, bind at 1.
    unfold getDueScheduleItems at 1. simpl. rewrite Ht, Hok, Hdue. fold w0.
    assert (Hcons : exists x l, pre ++ rest = x :: l).
    { destruct pre; simpl; [destruct rest; [contradiction|]|]; eauto. }
    destruct Hcons as (x & l & Hcons). rewrite Hcons. rewrite <- Hcons. clear x l Hcons.
    unfold bind at 1. rewrite Hloop.
    unfold bind, getPendingSchedule, emit. rewrite Htk.
    destruct (storeError E (tick wk)); eexists; reflexivity. }
  destruct Hrun as (size & Hrun). unfold w'. rewrite Hrun. simpl.
  split; [|split; [reflexivity|split; [reflexivity|split; [reflexivity|split]]]].
  - intros r Hr.
    assert (Hin : In r (schedule t)).
    { assert (H : In r (List.filter (isDue (nowAt E (tick w))) (schedule t)))
        by (rewrite Hdue; apply in_or_app; now right).
      apply filter_In in H. tauto. }
    assert (Hne : Forall (fun y => id y <> id r) pre).
    { pose proof (NoDup_map_filter id (isDue (nowAt E (tick w))) _ Hnd) as Hnd'.
      rewrite Hdue, map_app in Hnd'. apply NoDup_app in Hnd'.
      destruct Hnd' as (_ & Hdisj & _).
      apply Forall_forall. intros y Hy Heq. apply (Hdisj (id y)).
      - apply list_elem_of_In. apply in_map. now apply list_elem_of_In.
      - rewrite Heq. apply list_elem_of_In. now apply in_map. }
    pose proof (Untouched_forOf E (id r) pre (List.length (pre ++ rest)) 0 Hne w0)
      as [Hrow Hcalls].
    rewrite Hpre in Hrow, Hcalls. simpl in Hrow, Hcalls.
    split.
    + change (rowById (id r) wk = Some r). rewrite Hrow.
      unfold rowById, scheduleOf. simpl. rewrite Ht. now apply find_by_unique_id.
    + change (callsFor (id r) wk = callsFor (id r) w). exact Hcalls.
  - eexists. reflexivity.
  - reflexivity.
Qed.

Lemma connection_lost_stops_the_run_witness :
  rowById "a"
    (snd (processQueue
            (mkEnv (fun k => (k <? 1)%nat) (fun _ _ _ => None) (fun _ => None)
                   (fun _ => 1700000000000) (fun jid => jid) (fun _ => None)
                   (fun _ _ => "row") (fun _ => "batch") (fun _ _ _ => None) Cal.colombo)
            (Sample.world [Sample.hi] ∅))) = Some Sample.hi.
Proof.
  assert (Hnd : NoDup (map id [Sample.hi])) by apply NoDup_singleton.
  destruct (connection_lost_stops_the_run
              (mkEnv (fun k => (k <? 1)%nat) (fun _ _ _ => None) (fun _ => None)
                     (fun _ => 1700000000000) (fun jid => jid) (fun _ => None)
                     (fun _ _ => "row") (fun _ => "batch") (fun _ _ _ => None) Cal.colombo)
              (Sample.world [Sample.hi] ∅)
              (awaited (set_sendingInProgress true (Sample.world [Sample.hi] ∅)))
              (mkTables [Sample.hi] []) [] [Sample.hi]
              eq_refl eq_refl eq_refl eq_refl Hnd eq_refl
              (fun H => eq_ind [Sample.hi] (fun l => match l with [] => False | _ => True end)
                          I [] H)
              eq_refl eq_refl) as (Hrows & _).
  destruct (Hrows Sample.hi (or_introl eq_refl)) as [Hrow _].
  exact Hrow.
Defined.

(** ** The retry classifier *)

Lemma prefix_append_l pat : forall s1 s2,
  String.prefix pat s1 = true -> String.prefix pat (s1 +:+ s2) = true.
Proof.
  induction pat as [|a pat IH]; intros s1 s2;
    [intros _; destruct (s1 +:+ s2); reflexivity|].
  destruct s1 as [|b s1]; simpl; [discriminate|].
  change (String b s1 +:+ s2) with (String b (s1 +:+ s2)). simpl.
  destruct (ascii_dec a b); [apply IH | discriminate].
Qed.

Lemma includes_append_l pat s1 s2 :
  Js.includes pat s1 = true -> Js.includes pat (s1 +:+ s2) = true.
Proof.
  induction s1 as [|c s1 IH]; simpl.
  - rewrite orb_false_r. intros H. destruct pat; [|discriminate].
    destruct s2; reflexivity.
  - intros H. change (String c s1 +:+ s2) with (String c (s1 +:+ s2)). simpl.
    apply orb_true_iff in H. apply orb_true_iff. destruct H as [H|H].
    + left. now apply (prefix_append_l pat (String c s1) s2).
    + right. now apply IH.
Qed.

Lemma toLowerCase_append s1 s2 :
  Js.toLowerCase (s1 +:+ s2) = Js.toLowerCase s1 +:+ Js.toLowerCase s2.
Proof.
  induction s1 as [|c s1 IH]; [reflexivity|].
  change (String c s1 +:+ s2) with (String c (s1 +:+ s2)). simpl. now rewrite IH.
Qed.

Lemma includes_in_context pat pre m post :
  Js.includes pat m = true -> Js.includes pat (pre +:+ m +:+ post) = true.
Proof. intros H. apply includes_append_r. now apply includes_append_l. Qed.

Lemma testCI_in_context pat pre m post :
  Js.testCI pat m = true -> Js.testCI pat (pre +:+ m +:+ post) = true.
Proof.
  unfold Js.testCI. rewrite !toLowerCase_append. apply includes_in_context.
Qed.

Lemma isDigit_lower c : Js.isDigit (Js.lower c) = Js.isDigit c.
Proof. destruct c as [[] [] [] [] [] [] [] []]; reflexivity. Qed.

Lemma lower_digit c : Js.isDigit c = true -> Js.lower c = c.
Proof. destruct c as [[] [] [] [] [] [] [] []]; intros H; try discriminate H; reflexivity. Qed.

(** a pattern of digits matches a string exactly when it matches the
    lower-cased string *)
Lemma prefix_digits_lower pat : forall s,
  Forall (fun c => Js.isDigit c = true) (list_ascii_of_string pat) ->
  String.prefix pat (Js.toLowerCase s) = String.prefix pat s.
Proof.
  induction pat as [|a pat IH]; intros s Hd; [destruct s; reflexivity|].
  simpl in Hd. apply Forall_cons in Hd. destruct Hd as [Ha Hd].
  destruct s as [|b s]; [reflexivity|]. simpl.
  destruct (ascii_dec a (Js.lower b)) as [Hl|Hl]; destruct (ascii_dec a b) as [Hb|Hb].
  - now apply IH.
  - exfalso. apply Hb. rewrite Hl. apply lower_digit.
    rewrite <- isDigit_lower, <- Hl. exact Ha.
  - exfalso. apply Hl. rewrite <- Hb. symmetry. now apply lower_digit.
  - reflexivity.
Qed.

Lemma includes_digits_lower pat s :
  Forall (fun c => Js.isDigit c = true) (list_ascii_of_string pat) ->
  Js.includes pat (Js.toLowerCase s) = Js.includes pat s.
Proof.
  intros Hd. induction s as [|c s IH]; [reflexivity|].
  change (Js.toLowerCase (String c s)) with (String (Js.lower c) (Js.toLowerCase s)).
  change (Js.includes pat (String (Js.lower c) (Js.toLowerCase s)))
    with (String.prefix pat (Js.toLowerCase (String c s))
          || Js.includes pat (Js.toLowerCase s)).
  rewrite (prefix_digits_lower pat (String c s) Hd), IH. reflexivity.
Qed.

(** X13. The retry classifier looks for its patterns anywhere in the message
    and does not look at letter case: a message that contains a retryable
    message (with any text before and after it) is retryable, and two
    messages that differ only in the case of their letters are classified
    alike. *)
Theorem isRetryableError_by_content :
  (forall pre m post,
      isRetryableError m = true -> isRetryableError (pre +:+ m +:+ post) = true)
  /\ (forall a b,
        Js.toLowerCase a = Js.toLowerCase b -> isRetryableError a = isRetryableError b).
Proof.
  split.
  - intros pre m post. unfold isRetryableError, retryablePatterns. simpl.
    rewrite !orb_false_r, !orb_true_iff.
    intros H.
    repeat (destruct H as [H|H];
            [first [ apply (testCI_in_context _ pre m post) in H
                   | apply (includes_in_context _ pre m post) in H ]; tauto|]).
    apply (includes_in_context _ pre m post) in H. tauto.
  - intros a b Hab. unfold isRetryableError, retryablePatterns. simpl.
    unfold Js.testCI. rewrite Hab.
    assert (Hd : forall pat,
               Forall (fun c => Js.isDigit c = true) (list_ascii_of_string pat) ->
               Js.includes pat a = Js.includes pat b).
    { intros pat Hp.
      now rewrite <- (includes_digits_lower pat a Hp), Hab, includes_digits_lower. }
    rewrite (Hd "503"), (Hd "502"), (Hd "500");
      [reflexivity | repeat constructor..].
Qed.

Lemma isRetryableError_by_content_witness :
  isRetryableError "Failed: request TIMEOUT (id 7)" = true
  /\ isRetryableError "Socket Hang Up" = isRetryableError "socket hang up".
Proof.
  destruct isRetryableError_by_content as [Hctx Hcase]. split.
  - apply (Hctx "Failed: request " "TIMEOUT" " (id 7)"). reflexivity.
  - apply Hcase. reflexivity.
Defined.

(** ** The birthday check only appends *)

Section Appending.
Variable E : Env.
Variable phones : list string.

Lemma Appended_quiet w w' :
  supabase w' = supabase w -> wire w' = wire w -> files w' = files w ->
  Appended phones w w'.
Proof.
  intros Hs Hw Hf. unfold Appended, scheduleOf, isSupabaseConfigured, birthdaysOf.
  rewrite Hs. split; [exists []; split; [now rewrite app_nil_r | constructor]|].
  auto.
Qed.

Lemma Appended_refl w : Appended phones w w.
Proof. now apply Appended_quiet. Qed.

Lemma Appended_trans a b c :
  Appended phones a b -> Appended phones b c -> Appended phones a c.
Proof.
  intros ((l1 & S1 & F1) & C1 & B1 & W1 & G1) ((l2 & S2 & F2) & C2 & B2 & W2 & G2).
  split.
  { exists (l1 ++ l2). split; [rewrite S2, S1; now rewrite app_assoc|].
    apply Forall_app. split; assumption. }
  repeat split; congruence.
Qed.

Lemma Appended_generateBirthdayMessage b :
  Preserves (Appended phones) (generateBirthdayMessage E b).
Proof.
  intros w. unfold generateBirthdayMessage.
  destruct (negb (genAI w)); [apply Appended_refl|].
  destruct (generateContent E (tick w) b _); now apply Appended_quiet.
Qed.

Lemma Appended_scheduleBirthday pendingSchedule b :
  In (b_phone b) phones ->
  Preserves (Appended phones) (scheduleBirthday E pendingSchedule b).
Proof.
  intros Hphone. unfold scheduleBirthday.
  apply Preserves_bind; [exact Appended_trans | intros w; apply Appended_refl | intros now].
  apply Preserves_if; [|intros w; apply Appended_refl].
  apply Preserves_bind; [exact Appended_trans | |].
  { apply Preserves_if; [intros w; apply Appended_refl|].
    apply Appended_generateBirthdayMessage. }
  intros text.
  apply Preserves_bind; [exact Appended_trans | | intros _ w; apply Appended_refl].
  intros w. unfold addScheduleItems.
  destruct (supabase w) as [t|] eqn:Ht; [|apply Appended_refl].
  destruct (storeError E (tick w)); [now apply Appended_quiet|].
  unfold Appended, scheduleOf, isSupabaseConfigured, birthdaysOf. simpl. rewrite Ht.
  split; [|auto].
  eexists. split; [reflexivity|].
  constructor; [|constructor]. simpl. repeat split. exact Hphone.
Qed.

Lemma Appended_forEachBirthday pendingSchedule bs :
  Forall (fun b => In (b_phone b) phones) bs ->
  Preserves (Appended phones) (forEachBirthday E pendingSchedule bs).
Proof.
  induction 1 as [|b bs Hb _ IH]; simpl; [intros w; apply Appended_refl|].
  apply Preserves_bind; [exact Appended_trans | now apply Appended_scheduleBirthday |].
  intros _. exact IH.
Qed.

End Appending.

(** X14. The birthday check never throws and only appends to the schedule:
    the rows that were there stay as they are, in their places; every row it
    adds is pending, without media, error or sent_at, with a retry counter of
    0 and the phone of an entry of the birthdays table as recipient; the
    birthdays, the transport and the files are left alone. Without a
    connection or without a store client it changes nothing. *)
Theorem checkBirthdays_only_appends (E : Env) (w : World) :
  exists added w',
    checkBirthdays E w = (Ret tt, w')
    /\ scheduleOf w' = scheduleOf w ++ added
    /\ Forall (fun r => status r = pending /\ error r = None /\ sent_at r = None
                        /\ retry_count r = 0 /\ media_url r = None
                        /\ media_type r = None
                        /\ In (recipient r) (map b_phone (birthdaysOf w))) added
    /\ birthdaysOf w' = birthdaysOf w
    /\ wire w' = wire w
    /\ files w' = files w
    /\ (connectedAt E (tick w) = false \/ supabase w = None -> w' = w).
Proof.
  set (phones := map b_phone (birthdaysOf w)).
  assert (Hret : fst (checkBirthdays E w) = Ret tt).
  { unfold checkBirthdays.
    destruct (negb (connectedAt E (tick w))); [reflexivity|].
    destruct (negb (isSupabaseConfigured w)); [reflexivity|].
    unfold tryCatch. destruct (bind _ _ w) as [[[]|m] w1]; reflexivity. }
  assert (Hidle : connectedAt E (tick w) = false \/ supabase w = None ->
                  snd (checkBirthdays E w) = w).
  { unfold checkBirthdays, isSupabaseConfigured. intros [->| ->]; [reflexivity|].
    simpl. destruct (negb (connectedAt E (tick w))); reflexivity. }
  assert (Hrest : forall bs,
             Forall (fun b => In (b_phone b) phones) bs ->
             Preserves (Appended phones)
               (pendingSchedule <- getPendingSchedule E ;;
                forEachBirthday E pendingSchedule bs ;;;
                allPending <- getPendingSchedule E ;;
                emit (QueueUpdate (List.length allPending)))%js).
  { intros bs Hbs.
    apply Preserves_bind; [exact (Appended_trans phones) | |].
    { apply Preserves_getPendingSchedule; [apply Appended_refl|].
      intros w1. now apply Appended_quiet. }
    intros pendingSchedule.
    apply Preserves_bind;
      [exact (Appended_trans phones) | now apply Appended_forEachBirthday |].
    intros _.
    apply Preserves_bind; [exact (Appended_trans phones) | |].
    { apply Preserves_getPendingSchedule; [apply Appended_refl|].
      intros w1. now apply Appended_quiet. }
    intros a w1. now apply Appended_quiet. }
  assert (Happ : Appended phones w (snd (checkBirthdays E w))).
  { unfold checkBirthdays.
    destruct (negb (connectedAt E (tick w))); [apply Appended_refl|].
    destruct (negb (isSupabaseConfigured w)); [apply Appended_refl|].
    match goal with
    | |- Appended _ _ (snd (tryCatch ?c ?h w)) =>
        assert (Hc : Appended phones w (snd (c w)));
        [|unfold tryCatch; destruct (c w) as [[u|m] w1]; exact Hc]
    end.
    unfold bind at 1, newDate. unfold bind at 1, getBirthdaysByDate.
    assert (Hq : Appended phones w (awaited w)) by now apply Appended_quiet.
    destruct (supabase w) as [t|] eqn:Ht.
    - destruct (storeError E (tick w)).
      + eapply Appended_trans; [exact Hq|]. apply Hrest. constructor.
      + eapply Appended_trans; [exact Hq|]. apply Hrest.
        apply Forall_forall. intros b Hb. apply list_elem_of_In in Hb.
        apply filter_In in Hb. destruct Hb as [Hb _].
        subst phones. unfold birthdaysOf. rewrite Ht. now apply in_map.
    - apply Hrest. constructor. }
  destruct (checkBirthdays E w) as [r w'] eqn:Hrun. simpl in *. subst r.
  destruct Happ as ((added & Hs & Hall) & _ & Hb & Hw & Hf).
  exists added, w'. repeat (split; [auto; fail|]). exact Hidle.
Qed.

Lemma checkBirthdays_only_appends_witness :
  exists added w',
    checkBirthdays Sample.frozen (Sample.calendar [Sample.nimal]) = (Ret tt, w')
    /\ scheduleOf w' = added
    /\ Forall (fun r => recipient r = "94772222222") added.
Proof.
  destruct (checkBirthdays_only_appends Sample.frozen (Sample.calendar [Sample.nimal]))
    as (added & w' & Hrun & Hs & Hall & _).
  exists added, w'. split; [exact Hrun|]. split; [exact Hs|].
  eapply Forall_impl; [exact Hall|].
  intros r (_ & _ & _ & _ & _ & _ & [H|[]]). now rewrite <- H.
Defined.

(** ** The daily timer, the uptime and the status cache *)

(** X15. The delay [scheduleDailyBirthdayCheck] hands to [setTimeout] is
    never negative and always less than a day; the time it aims at is not
    before now, and on the Colombo clock it is 23:55:00 plus the milliseconds
    of the current time, which the source does not clear. So the delay is 0
    exactly when the current Colombo time is within the second 23:55:00. *)
Theorem msUntilNextCheck_range (now : Z) :
  0 <= msUntilNextCheck now < Cal.msPerDay
  /\ (nextCheck now + Cal.colombo) mod Cal.msPerDay
     = ((23 * 60 + 55) * 60 + 0) * 1000 + (now + Cal.colombo) mod 1000
  /\ (msUntilNextCheck now = 0 <->
      86100000 <= (now + Cal.colombo) mod Cal.msPerDay < 86101000).
Proof.
  unfold msUntilNextCheck, nextCheck, atTimeKeepMs, Cal.dayNumber, Cal.msPerDay, Cal.colombo.
  set (x := now + 19800000).
  replace now with (x - 19800000) by (unfold x; lia).
  replace (x - 19800000 + 19800000) with x by lia.
  pose proof (Z.div_mod x 86400000 ltac:(lia)) as Hx.
  pose proof (Z.mod_pos_bound x 86400000 ltac:(lia)) as Hr.
  pose proof (Z.div_mod x 1000 ltac:(lia)) as Hk.
  pose proof (Z.mod_pos_bound x 1000 ltac:(lia)) as Hms.
  set (q := x / 86400000) in *. set (r := x mod 86400000) in *.
  set (k := x / 1000) in *. set (ms := x mod 1000) in *.
  assert (Hmod : forall d, (86400000 * d + (86100000 + ms)) mod 86400000 = 86100000 + ms).
  { intros d. rewrite Z.add_comm, Z.mul_comm, Z.mod_add by lia.
    apply Z.mod_small. lia. }
  destruct (Z.ltb_spec (q * 86400000 + ((23 * 60 + 55) * 60 + 0) * 1000 + ms - 19800000)
              (x - 19800000)) as [Hlt|Hge].
  - split; [lia|]. split.
    + replace (q * 86400000 + ((23 * 60 + 55) * 60 + 0) * 1000 + ms - 19800000
               + 86400000 + 19800000)
        with (86400000 * (q + 1) + (86100000 + ms)) by lia.
      rewrite Hmod. lia.
    + split; lia.
  - split; [lia|]. split.
    + replace (q * 86400000 + ((23 * 60 + 55) * 60 + 0) * 1000 + ms - 19800000 + 19800000)
        with (86400000 * q + (86100000 + ms)) by lia.
      rewrite Hmod. lia.
    + split; lia.
Qed.

Lemma msUntilNextCheck_range_witness :
  msUntilNextCheck 1700072700250 = 0.
Proof.
  destruct (msUntilNextCheck_range 1700072700250) as (_ & _ & Hzero).
  apply Hzero. vm_compute. split; [discriminate | reflexivity].
Defined.

(** X16. For a process started in the past, [getUptime] prints days, hours
    below 24 and minutes below 60 that add up to the whole minutes elapsed;
    with no start time recorded it prints "Unknown". *)
Theorem getUptime_parts (startTime now : Z) :
  (startTime <> 0 -> startTime <= now ->
   exists days hours minutes,
     getUptime startTime now
     = pretty days +:+ "d " +:+ pretty hours +:+ "h " +:+ pretty minutes +:+ "m"
     /\ 0 <= days /\ 0 <= hours < 24 /\ 0 <= minutes < 60
     /\ (days * 24 + hours) * 60 + minutes = (now - startTime) / 60000)
  /\ getUptime 0 now = "Unknown".
Proof.
  split; [|reflexivity].
  intros Hset Hpast. unfold getUptime, uptimeParts.
  destruct (Z.eqb_spec startTime 0) as [|_]; [contradiction|].
  set (u := now - startTime). assert (Hu : 0 <= u) by (unfold u; lia).
  rewrite !Z.rem_mod_nonneg by lia.
  eexists _, _, _. split; [reflexivity|].
  change (1000 * 60 * 60 * 24) with 86400000. change (1000 * 60 * 60) with 3600000.
  change (1000 * 60) with 60000.
  pose proof (Z.div_mod u 86400000 ltac:(lia)) as H1.
  pose proof (Z.mod_pos_bound u 86400000 ltac:(lia)) as B1.
  pose proof (Z.div_mod u 3600000 ltac:(lia)) as H2.
  pose proof (Z.mod_pos_bound u 3600000 ltac:(lia)) as B2.
  pose proof (Z.div_mod u 60000 ltac:(lia)) as H3.
  pose proof (Z.mod_pos_bound u 60000 ltac:(lia)) as B3.
  pose proof (Z.div_mod (u mod 86400000) 3600000 ltac:(lia)) as H4.
  pose proof (Z.mod_pos_bound (u mod 86400000) 3600000 ltac:(lia)) as B4.
  pose proof (Z.div_mod (u mod 3600000) 60000 ltac:(lia)) as H5.
  pose proof (Z.mod_pos_bound (u mod 3600000) 60000 ltac:(lia)) as B5.
  pose proof (Z.div_pos u 86400000 Hu ltac:(lia)) as P1.
  repeat split; try lia.
Qed.

Lemma getUptime_parts_witness :
  exists days hours minutes,
    getUptime 1700000000000 1700093784000
    = pretty days +:+ "d " +:+ pretty hours +:+ "h " +:+ pretty minutes +:+ "m"
    /\ (days * 24 + hours) * 60 + minutes = 1563.
Proof.
  destruct (getUptime_parts 1700000000000 1700093784000) as [H _].
  destruct H as (d & h & m & Hs & _ & _ & _ & Hsum); [discriminate | lia |].
  exists d, h, m. split; [exact Hs | exact Hsum].
Defined.

Lemma iter_removelast {A} (k : nat) : forall l : list A,
  (k <= List.length l)%nat ->
  Nat.iter k (@List.removelast A) l = firstn (List.length l - k) l.
Proof.
  induction k as [|k IH]; intros l Hk; simpl.
  - rewrite Nat.sub_0_r. symmetry. apply firstn_all.
  - rewrite IH by lia.
    replace (List.length l - k)%nat with (S (List.length l - S k)) by lia.
    apply removelast_firstn. lia.
Qed.

(** X17. The status cache keeps the newest 100 entries, newest first: after
    [unshift] and the [pop] loop the list is the new item followed by the
    first 99 of the old list, and it never has more than 100 entries. *)
Theorem cacheStatus_keeps_newest {A} (item : A) (statuses : list A) :
  cacheStatus item statuses = item :: firstn 99 statuses
  /\ (List.length (cacheStatus item statuses) <= 100)%nat.
Proof.
  assert (H : cacheStatus item statuses = item :: firstn 99 statuses).
  { unfold cacheStatus, popDownTo. rewrite iter_removelast by lia.
    destruct (Nat.le_gt_cases (List.length (item :: statuses)) 100) as [Hle|Hgt].
    - replace (List.length (item :: statuses) - (List.length (item :: statuses) - 100))%nat
        with (List.length (item :: statuses)) by lia.
      rewrite firstn_all. f_equal. symmetry. apply firstn_all2. simpl in Hle. lia.
    - replace (List.length (item :: statuses) - (List.length (item :: statuses) - 100))%nat
        with 100%nat by lia.
      reflexivity. }
  split; [exact H|]. rewrite H. simpl. rewrite length_firstn. lia.
Qed.

(** ** Scheduling over HTTP *)

Lemma orNull_idem o : Js.orNull (Js.orNull o) = Js.orNull o.
Proof. unfold Js.orNull. destruct (Js.truthy o) eqn:H; [now rewrite H | reflexivity]. Qed.

(** X18. A schedule request with a parseable or absent sendAt and at least
    one non-blank recipient is answered with a fresh batch id and, as
    [created], the number of recipients, whatever the store does. When the
    store takes the insert, the rows appended are one per recipient, in the
    order of the request, all pending, with the batch id, the caption, the
    due time (two seconds from now when none is given) and one and the same
    media path of the request. When the client is not configured or the
    store fails, no row is stored and the answer is the same. *)
Theorem postSchedule_reports_every_recipient (E : Env) (trim : string -> string)
    (q : ScheduleRequest) (w : World) (recipients : string) :
  q_recipients q = Some recipients ->
  recipients <> "" ->
  recipientList trim recipients <> [] ->
  q_sendAt q <> Some None ->
  let batch := nanoidAt E (tick w) in
  let sendAtDate :=
    match q_sendAt q with Some (Some t) => t | _ => nowAt E (tick w) + 2000 end in
  exists rows w',
    postSchedule E trim q w
    = (Ret (Scheduled batch (List.length (recipientList trim recipients)), Some rows), w')
    /\ (isSupabaseConfigured w = true -> storeError E (tick w) = None ->
        scheduleOf w' = scheduleOf w ++ rows
        /\ map recipient rows = recipientList trim recipients
        /\ Forall (fun r => batch_id r = Some batch
                            /\ send_at r = sendAtDate
                            /\ status r = pending
                            /\ caption r = Js.orNull (q_caption q)
                            /\ media_url r
                               = option_map (fun f => "/uploads/" +:+ fst f) (q_file q))
                  rows)
    /\ (isSupabaseConfigured w = false \/ storeError E (tick w) <> None ->
        rows = [] /\ supabase w' = supabase w).
Proof.
  intros Hq Hne Hlist Hparse batch sendAtDate.
  unfold postSchedule. rewrite Hq. simpl Js.truthy. simpl Js.orEmpty.
  destruct (String.eqb_spec recipients ""); [contradiction|]. simpl negb. cbv iota.
  destruct (recipientList trim recipients) as [|r0 rs] eqn:Hrs; [contradiction|].
  fold batch.
  assert (Hbody :
            forall items,
              exists rows w',
                (let '(r, w') := addScheduleItems E items w in
                 match r with
                 | Ret newRows =>
                     (Ret (Scheduled batch (List.length (r0 :: rs)), Some newRows), w')
                 | Throw _ => (Ret (ServerError "Failed to schedule message", None), w')
                 end)
                = (Ret (Scheduled batch (List.length (r0 :: rs)), Some rows), w')
                /\ (isSupabaseConfigured w = true -> storeError E (tick w) = None ->
                    scheduleOf w' = scheduleOf w ++ rows
                    /\ rows = imap (insertedRow E (tick w)) items)
                /\ (isSupabaseConfigured w = false \/ storeError E (tick w) <> None ->
                    rows = [] /\ supabase w' = supabase w)).
  { intros items. unfold addScheduleItems, isSupabaseConfigured, scheduleOf.
    destruct (supabase w) as [t|] eqn:Ht.
    - destruct (storeError E (tick w)) as [m|].
      + eexists _, _. split; [reflexivity|]. split; [discriminate|].
        intros _. simpl. auto.
      + eexists _, _. split; [reflexivity|]. split.
        * intros _ _. simpl. auto.
        * intros [H|H]; [discriminate | contradiction].
    - eexists _, _. split; [reflexivity|]. split; [discriminate|]. auto. }
  assert (Hitems : forall items,
             items = requestItems batch q sendAtDate (r0 :: rs) ->
             map recipient (imap (insertedRow E (tick w)) items) = r0 :: rs
             /\ Forall (fun r => batch_id r = Some batch
                                 /\ send_at r = sendAtDate
                                 /\ status r = pending
                                 /\ caption r = Js.orNull (q_caption q)
                                 /\ media_url r
                                    = option_map (fun f => "/uploads/" +:+ fst f) (q_file q))
                       (imap (insertedRow E (tick w)) items)).
  { intros items ->. split.
    - rewrite (imap_insertedRow_field recipient n_recipient) by reflexivity.
      unfold requestItems. rewrite map_map. cbn [n_recipient]. apply map_id.
    - apply Forall_forall. intros r Hr. apply elem_of_lookup_imap in Hr.
      destruct Hr as (k & it & -> & Hit).
      apply list_elem_of_lookup_2, list_elem_of_In in Hit.
      unfold requestItems in Hit. apply in_map_iff in Hit.
      destruct Hit as (x & <- & _). simpl.
      repeat split; [apply orNull_idem|].
      destruct (q_file q) as [[filename mimetype]|]; reflexivity. }
  destruct (q_sendAt q) as [[t|]|] eqn:Hs; [|contradiction|].
  - destruct (Hbody (requestItems batch q t (r0 :: rs))) as (rows & w' & Hrun & Hin & Hout).
    exists rows, w'. split; [exact Hrun|]. split; [|exact Hout].
    intros Hc Hok. destruct (Hin Hc Hok) as [Hsched ->].
    split; [exact Hsched|]. now apply Hitems.
  - destruct (Hbody (requestItems batch q (nowAt E (tick w) + 2000) (r0 :: rs)))
      as (rows & w' & Hrun & Hin & Hout).
    exists rows, w'. split; [exact Hrun|]. split; [|exact Hout].
    intros Hc Hok. destruct (Hin Hc Hok) as [Hsched ->].
    split; [exact Hsched|]. now apply Hitems.
Qed.

Lemma postSchedule_reports_every_recipient_witness :
  exists rows w',
    postSchedule Sample.calm (fun s => s)
      (mkScheduleRequest (Some "94770000000,94770000001") (Some "listen") None
                         (Some ("note.ogg", "audio/ogg")))
      (Sample.world [] ∅)
    = (Ret (Scheduled "batch-0" 2, Some rows), w')
    /\ map recipient rows = ["94770000000"; "94770000001"]
    /\ Forall (fun r => media_url r = Some "/uploads/note.ogg") rows.
Proof.
  destruct (postSchedule_reports_every_recipient Sample.calm (fun s => s)
              (mkScheduleRequest (Some "94770000000,94770000001") (Some "listen") None
                                 (Some ("note.ogg", "audio/ogg")))
              (Sample.world [] ∅) "94770000000,94770000001" eq_refl)
    as (rows & w' & Hrun & Hin & _); try discriminate.
  destruct (Hin eq_refl eq_refl) as (_ & Hrec & Hall).
  exists rows, w'. split; [exact Hrun|]. split; [exact Hrec|].
  eapply Forall_impl; [exact Hall|]. intros r (_ & _ & _ & _ & H). exact H.
Defined.

(** ** The sweep and the rest of the process *)

Section SweepFrames.
Variable R : World -> World -> Prop.
Hypothesis R_refl : forall w, R w w.
Hypothesis R_trans : forall a b c, R a b -> R b c -> R a c.
Hypothesis R_awaited : forall w, R w (awaited w).
Hypothesis R_files : forall w p, R w (set_files (delete p (files w)) w).
Variable E : Env.

Lemma Preserves_sweepFiles oneDayAgo active names :
  Preserves R (sweepFiles oneDayAgo active names).
Proof.
  induction names as [|file rest IH]; simpl; [now apply Preserves_ret|].
  destruct (String.eqb file ".gitkeep"); [exact IH|].
  apply Preserves_bind; [exact R_trans | now apply Preserves_stat | intros stats].
  apply Preserves_bind; [exact R_trans | | intros _; exact IH].
  apply Preserves_if; [|now apply Preserves_ret].
  apply Preserves_tryCatch; [exact R_trans | now apply Preserves_unlink |].
  intros m. now apply Preserves_ret.
Qed.

Lemma Preserves_cleanupOldMediaFiles : Preserves R (cleanupOldMediaFiles E).
Proof.
  unfold cleanupOldMediaFiles.
  apply Preserves_tryCatch; [exact R_trans | | intros m; now apply Preserves_ret].
  apply Preserves_bind; [exact R_trans | intros w; apply R_awaited | intros names].
  intros w. destruct (negb (isSupabaseConfigured w)); [apply R_refl|].
  revert w.
  apply Preserves_bind;
    [exact R_trans | now apply Preserves_getPendingSchedule | intros pendingSchedule].
  apply Preserves_bind; [exact R_trans | now apply Preserves_newDate | intros now].
  apply Preserves_sweepFiles.
Qed.

End SweepFrames.

(** the files of a sweep with a store client, path by path *)
Lemma cleanup_configured_files (E : Env) (w : World) (t : Tables) :
  supabase w = Some t ->
  exists oneDayAgo active,
    (forall x f, x ∈ entries UPLOADS_DIR (files w) ->
       files w !! Js.join UPLOADS_DIR x = Some f ->
       files (snd (cleanupOldMediaFiles E w)) !! Js.join UPLOADS_DIR x
       = if swept oneDayAgo active x f then None else Some f)
    /\ (forall p, (forall x, x ∈ entries UPLOADS_DIR (files w) -> p <> Js.join UPLOADS_DIR x) ->
          files (snd (cleanupOldMediaFiles E w)) !! p = files w !! p).
Proof.
  intros Ht.
  set (pendingSchedule :=
         match storeError E (S (tick w)) with
         | Some _ => []
         | None => orderBySendAt (List.filter isPending (schedule t))
         end).
  set (oneDayAgo := nowAt E (S (S (tick w))) - 24 * 60 * 60 * 1000).
  exists oneDayAgo, (activeMediaFiles pendingSchedule).
  destruct (sweepFiles_spec oneDayAgo (activeMediaFiles pendingSchedule)
              (entries UPLOADS_DIR (files w)) (awaited (awaited w))
              (NoDup_entries _ _)) as (w2 & Hrun & Hin & Hout).
  { intros x Hx. apply elem_of_entries in Hx. tauto. }
  assert (Hw' : snd (cleanupOldMediaFiles E w) = w2).
  { unfold cleanupOldMediaFiles, tryCatch, bind at 1, readdir.
    unfold isSupabaseConfigured. simpl. rewrite Ht. simpl.
    unfold bind at 1, getPendingSchedule. simpl. rewrite Ht.
    subst pendingSchedule.
    destruct (storeError E (S (tick w))); unfold bind at 1, newDate; simpl;
      fold oneDayAgo; now rewrite Hrun. }
  rewrite Hw'. split; [exact Hin | exact Hout].
Qed.

(** X19. The media sweep never throws, leaves the store, the transport, the
    observers and the flag alone, creates or changes no file, and removes
    only direct entries of the uploads directory: a path outside it, or in a
    directory below it, holds after the sweep what it held before. *)
Theorem cleanupOldMediaFiles_stays_in_uploads (E : Env) (w : World) :
  exists w',
    cleanupOldMediaFiles E w = (Ret tt, w')
    /\ supabase w' = supabase w
    /\ wire w' = wire w
    /\ emitted w' = emitted w
    /\ sendingInProgress w' = sendingInProgress w
    /\ files w' ⊆ files w
    /\ (forall p, entryOf UPLOADS_DIR p = None -> files w' !! p = files w !! p).
Proof.
  assert (Hret : fst (cleanupOldMediaFiles E w) = Ret tt).
  { unfold cleanupOldMediaFiles, tryCatch.
    destruct (bind _ _ w) as [[[]|m] w1]; reflexivity. }
  assert (Hquiet : Preserves
                     (fun a b => supabase b = supabase a /\ wire b = wire a
                                 /\ emitted b = emitted a
                                 /\ sendingInProgress b = sendingInProgress a)
                     (cleanupOldMediaFiles E)).
  { apply Preserves_cleanupOldMediaFiles; try (intros; repeat split; fail).
    intros a b c (?&?&?&?) (?&?&?&?). repeat split; congruence. }
  destruct (Hquiet w) as (Hs & Hw & He & Hflag).
  assert (Hfiles : files (snd (cleanupOldMediaFiles E w)) ⊆ files w
                   /\ forall p, entryOf UPLOADS_DIR p = None ->
                                files (snd (cleanupOldMediaFiles E w)) !! p = files w !! p).
  { destruct (supabase w) as [t|] eqn:Ht.
    - destruct (cleanup_configured_files E w t Ht) as (oneDayAgo & active & Hin & Hout).
      assert (Hnon : forall p,
                 ~ (exists x, x ∈ entries UPLOADS_DIR (files w) /\ p = Js.join UPLOADS_DIR x) ->
                 files (snd (cleanupOldMediaFiles E w)) !! p = files w !! p).
      { intros p Hp. apply Hout. intros x Hx Heq. apply Hp. eauto. }
      split.
      + apply map_subseteq_spec. intros p v Hv.
        destruct (entryOf UPLOADS_DIR p) as [x|] eqn:Hentry.
        * apply entryOf_Some in Hentry. destruct Hentry as (-> & Hne & Hno).
          destruct (files w !! Js.join UPLOADS_DIR x) as [f|] eqn:Hf.
          -- assert (Hx : x ∈ entries UPLOADS_DIR (files w))
               by (apply elem_of_entries; rewrite Hf; eauto).
             rewrite (Hin x f Hx Hf) in Hv.
             destruct (swept oneDayAgo active x f); [discriminate | exact Hv].
          -- rewrite Hnon in Hv; [congruence|].
             intros (y & Hy & Heq). apply join_inj in Heq. subst y.
             apply elem_of_entries in Hy. destruct Hy as [[f Hy] _]. congruence.
        * rewrite Hnon in Hv; [exact Hv|].
          intros (y & Hy & ->). apply elem_of_entries in Hy. destruct Hy as (_ & Hne & Hno).
          assert (Hsome : entryOf UPLOADS_DIR (Js.join UPLOADS_DIR y) = Some y)
            by (apply entryOf_Some; auto).
          congruence.
      + intros p Hentry. apply Hnon.
        intros (y & Hy & ->). apply elem_of_entries in Hy. destruct Hy as (_ & Hne & Hno).
        assert (Hsome : entryOf UPLOADS_DIR (Js.join UPLOADS_DIR y) = Some y)
          by (apply entryOf_Some; auto).
        congruence.
    - rewrite (cleanup_unconfigured E w Ht). split; [reflexivity | auto]. }
  destruct (cleanupOldMediaFiles E w) as [r w'] eqn:Hrun. simpl in *. subst r.
  exists w'. destruct Hfiles as [Hsub Hout]. repeat (split; [auto; fail|]). exact Hout.
Qed.

Lemma cleanupOldMediaFiles_stays_in_uploads_witness :
  files (snd (cleanupOldMediaFiles Sample.calm
                (Sample.world [] (<[ "/app/public/index.html" := mkFile 0 "<html>" ]> ∅))))
    !! "/app/public/index.html" = Some (mkFile 0 "<html>").
Proof.
  destruct (cleanupOldMediaFiles_stays_in_uploads Sample.calm
              (Sample.world [] (<[ "/app/public/index.html" := mkFile 0 "<html>" ]> ∅)))
    as (w' & Hrun & _ & _ & _ & _ & _ & Hout).
  rewrite Hrun. simpl. rewrite Hout; reflexivity.
Defined.

(** ** The full schedule and the pending schedule *)

Lemma filter_perm {A} (p : A -> bool) (l l' : list A) :
  l ≡ₚ l' -> List.filter p l ≡ₚ List.filter p l'.
Proof.
  induction 1 as [|x l l' _ IH|x y l|l l' l'' _ IH1 _ IH2]; simpl.
  - reflexivity.
  - destruct (p x); [now constructor | exact IH].
  - destruct (p x), (p y); try reflexivity. constructor.
  - etransitivity; eassumption.
Qed.

(** X20. [getSchedule] writes nothing and returns rows in ascending order of
    send_at, all of them rows of the table; when the store is configured and
    answers, they are the rows of the table, each as often as the table has
    it, and what the pending query returns on the same table is, up to the
    order of rows, the pending rows among them. Without a client, and when
    the store reports an error, it returns the empty list. *)
Theorem getSchedule_sorted (E : Env) (w : World) :
  exists items w',
    getSchedule E w = (Ret items, w')
    /\ (supabase w' = supabase w /\ files w' = files w /\ wire w' = wire w
        /\ emitted w' = emitted w /\ sendingInProgress w' = sendingInProgress w)
    /\ StronglySorted (fun a b => send_at a <= send_at b) items
    /\ (forall r, In r items -> In r (scheduleOf w))
    /\ (isSupabaseConfigured w = true -> storeError E (tick w) = None ->
        items ≡ₚ scheduleOf w
        /\ forall pend, fst (getPendingSchedule E w) = Ret pend ->
                        pend ≡ₚ List.filter isPending items)
    /\ (isSupabaseConfigured w = false -> items = [])
    /\ (storeError E (tick w) <> None -> items = []).
Proof.
  unfold getSchedule, getPendingSchedule, isSupabaseConfigured, scheduleOf.
  destruct (supabase w) as [t|] eqn:Ht.
  - destruct (storeError E (tick w)) as [m|].
    + exists [], (awaited w). split; [reflexivity|]. split; [simpl; auto|].
      split; [constructor|]. split; [intros r []|].
      split; [intros _ H; discriminate H|]. auto.
    + exists (orderBySendAt (schedule t)), (awaited w).
      split; [reflexivity|]. split; [simpl; auto|].
      split; [apply orderBySendAt_sorted|]. split; [|split; [|split]].
      * intros r Hr. now apply In_orderBySendAt.
      * intros _ _. split; [apply orderBySendAt_perm|].
        simpl. intros pend [= <-].
        rewrite orderBySendAt_perm. apply filter_perm. symmetry. apply orderBySendAt_perm.
      * discriminate.
      * intros H. contradiction.
  - exists [], w. split; [reflexivity|]. split; [auto|].
    split; [constructor|]. split; [intros r []|].
    split; [intros H; discriminate H|]. auto.
Qed.

Lemma getSchedule_sorted_witness :
  exists items,
    fst (getSchedule Sample.calm
           (Sample.world [Sample.later; Sample.done_; Sample.hi] ∅)) = Ret items
    /\ items ≡ₚ [Sample.later; Sample.done_; Sample.hi].
Proof.
  destruct (getSchedule_sorted Sample.calm
              (Sample.world [Sample.later; Sample.done_; Sample.hi] ∅))
    as (items & w' & Hrun & _ & _ & _ & Hperm & _).
  exists items. split; [now rewrite Hrun|]. exact (proj1 (Hperm eq_refl eq_refl)).
Defined.

(** ** A retryable rejection *)

(** an iteration that ends by an exception ends the run: the outer catch
    block logs, the finally block lowers the flag *)
Lemma run_aborted E w wk item total n m w1 :
  reaches E w item total n wk ->
  iteration E total n item wk = (Throw m, w1) ->
  processQueue E w = (Ret tt, set_sendingInProgress false w1).
Proof.
  intros (t & pre & post & Hconn & Hidle & Ht & Hok & Hnd & Hdue & Htot & Hn & Hpre & _) Hit.
  rewrite processQueue_alone. rewrite Hconn, Hidle. unfold isSupabaseConfigured. rewrite Ht. simpl.
  unfold tryFinally, tryCatch, drain, bind at 1.
  unfold getDueScheduleItems at 1. simpl. rewrite Ht, Hok, Hdue.
  assert (Hcons : exists x l, pre ++ item :: post = x :: l)
    by (destruct pre; simpl; eauto).
  destruct Hcons as (x & l & Hcons). rewrite Hcons. rewrite <- Hcons. clear x l Hcons.
  unfold bind at 1. rewrite <- Htot. rewrite forOf_app, Hpre. simpl forOf.
  rewrite <- Hn, Hit. reflexivity.
Qed.

(** X21. In a worker run that gets to an item whose recipient passes the
    checks and whose content loads, and whose dispatch the transport rejects
    with an error the retry classifier accepts: the catch block calls
    [db.incrementRetryCount], which [database.js] does not have, and the
    exception ends the run. The row is left as it was, still pending with its
    retry counter; one transport call was made for it; nothing else happens
    in the run after that call: store and files are as the earlier items
    left them, no event is emitted, no later item is taken up; the flag is
    lowered. *)
Theorem retryable_rejection_aborts_the_run (E : Env) (w wk : World) (item : Row)
    (total n : nat) (p : Payload) (m : string) :
  reaches E w item total n wk ->
  validRecipient item = true ->
  dispatched E wk item = Some p ->
  sendOutcome E (tick (afterLoad item wk)) (jidOf E item) p = Some m ->
  isRetryableError (errorMessageOf m) = true ->
  let w' := snd (processQueue E w) in
  rowById (id item) w' = Some item
  /\ wire w' = wire wk ++ [mkSendCall (id item) (jidOf E item) p]
  /\ callsFor (id item) w'
     = callsFor (id item) w ++ [mkSendCall (id item) (jidOf E item) p]
  /\ supabase w' = supabase wk
  /\ files w' = files wk
  /\ emitted w' = emitted wk
  /\ sendingInProgress w' = false.
Proof.
  intros Hreach Hvalid Hp Hsend Hretry w'.
  destruct (afterLoad_quiet item wk) as (Hs0 & Hw0 & Hf0 & He0).
  assert (Hit : iteration E total n item wk
                = (Throw "db.incrementRetryCount is not a function",
                   awaited (set_wire (wire (afterLoad item wk)
                                      ++ [mkSendCall (id item) (jidOf E item) p])
                                     (afterLoad item wk)))).
  { apply retryable_failure_escapes with (m := m); [|exact Hretry].
    rewrite (attempt_valid E item total n wk
               (reaches_connected E w wk item total n Hreach) Hvalid).
    rewrite (deliver_dispatched E item total n _ wk p Hp). unfold bind.
    now rewrite (sendMessage_rejects E item _ _ _ _ Hsend). }
  unfold w'. rewrite (run_aborted E w wk item total n _ _ Hreach Hit). simpl.
  split; [|split; [now rewrite Hw0|split; [|auto]]].
  - unfold rowById, scheduleOf. simpl. rewrite Hs0.
    exact (reaches_row E w wk item total n Hreach).
  - unfold callsFor. simpl. rewrite Hw0, List.filter_app. simpl.
    rewrite String.eqb_refl. fold (callsFor (id item) wk).
    now rewrite (reaches_calls E w wk item total n Hreach).
Qed.

Lemma retryable_rejection_aborts_the_run_witness :
  wire (snd (processQueue Sample.timingOut
               (Sample.world
                  [Sample.hi; Sample.textRow "z" "94770000009" "next" pending None] ∅)))
  = [mkSendCall "a" "94770000000@s.whatsapp.net" (Text "hi")].
Proof.
  assert (Hnd : NoDup (map id
                   [Sample.hi; Sample.textRow "z" "94770000009" "next" pending None])).
  { apply (bool_decide_unpack _). vm_compute. exact I. }
  assert (Hreach : reaches Sample.timingOut
            (Sample.world
               [Sample.hi; Sample.textRow "z" "94770000009" "next" pending None] ∅)
            Sample.hi 2 1
            (awaited (set_sendingInProgress true
               (Sample.world
                  [Sample.hi; Sample.textRow "z" "94770000009" "next" pending None] ∅)))).
  { apply (reaches_first Sample.timingOut _
             (mkTables [Sample.hi; Sample.textRow "z" "94770000009" "next" pending None] [])
             Sample.hi [Sample.textRow "z" "94770000009" "next" pending None]);
      try reflexivity. exact Hnd. }
  destruct (retryable_rejection_aborts_the_run Sample.timingOut _ _ _ 2 1
              (Text "hi") "Request timeout" Hreach eq_refl eq_refl eq_refl eq_refl)
    as (_ & Hwire & _).
  exact Hwire.
Defined.

(** ** The birthday text *)

Lemma startsWith_append pre s : Js.startsWith pre (pre +:+ s) = true.
Proof.
  unfold Js.startsWith. induction pre as [|c pre IH]; [destruct s; reflexivity|].
  change (String c pre +:+ s) with (String c (pre +:+ s)). simpl.
  destruct (ascii_dec c c); [exact IH | contradiction].
Qed.

(** X22. [generateBirthdayMessage] never throws and changes nothing but the
    logical clock. Without a text model, and when the request to the model
    fails, the text is the template for the entry, which begins with
    "Happy " and contains the word "birthday" that the duplicate test of the
    birthday check looks for; a text the model returns is passed on as it
    is. *)
Theorem generateBirthdayMessage_falls_back (E : Env) (b : Birthday) (w : World) :
  exists text w',
    generateBirthdayMessage E b w = (Ret text, w')
    /\ (supabase w' = supabase w /\ files w' = files w /\ wire w' = wire w
        /\ emitted w' = emitted w /\ sendingInProgress w' = sendingInProgress w)
    /\ (genAI w = false
        \/ generateContent E (tick w) b (ageText E b (nowAt E (tick w))) = None ->
        (exists age, text = templateMessage b age)
        /\ Js.startsWith "Happy " text = true
        /\ Js.includes "birthday" text = true)
    /\ (forall answer,
          genAI w = true ->
          generateContent E (tick w) b (ageText E b (nowAt E (tick w))) = Some answer ->
          text = answer).
Proof.
  assert (Htemplate : forall age,
             (exists age', templateMessage b age = templateMessage b age')
             /\ Js.startsWith "Happy " (templateMessage b age) = true
             /\ Js.includes "birthday" (templateMessage b age) = true).
  { intros age. split; [eauto|]. split; [|apply templateMessage_marker].
    unfold templateMessage.
    destruct (String.eqb (b_relationship b) "family"); [apply startsWith_append|].
    destruct (String.eqb (b_relationship b) "relative"); [apply startsWith_append|].
    destruct (String.eqb (b_relationship b) "friend"); [|apply startsWith_append].
    destruct (String.eqb (b_gender b) "male"); apply startsWith_append. }
  unfold generateBirthdayMessage.
  destruct (genAI w) eqn:Hai; simpl.
  - destruct (generateContent E (tick w) b (ageText E b (nowAt E (tick w))))
      as [answer|] eqn:Hgen.
    + eexists _, _. split; [reflexivity|]. split; [repeat split|].
      split; [intros [H|H]; discriminate|]. intros a _ [= <-]. reflexivity.
    + eexists _, _. split; [reflexivity|]. split; [repeat split|].
      split; [intros _; apply Htemplate|]. intros a _ H. discriminate H.
  - eexists _, _. split; [reflexivity|]. split; [repeat split|].
    split; [intros _; apply Htemplate|]. intros a H. discriminate H.
Qed.

Lemma generateBirthdayMessage_falls_back_witness :
  exists text,
    fst (generateBirthdayMessage Sample.frozen Sample.nimal (Sample.calendar [Sample.nimal]))
    = Ret text
    /\ Js.includes "birthday" text = true.
Proof.
  destruct (generateBirthdayMessage_falls_back Sample.frozen Sample.nimal
              (Sample.calendar [Sample.nimal])) as (text & w' & Hrun & _ & Hfall & _).
  exists text. split; [now rewrite Hrun|].
  destruct Hfall as (_ & _ & H); [left; reflexivity | exact H].
Defined.

(** ** Paths *)

Lemma append_empty_r s : s +:+ "" = s.
Proof. induction s as [|c s IH]; [reflexivity|]. change (String c (s +:+ "") = String c s). now rewrite IH. Qed.

Lemma append_assoc_char cur c rest : (cur +:+ String c "") +:+ rest = cur +:+ String c rest.
Proof.
  induction cur as [|a cur IH]; [reflexivity|].
  change (String a ((cur +:+ String c "") +:+ rest) = String a (cur +:+ String c rest)).
  now rewrite IH.
Qed.

Lemma includes_slash_head c rest :
  Js.includes "/" (String c rest) = false -> c <> "/"%char /\ Js.includes "/" rest = false.
Proof.
  simpl. intros H. apply orb_false_iff in H. destruct H as [Hp Hi]. split; [|exact Hi].
  intros ->. destruct (ascii_dec "/" "/") as [_|Hne]; [|contradiction].
  destruct rest; discriminate Hp.
Qed.

(** a name without a separator is one segment *)
Lemma segments_no_slash name : forall cur,
  Js.includes "/" name = false -> Js.segments cur name = [cur +:+ name].
Proof.
  induction name as [|c rest IH]; intros cur H; simpl.
  - now rewrite append_empty_r.
  - apply includes_slash_head in H. destruct H as [Hc Hrest].
    destruct (Ascii.eqb_spec c "/"); [contradiction|].
    rewrite IH by exact Hrest. now rewrite append_assoc_char.
Qed.

Lemma lastChar_no_slash name :
  Js.includes "/" name = false -> Js.lastChar name <> Some "/"%char.
Proof.
  induction name as [|c rest IH]; intros H; [discriminate|].
  apply includes_slash_head in H. destruct H as [Hc Hrest].
  destruct rest as [|d rest']; [simpl; congruence|].
  change (Js.lastChar (String d rest') <> Some "/"%char). now apply IH.
Qed.

Lemma lastChar_append s name :
  name <> "" -> Js.lastChar (s +:+ name) = Js.lastChar name.
Proof.
  intros Hne. induction s as [|c s IH]; [reflexivity|].
  change (Js.lastChar (String c (s +:+ name)) = Js.lastChar name).
  destruct (s +:+ name) as [|d rest] eqn:Hs.
  - destruct s; [simpl in Hs; contradiction | discriminate Hs].
  - exact IH.
Qed.

(** for the name of a directory entry, [path.join] on the uploads directory
    is the concatenation the sweep is modelled with *)
Lemma pathJoin_entry name :
  name <> "" -> name <> "." -> name <> ".." -> Js.includes "/" name = false ->
  Js.pathJoin UPLOADS_DIR name = Js.join UPLOADS_DIR name.
Proof.
  intros Hne Hdot Hdots Hslash.
  unfold Js.pathJoin.
  change (String.eqb UPLOADS_DIR "") with false. cbv iota.
  destruct (String.eqb_spec name ""); [contradiction|].
  change (String.eqb (UPLOADS_DIR +:+ "/" +:+ name) "") with false. cbv iota.
  unfold Js.normalize.
  change (String.eqb (UPLOADS_DIR +:+ "/" +:+ name) "") with false. cbv iota.
  change (Js.startsWith "/" (UPLOADS_DIR +:+ "/" +:+ name)) with true.
  change (UPLOADS_DIR +:+ "/" +:+ name) with ("/app/public/uploads/" +:+ name).
  rewrite (lastChar_append "/app/public/uploads/" name Hne).
  assert (Htrail : match Js.lastChar name with
                   | Some c => Ascii.eqb c "/"
                   | None => false
                   end = false).
  { pose proof (lastChar_no_slash name Hslash) as Hl.
    destruct (Js.lastChar name) as [c|]; [|reflexivity].
    destruct (Ascii.eqb_spec c "/"); [subst; contradiction | reflexivity]. }
  rewrite Htrail.
  assert (Hsegs : Js.segments "" ("/app/public/uploads/" +:+ name)
                  = ["" ; "app"; "public"; "uploads"; name]).
  { change (Js.segments "" ("/app/public/uploads/" +:+ name))
      with ("" :: "app" :: "public" :: "uploads" :: Js.segments "" name).
    now rewrite (segments_no_slash name "" Hslash). }
  rewrite Hsegs. simpl Js.normalizeSegments.
  destruct (String.eqb_spec name ""); [contradiction|].
  destruct (String.eqb_spec name "."); [contradiction|].
  destruct (String.eqb_spec name ".."); [contradiction|].
  simpl. reflexivity.
Qed.
